(** * HopsFileHandle: the open-file handle of the HopsFS FUSE mount

    A shallow embedding of [HopsFileHandle.go] (type [FileHandle] and its
    methods [dataChanged], [Truncate], [Read], [Write], [copyToDFS],
    [FlushAttempt], [Flush], [Fsync], [Release], [logInfo]) as functions in a
    state monad over an explicit world, followed by the properties the
    specification states about them.

    The handle talks to collaborators whose code lives in other files of the
    repository: the staging file proxy behind [fh.File.handle], the inode
    ([FileINode]), the DFS connector and its writer, the retry policy and the
    logger.  They are modelled here from the specification; every such
    definition says so in its doc comment.  Their failures are driven by an
    oracle stored in the world, so that a statement quantified over all worlds
    covers every pattern of failures. *)

From Stdlib Require Import ZArith Lia Bool.
From Stdlib.Strings Require Import Byte.
From stdpp Require Import base gmap strings list.

Local Open Scope string_scope.
Local Open Scope Z_scope.

(* ================================================================== *)
(** ** Values *)

(** Go's [error] values.  The handle only ever compares an error with [nil]
    and with the sentinel [io.EOF]; the remaining constructors are the
    semantic kinds of section 7 of the specification.  [nil] is [None] in
    [option error]. *)
Inductive error : Type :=
| io_EOF
| ErrNotFound
| ErrAlreadyExists
| ErrPermissionDenied
| ErrInvalid
| ErrNotSupported
| ErrTransport
| ErrRemoteUnavailable
| ErrLocalIO.

#[global] Instance error_eq_dec : EqDecision error.
Proof. solve_decision. Defined.

#[global] Instance byte_eq_dec : EqDecision byte.
Proof. intros a b. exact (Byte.byte_eq_dec a b). Defined.

(** Go's [int64] (and 64-bit [int]) arithmetic: the mathematical result
    reduced to the signed 64-bit range. *)
Definition wrap64 (z : Z) : Z := (z + 2 ^ 63) mod 2 ^ 64 - 2 ^ 63.

Definition in_int64 (z : Z) : Prop := - 2 ^ 63 <= z < 2 ^ 63.

(** The [Operation] tags handed to the logger. *)
Module Oper.
Definition Truncate : string := "Truncate".
Definition Read : string := "Read".
Definition Write : string := "Write".
Definition Flush : string := "Flush".
Definition Fsync : string := "Fsync".
Definition Close : string := "Close".
End Oper.

(** The keys of a [Fields] map. *)
Module Fld.
Definition FileHandleID : string := "FileHandleID".
Definition Path : string := "Path".
Definition Operation : string := "Operation".
Definition Bytes : string := "Bytes".
Definition Error : string := "Error".
Definition Flags : string := "Flags".
Definition TotalBytesRead : string := "TotalBytesRead".
Definition TotalBytesWritten : string := "TotalBytesWritten".
End Fld.

(** A field value ([interface{}] in the source). *)
Inductive Value : Type :=
| VInt (z : Z)
| VStr (s : string)
| VErr (e : error).

(** [Fields] is a Go map from key to value. *)
Abbreviation Fields := (gmap string Value).

Inductive Level : Type := LError | LWarn | LInfo | LDebug | LTrace.

Record LogEntry : Type := mkLog {
  level : Level;
  message : string;
  fields : Fields
}.

(* ================================================================== *)
(** ** The staging file proxy

    The type behind [fh.File.handle] (the staging store of section 4.E of
    the specification) is declared outside this file.  It is a local
    seekable scratch file: [readAt], [writeAt], [truncate] with POSIX
    semantics (grow with zero fill, shrink drops bytes), [seekToStart],
    sequential [read] and [close].  A file opened for reading need not be
    pre-populated: it is then read through to the remote file system
    (section 4.G) and hydrated from it by the upgrade for writing
    (section 4.E). *)

(** Modelled from the spec: the two modes of a staging proxy, which is
    opened read-only and upgraded on the first write. *)
Inductive ProxyMode : Type := ReadOnly | ReadWrite.

(** Modelled from the spec: the staging proxy, a scratch file with the
    cursor of its sequential reads; [populated] says that the scratch file
    has been given the content of the file (section 4.E: "pre-populated"). *)
Record FileProxy : Type := mkProxy {
  data : list byte;     (* the bytes of the scratch file *)
  cursor : nat;         (* offset of the next sequential read *)
  mode : ProxyMode;
  populated : bool      (* the scratch file holds the file's content *)
}.

(** Modelled from the spec: the file is staged when its scratch file holds
    its content: it was pre-populated, or it is writable, the upgrade handing
    out a writable file only after the hydration (section 4.E). *)
Definition isStaged (p : FileProxy) : bool :=
  populated p || match mode p with ReadWrite => true | ReadOnly => false end.

(** What the oracle says about the next collaborator call: it goes well, it
    fails with [e] after moving at most [n] bytes, or (sequential reads only)
    it is a short read of at most [S k] bytes. *)
Inductive Resp : Type :=
| RespOk
| RespFail (n : nat) (e : error)
| RespShort (k : nat).

(** [pread]: the bytes of [p] at [off], at most [len] of them. *)
Definition pread (p : FileProxy) (off len : nat) : list byte :=
  take len (drop off (data p)).

(** [pwrite]: [bs] stored at [off]; a hole before [off] reads as zeros. *)
Definition pwrite (d : list byte) (off : nat) (bs : list byte) : list byte :=
  take off d ++ replicate (off - length d) x00 ++ bs ++ drop (off + length bs) d.

(** [ftruncate]: cut at [size], or grow with zeros. *)
Definition ptruncate (d : list byte) (size : nat) : list byte :=
  take size d ++ replicate (size - length d) x00.

(** Modelled from the spec: [readAt] of the staging store, which serves a
    staged file, with [len(buf) = len]: the bytes read and the error.
    Fewer bytes than asked for come with [io.EOF]; an empty buffer reads
    nothing and reports no error.  A file that is not staged is read through
    to the remote, see [handle_ReadAt]. *)
Definition proxy_ReadAt (r : Resp) (len : nat) (off : Z) (p : FileProxy)
  : list byte * option error :=
  match r with
  | RespFail n e =>
      if off <? 0 then ([], Some e)
      else (take n (pread p (Z.to_nat off) len), Some e)
  | _ =>
      if off <? 0 then ([], Some ErrInvalid)
      else
        let bs := pread p (Z.to_nat off) len in
        (bs, if (length bs <? len)%nat then Some io_EOF else None)
  end.

(** Modelled from the spec: the proxy's [WriteAt(bs, off)]: the count
    written, the error and the new proxy.  A read-only proxy refuses. *)
Definition proxy_WriteAt (r : Resp) (bs : list byte) (off : Z) (p : FileProxy)
  : Z * option error * FileProxy :=
  match r with
  | RespFail n e =>
      let part := take n bs in
      if off <? 0 then (0, Some e, p)
      else (Z.of_nat (length part), Some e,
            mkProxy (pwrite (data p) (Z.to_nat off) part) (cursor p) (mode p)
                    (populated p))
  | _ =>
      if off <? 0 then (0, Some ErrInvalid, p)
      else
        match mode p with
        | ReadOnly => (0, Some ErrPermissionDenied, p)
        | ReadWrite =>
            (Z.of_nat (length bs), None,
             mkProxy (pwrite (data p) (Z.to_nat off) bs) (cursor p) (mode p)
                     (populated p))
        end
  end.

(** Modelled from the spec: the proxy's [Truncate(size)]. *)
Definition proxy_Truncate (r : Resp) (size : Z) (p : FileProxy)
  : option error * FileProxy :=
  match r with
  | RespFail _ e => (Some e, p)
  | _ =>
      if size <? 0 then (Some ErrInvalid, p)
      else (None, mkProxy (ptruncate (data p) (Z.to_nat size)) (cursor p) (mode p)
                          (populated p))
  end.

(** Modelled from the spec: the proxy's [SeekToStart()]. *)
Definition proxy_SeekToStart (r : Resp) (p : FileProxy)
  : option error * FileProxy :=
  match r with
  | RespFail _ e => (Some e, p)
  | _ => (None, mkProxy (data p) 0%nat (mode p) (populated p))
  end.

(** Modelled from the spec: the proxy's sequential [Read(b)] with
    [len(b) = len]: at least one byte while bytes remain, [io.EOF] with no byte at the end of the file, nothing and no
    error for an empty buffer. *)
Definition proxy_Read (r : Resp) (len : nat) (p : FileProxy)
  : list byte * option error * FileProxy :=
  match r with
  | RespFail _ e => ([], Some e, p)
  | _ =>
      let want := match r with RespShort k => Nat.min len (S k) | _ => len end in
      let bs := take want (drop (cursor p) (data p)) in
      match len, bs with
      | O, _ => ([], None, p)
      | _, [] => ([], Some io_EOF, p)
      | _, _ =>
          (bs, None,
           mkProxy (data p) (cursor p + length bs)%nat (mode p) (populated p))
      end
  end.

(* ================================================================== *)
(** ** The world *)

(** Modelled from the spec: [FileINode], declared outside this file, is the
    inode of section 3,
    [{path, attrs, handles: set<HandleID>, staging: optional<StagingRef>}],
    as far as the handle uses it.  [handle] is the staging file proxy ([None]
    is Go's [nil]); [activeHandles] is the set of open handles of the inode,
    a handle being identified by its [fhID]. *)
Record FileINode : Type := mkINode {
  AbsolutePath : string;
  Mode : Z;
  handle : option FileProxy;
  activeHandles : gset Z
}.

(** A call made to a collaborator; lengths and offsets are recorded as
    integers. *)
Inductive Event : Type :=
| EvCreateFile (path : string) (perm : Z) (overwrite : bool)
| EvWriterWrite (path : string) (bs : list byte)
| EvWriterClose (path : string)
| EvConnectorClose
| EvUpgrade
| EvReadAt (len : Z) (off : Z)
| EvWriteAt (bs : list byte) (off : Z)
| EvTruncate (size : Z)
| EvSeekToStart
| EvRead (len : Z)
| EvProxyClose
| EvInvalidateMetadataCache (path : string)
| EvOpenRead (path : string)
| EvRemoteSeek (off : Z)
| EvRemoteRead (len : Z).

(** The calls that reach the remote file system. *)
Definition isRemote (e : Event) : bool :=
  match e with
  | EvCreateFile _ _ _ | EvWriterWrite _ _ | EvWriterClose _ | EvConnectorClose
  | EvOpenRead _ | EvRemoteSeek _ | EvRemoteRead _ => true
  | _ => false
  end.

(** Modelled from the spec: the retry policy of section 4.H, of which the
    handle needs the attempt cap ([RetryPolicy.MaxAttempts]); the backoff
    delays only cost time. *)
Record RetryPolicy : Type := mkPolicy {
  MaxAttempts : nat
}.

(** Everything a handle operation can read or change: the inode it points to
    (shared by all handles of the file), the remote namespace, the state of
    the connector, the metadata cache, the file system's retry policy, the
    oracle, and what has been observed so far ([trace] and [logs], newest
    first). *)
Record World : Type := mkWorld {
  inode : FileINode;
  dfs : gmap string (list byte);
  connected : bool;
  attrCache : gset string;
  retryPolicy : RetryPolicy;
  oracle : list Resp;
  trace : list Event;
  logs : list LogEntry
}.

Definition set_inode (i : FileINode) (w : World) : World :=
  mkWorld i (dfs w) (connected w) (attrCache w) (retryPolicy w) (oracle w) (trace w) (logs w).
Definition set_dfs (d : gmap string (list byte)) (w : World) : World :=
  mkWorld (inode w) d (connected w) (attrCache w) (retryPolicy w) (oracle w) (trace w) (logs w).
Definition set_connected (b : bool) (w : World) : World :=
  mkWorld (inode w) (dfs w) b (attrCache w) (retryPolicy w) (oracle w) (trace w) (logs w).
Definition set_attrCache (c : gset string) (w : World) : World :=
  mkWorld (inode w) (dfs w) (connected w) c (retryPolicy w) (oracle w) (trace w) (logs w).
Definition set_oracle (o : list Resp) (w : World) : World :=
  mkWorld (inode w) (dfs w) (connected w) (attrCache w) (retryPolicy w) o (trace w) (logs w).
Definition set_trace (t : list Event) (w : World) : World :=
  mkWorld (inode w) (dfs w) (connected w) (attrCache w) (retryPolicy w) (oracle w) t (logs w).
Definition set_logs (l : list LogEntry) (w : World) : World :=
  mkWorld (inode w) (dfs w) (connected w) (attrCache w) (retryPolicy w) (oracle w) (trace w) l.

Definition set_handle (h : option FileProxy) (i : FileINode) : FileINode :=
  mkINode (AbsolutePath i) (Mode i) h (activeHandles i).
Definition set_activeHandles (s : gset Z) (i : FileINode) : FileINode :=
  mkINode (AbsolutePath i) (Mode i) (handle i) s.

(* ================================================================== *)
(** ** The monad of handle operations *)

(** An operation returns a value and a new world, or panics (a method called
    on a [nil] proxy, a slice bound out of range), or runs out of the fuel
    that bounds its loops. *)
Inductive Outcome (A : Type) : Type :=
| Returns (a : A) (w : World)
| Panics (w : World)
| OutOfFuel.
Arguments Returns {A} a w.
Arguments Panics {A} w.
Arguments OutOfFuel {A}.

Definition M (A : Type) : Type := World -> Outcome A.

Definition ret {A} (a : A) : M A := fun w => Returns a w.

Definition bind {A B} (m : M A) (k : A -> M B) : M B :=
  fun w =>
    match m w with
    | Returns a w' => k a w'
    | Panics w' => Panics w'
    | OutOfFuel => OutOfFuel
    end.

#[global] Instance M_ret : MRet M := @ret.
#[global] Instance M_bind : MBind M := fun A B k m => bind m k.

Definition panic {A} : M A := fun w => Panics w.
Definition get : M World := fun w => Returns w w.
Definition modify (f : World -> World) : M unit := fun w => Returns tt (f w).

(** The oracle's word on the next call; an exhausted oracle lets it pass. *)
Definition nextResp (w : World) : Resp := default RespOk (head (oracle w)).

Definition ask : M Resp :=
  fun w => Returns (nextResp w) (set_oracle (tail (oracle w)) w).

Definition emit (e : Event) : M unit :=
  modify (fun w => set_trace (e :: trace w) w).

(** The logger: an entry is appended to the log; nothing else happens. *)
Definition log (l : Level) (msg : string) (f : Fields) : M unit :=
  modify (fun w => set_logs (mkLog l msg f :: logs w) w).
Definition logerror := log LError.
Definition logwarn := log LWarn.
Definition loginfo := log LInfo.
Definition logdebug := log LDebug.
Definition logtrace := log LTrace.

(** [fh.File.handle]: calling a method on it panics when it is [nil]. *)
Definition deref : M FileProxy :=
  fun w =>
    match handle (inode w) with
    | Some p => Returns p w
    | None => Panics w
    end.

Definition store (h : option FileProxy) : M unit :=
  modify (fun w => set_inode (set_handle h (inode w)) w).

(** Modelled from the spec: [openRead(path)] of the remote client
    (section 4.A): the content of the remote file for a seekable reader, or
    an error, [NotFound] when there is no file at [path]; the first use
    connects. *)
Definition openRead (path : string) : M (list byte + error) :=
  r ← ask;
  emit (EvOpenRead path);;
  w ← get;
  match r with
  | RespFail _ e => ret (inr e)
  | _ =>
      modify (set_connected true);;
      match dfs w !! path with
      | Some bs => ret (inl bs)
      | None => ret (inr ErrNotFound)
      end
  end.

(** Modelled from the spec: the read of a file that is not staged,
    "[openRead] + [seek] + [read] on remote" (section 4.G); the reader's
    [read] is a sequential read of the remote content from the offset on,
    short reads permitted. *)
Definition remote_ReadAt (len : nat) (off : Z) : M (list byte * option error) :=
  w ← get;
  x ← openRead (AbsolutePath (inode w));
  match x with
  | inr e => ret ([], Some e)
  | inl bs =>
      r ← ask;
      emit (EvRemoteSeek off);;
      match r with
      | RespFail _ e => ret ([], Some e)
      | _ =>
          if off <? 0 then ret ([], Some ErrInvalid)
          else
            r ← ask;
            emit (EvRemoteRead (Z.of_nat len));;
            ret (proxy_Read r len (mkProxy bs (Z.to_nat off) ReadOnly false)).1
      end
  end.

(** The proxy's methods, lifted to the world. *)

(** Modelled from the spec: [ReadAt] reads the staging file when the file is
    staged and reads through to the remote otherwise (section 4.G: "if
    staged, [readAt] the staging store; else [openRead] + [seek] + [read] on
    remote"). *)
Definition handle_ReadAt (len : nat) (off : Z) : M (list byte * option error) :=
  p ← deref;
  if isStaged p then
    r ← ask;
    emit (EvReadAt (Z.of_nat len) off);;
    ret (proxy_ReadAt r len off p)
  else remote_ReadAt len off.

Definition handle_WriteAt (bs : list byte) (off : Z) : M (Z * option error) :=
  p ← deref;
  r ← ask;
  emit (EvWriteAt bs off);;
  let '(nw, err, p') := proxy_WriteAt r bs off p in
  store (Some p');;
  ret (nw, err).

Definition handle_Truncate (size : Z) : M (option error) :=
  p ← deref;
  r ← ask;
  emit (EvTruncate size);;
  let '(err, p') := proxy_Truncate r size p in
  store (Some p');;
  ret err.

Definition handle_SeekToStart : M (option error) :=
  p ← deref;
  r ← ask;
  emit EvSeekToStart;;
  let '(err, p') := proxy_SeekToStart r p in
  store (Some p');;
  ret err.

Definition handle_Read (len : nat) : M (list byte * option error) :=
  p ← deref;
  r ← ask;
  emit (EvRead (Z.of_nat len));;
  let '(bs, err, p') := proxy_Read r len p in
  store (Some p');;
  ret (bs, err).

(** Modelled from the spec: [Close()] on the proxy; the error, if any, comes
    from the oracle. *)
Definition handle_Close : M (option error) :=
  deref;;
  r ← ask;
  emit EvProxyClose;;
  ret (match r with RespFail _ e => Some e | _ => None end).


(** [defer d] around [m]: [d] runs when [m] returns and also when it
    panics. *)
Definition defer {A} (d : M unit) (m : M A) : M A :=
  fun w =>
    match m w with
    | Returns a w' =>
        match d w' with
        | Returns _ w'' => Returns a w''
        | Panics w'' => Panics w''
        | OutOfFuel => OutOfFuel
        end
    | Panics w' =>
        match d w' with
        | Returns _ w'' => Panics w''
        | Panics w'' => Panics w''
        | OutOfFuel => OutOfFuel
        end
    | OutOfFuel => OutOfFuel
    end.

(* ================================================================== *)
(** ** The inode's methods *)

(** Modelled from the spec: [InvalidateMetadataCache] drops the cached
    metadata of the inode's path (section 4.D). *)
Definition InvalidateMetadataCache : M unit :=
  w ← get;
  emit (EvInvalidateMetadataCache (AbsolutePath (inode w)));;
  modify (fun w => set_attrCache (attrCache w ∖ {[AbsolutePath (inode w)]}) w).

(** Modelled from the spec: [RemoveHandle] takes the handle out of the
    inode's set of open handles and [countActiveHandles] is the size of that
    set (section 3: [handles: set<HandleID>]). *)
Definition RemoveHandle (id : Z) : M unit :=
  modify (fun w =>
    set_inode (set_activeHandles (activeHandles (inode w) ∖ {[id]}) (inode w)) w).

(** Modelled from the spec: [countActiveHandles] is the size of the inode's
    set of open handles. *)
Definition countActiveHandles : M Z :=
  w ← get; ret (Z.of_nat (size (activeHandles (inode w)))).

(** Modelled from the spec: the hydration of section 4.E, "streaming from
    remote": the scratch file takes the content of the remote file and
    becomes writable.  Its failure leaves the proxy as it was. *)
Definition hydrate (p : FileProxy) : M unit :=
  w ← get;
  x ← openRead (AbsolutePath (inode w));
  match x with
  | inr _ => ret tt
  | inl bs =>
      r ← ask;
      emit (EvRemoteRead (Z.of_nat (length bs)));;
      match r with
      | RespFail _ _ => ret tt
      | _ => store (Some (mkProxy bs (cursor p) ReadWrite true))
      end
  end.

(** Modelled from the spec: [upgradeHandleForWriting] turns a read-only
    staging file into a read-write one and keeps its contents; a file that
    was not pre-populated is hydrated from the remote first; doing it again
    changes nothing (section 4.E).  Its failure leaves the proxy as it
    was. *)
Definition upgradeHandleForWriting : M unit :=
  p ← deref;
  match mode p with
  | ReadWrite => ret tt
  | ReadOnly =>
      r ← ask;
      emit EvUpgrade;;
      match r with
      | RespFail _ _ => ret tt
      | _ =>
          if populated p
          then store (Some (mkProxy (data p) (cursor p) ReadWrite true))
          else hydrate p
      end
  end.

(* ================================================================== *)
(** ** The DFS connector and its writer

    The remote client of section 4.A of the specification, behind
    [fh.File.FileSystem.getDFSConnector()], is declared outside this
    file. *)

(** Modelled from the spec: the writer that [create] returns; it appends to
    the remote file at [wpath]. *)
Record HdfsWriter : Type := mkWriter { wpath : string }.

(** Modelled from the spec: [create(path, mode, overwrite)]; with
    [overwrite = true] it replaces the file by an empty one, without it an
    existing file is an error. *)
Definition CreateFile (path : string) (perm : Z) (overwrite : bool)
  : M (HdfsWriter + error) :=
  r ← ask;
  emit (EvCreateFile path perm overwrite);;
  w ← get;
  match r with
  | RespFail _ e => ret (inr e)
  | _ =>
      if negb overwrite && bool_decide (is_Some (dfs w !! path))
      then ret (inr ErrAlreadyExists)
      else
        modify (fun w => set_connected true (set_dfs (<[path := []]> (dfs w)) w));;
        ret (inl (mkWriter path))
  end.

(** Modelled from the spec: the remote file at [path] grows by [bs]. *)
Definition appendTo (path : string) (bs : list byte) : M unit :=
  modify (fun w => set_dfs (<[path := (default [] (dfs w !! path) ++ bs)%list]> (dfs w)) w).

(** Modelled from the spec: the writer's [Write(b)]; a failure may leave a
    part of [b] behind. *)
Definition writer_Write (wr : HdfsWriter) (bs : list byte) : M (Z * option error) :=
  r ← ask;
  emit (EvWriterWrite (wpath wr) bs);;
  match r with
  | RespFail n e =>
      appendTo (wpath wr) (take n bs);;
      ret (Z.of_nat (length (take n bs)), Some e)
  | _ =>
      appendTo (wpath wr) bs;;
      ret (Z.of_nat (length bs), None)
  end.

(** Modelled from the spec: the writer's [Close()]. *)
Definition writer_Close (wr : HdfsWriter) : M (option error) :=
  r ← ask;
  emit (EvWriterClose (wpath wr));;
  ret (match r with RespFail _ e => Some e | _ => None end).

(** Modelled from the spec: [Close()] on the connector drops the
    connection; the next call reconnects. *)
Definition connector_Close : M unit :=
  emit EvConnectorClose;;
  modify (set_connected false).

(* ================================================================== *)
(** ** The file handle *)

(** [FileHandle].  [File] points to the world's [inode]; [Mutex] serialises
    the operations of one handle, which are atomic functions here. *)
Record FileHandle : Type := mkHandle {
  fileFlags : Z;
  tatalBytesRead : Z;
  totalBytesWritten : Z;
  fhID : Z
}.

Definition set_tatalBytesRead (n : Z) (fh : FileHandle) : FileHandle :=
  mkHandle (fileFlags fh) n (totalBytesWritten fh) (fhID fh).
Definition set_totalBytesWritten (n : Z) (fh : FileHandle) : FileHandle :=
  mkHandle (fileFlags fh) (tatalBytesRead fh) n (fhID fh).

(** The FUSE requests and responses, as far as the handle reads and fills
    them.  [rCap] is the capacity of [resp.Data]. *)
Record ReadRequest : Type := mkReadReq { rOffset : Z; rSize : Z }.
Record ReadResponse : Type := mkReadResp { rData : list byte; rCap : nat }.
Record WriteRequest : Type := mkWriteReq { wData : list byte; wOffset : Z }.
Record WriteResponse : Type := mkWriteResp { wSize : Z }.

Definition dataChanged (fh : FileHandle) : bool :=
  if 0 <? totalBytesWritten fh then true else false.

Definition logInfo (fh : FileHandle) (fields : Fields) : M Fields :=
  w ← get;
  let f : Fields := {[ Fld.FileHandleID := VInt (fhID fh);
                       Fld.Path := VStr (AbsolutePath (inode w)) ]} in
  ret (fields ∪ f).

(** [logX(msg, fh.logInfo(fields))]. *)
Definition logWith (l : Level) (msg : string) (fh : FileHandle) (fields : Fields)
  : M unit :=
  f ← logInfo fh fields; log l msg f.

Definition Truncate (fh : FileHandle) (size : Z) : M (option error) :=
  err ← handle_Truncate size;
  match err with
  | Some e =>
      logWith LError "Failed to truncate file" fh
        {[ Fld.Operation := VStr Oper.Truncate; Fld.Bytes := VInt size;
           Fld.Error := VErr e ]}
  | None => ret tt
  end;;
  logWith LInfo "Truncated file" fh
    {[ Fld.Operation := VStr Oper.Truncate; Fld.Bytes := VInt size ]};;
  ret None.

Definition Read (fh : FileHandle) (req : ReadRequest) (resp : ReadResponse)
  : M (FileHandle * ReadResponse * option error) :=
  (* buf := resp.Data[0:req.Size] *)
  if (rSize req <? 0) || (Z.of_nat (rCap resp) <? rSize req) then panic
  else
    let buf := Z.to_nat (rSize req) in
    '(bs, err) ← handle_ReadAt buf (rOffset req);
    let nr := Z.of_nat (length bs) in
    let resp := mkReadResp bs (rCap resp) in
    let fh := set_tatalBytesRead (wrap64 (tatalBytesRead fh + nr)) fh in
    match err with
    | Some e =>
        if decide (e = io_EOF) then
          logWith LDebug "Completed reading" fh
            {[ Fld.Operation := VStr Oper.Read; Fld.Error := VErr e;
               Fld.Bytes := VInt nr ]};;
          ret (fh, resp, None)
        else
          logWith LError "Failed to read" fh
            {[ Fld.Operation := VStr Oper.Read; Fld.Error := VErr e;
               Fld.Bytes := VInt nr ]};;
          ret (fh, resp, Some e)
    | None => ret (fh, resp, err)
    end.

Definition Write (fh : FileHandle) (req : WriteRequest)
  : M (FileHandle * WriteResponse * option error) :=
  upgradeHandleForWriting;;
  '(nw, err) ← handle_WriteAt (wData req) (wOffset req);
  let resp := mkWriteResp nw in
  let fh := set_totalBytesWritten (wrap64 (totalBytesWritten fh + nw)) fh in
  match err with
  | Some e =>
      logWith LError "Failed to write to staging file" fh
        {[ Fld.Operation := VStr Oper.Write; Fld.Error := VErr e ]};;
      ret (fh, resp, Some e)
  | None =>
      logWith LDebug "Write data to staging file" fh
        {[ Fld.Operation := VStr Oper.Write; Fld.Bytes := VInt nw ]};;
      ret (fh, resp, None)
  end.

(** The fields of the three log entries of [Release]. *)
Definition closeFields (fh : FileHandle) : Fields :=
  {[ Fld.Operation := VStr Oper.Close; Fld.Flags := VInt (fileFlags fh);
     Fld.TotalBytesRead := VInt (tatalBytesRead fh);
     Fld.TotalBytesWritten := VInt (totalBytesWritten fh) ]}.

Definition Release (fh : FileHandle) : M (option error) :=
  InvalidateMetadataCache;;
  RemoveHandle (fhID fh);;
  activeHandles ← countActiveHandles;
  (if activeHandles =? 0 then
     err ← handle_Close;
     match err with
     | Some e =>
         logWith LError "Failed to close staging file" fh
           {[ Fld.Operation := VStr Oper.Close; Fld.Error := VErr e ]}
     | None => ret tt
     end;;
     store None;;
     logWith LInfo "Staging file is closed" fh (closeFields fh)
   else
     logWith LDebug "Staging file is not closed becuase it has other active handles "
       fh (closeFields fh));;
  logWith LInfo "Close file" fh (closeFields fh);;
  ret None.

(** The size of the copy buffer: [make([]byte, 65536)]. *)
Definition bufSize : nat := Z.to_nat 65536.

(** How the streaming loop of [FlushAttempt] ends: by [break], with the
    count written so far, or by returning an error. *)
Inductive LoopExit : Type :=
| Break (written : Z)
| Return (err : error).

(** The loop of [FlushAttempt]; [blen] is [len(b)]. *)
Fixpoint streamLoop (fuel : nat) (operation : string) (fh : FileHandle)
    (wr : HdfsWriter) (blen : nat) (written : Z) : M LoopExit :=
  match fuel with
  | O => fun _ => OutOfFuel
  | S fuel' =>
      '(bs, err) ← handle_Read blen;
      match err with
      | Some e =>
          (if decide (e = io_EOF) then ret tt
           else logWith LError "Failed to read from staging file" fh
                  {[ Fld.Operation := VStr operation; Fld.Error := VErr e ]});;
          ret (Break written)
      | None =>
          (* b = b[:nr] *)
          let blen := length bs in
          '(nw, err) ← writer_Write wr bs;
          match err with
          | Some e =>
              logWith LError "Failed to write to DFS" fh
                {[ Fld.Operation := VStr operation; Fld.Error := VErr e ]};;
              writer_Close wr;;
              ret (Return e)
          | None =>
              logWith LTrace "Written to DFS" fh
                {[ Fld.Operation := VStr operation; Fld.Bytes := VInt nw ]};;
              streamLoop fuel' operation fh wr blen (wrap64 (written + nw))
          end
      end
  end.

(** Fuel for the streaming loop: every round that does not leave the loop
    reads at least one byte of the staging file. *)
Definition streamFuel : M nat :=
  w ← get;
  ret (match handle (inode w) with
       | Some p => S (length (data p))
       | None => 1%nat
       end).

Definition FlushAttempt (operation : string) (fh : FileHandle) : M (option error) :=
  w ← get;
  r ← CreateFile (AbsolutePath (inode w)) (Mode (inode w)) true;
  match r with
  | inr e =>
      logWith LError "Error creating file in DFS" fh
        {[ Fld.Operation := VStr operation; Fld.Error := VErr e ]};;
      ret (Some e)
  | inl wr =>
      err ← handle_SeekToStart;
      match err with
      | Some e =>
          logWith LError "Unable to seek to the begenning of the temp file" fh
            {[ Fld.Operation := VStr operation; Fld.Error := VErr e ]};;
          ret (Some e)
      | None =>
          fuel ← streamFuel;
          x ← streamLoop fuel operation fh wr bufSize 0;
          match x with
          | Return e => ret (Some e)
          | Break written =>
              err ← writer_Close wr;
              match err with
              | Some e =>
                  logWith LError "Failed to close file in DFS" fh
                    {[ Fld.Operation := VStr operation; Fld.Error := VErr e ]};;
                  ret (Some e)
              | None =>
                  logWith LInfo "Uploaded to DFS" fh
                    {[ Fld.Operation := VStr operation; Fld.Bytes := VInt written ]};;
                  ret None
              end
          end
      end
  end.

(* ================================================================== *)
(** ** Retrying the upload *)

(** The state of one retried operation: the number of the attempt in
    flight. *)
Record Op : Type := mkOp { Attempt : nat }.

Section Flushing.

(** The classification of errors is declared outside this file; the handle
    is verified for every classification. *)
Variable IsSuccessOrNonRetriableError : option error -> bool.

(** Modelled from the spec: [RetryPolicy.StartOperation] starts with the
    first attempt in flight, and [shouldRetry(err)] "returns false if [err]
    is classified non-retriable or if [attempt >= maxAttempts]"
    (sections 4.B and 4.H); a granted retry is the next attempt. *)
Definition StartOperation : M Op := ret (mkOp 1).

(** Modelled from the spec: [shouldRetry(err)], see [StartOperation]. *)
Definition ShouldRetry (op : Op) (msg : string) (err : option error)
  : M (bool * Op) :=
  w ← get;
  if IsSuccessOrNonRetriableError err then ret (false, op)
  else if (MaxAttempts (retryPolicy w) <=? Attempt op)%nat then ret (false, op)
  else ret (true, mkOp (S (Attempt op))).

(** The [for] loop of [copyToDFS]. *)
Fixpoint copyLoop (fuel : nat) (operation : string) (fh : FileHandle) (op : Op)
  : M (option error) :=
  match fuel with
  | O => fun _ => OutOfFuel
  | S fuel' =>
      err ← FlushAttempt operation fh;
      if negb (bool_decide (err = Some io_EOF)) then ret err
      else if IsSuccessOrNonRetriableError err then ret err
      else
        '(retry, op') ← ShouldRetry op "Flush() %s" err;
        if negb retry then ret err
        else
          (* Reconnect and try again *)
          connector_Close;;
          logWith LWarn "Failed to copy file to DFS" fh
            {[ Fld.Operation := VStr operation ]};;
          copyLoop fuel' operation fh op'
  end.

(** Fuel for the retry loop: an attempt is retried only while its number
    is below the cap. *)
Definition copyFuel : M nat :=
  w ← get; ret (S (MaxAttempts (retryPolicy w))).

Definition copyToDFS (operation : string) (fh : FileHandle) : M (option error) :=
  if totalBytesWritten fh =? 0 then (* Nothing to do *) ret None
  else
    defer InvalidateMetadataCache
      (logWith LDebug "Uploading to DFS" fh
         {[ Fld.Operation := VStr Oper.Write;
            Fld.Bytes := VStr Fld.TotalBytesWritten ]};;
       op ← StartOperation;
       fuel ← copyFuel;
       copyLoop fuel operation fh op).

Definition Flush (fh : FileHandle) : M (option error) :=
  if dataChanged fh then
    logWith LInfo "Flush file" fh {[ Fld.Operation := VStr Oper.Flush ]};;
    copyToDFS Oper.Flush fh
  else ret None.

Definition Fsync (fh : FileHandle) : M (option error) :=
  if dataChanged fh then
    logWith LInfo "Fsync file" fh {[ Fld.Operation := VStr Oper.Fsync ]};;
    copyToDFS Oper.Fsync fh
  else ret None.

End Flushing.

(** Modelled from the spec: the classification of section 4.B, where
    transport errors and an unavailable remote are retriable and path errors,
    permission errors, file-exists and EOF are not; section 7 adds that
    staging-store errors are not retriable either. *)
Definition IsSuccessOrNonRetriableError_spec (err : option error) : bool :=
  match err with
  | None => true
  | Some ErrTransport | Some ErrRemoteUnavailable => false
  | Some _ => true
  end.

(** A classification under which the sentinel [io.EOF] is retriable as
    well. *)
Definition IsSuccessOrNonRetriableError_eof (err : option error) : bool :=
  match err with
  | None => true
  | Some io_EOF | Some ErrTransport | Some ErrRemoteUnavailable => false
  | Some _ => true
  end.

(* ================================================================== *)
(** ** Sample worlds *)

Definition bytes_abc : list byte := [x61; x62; x63].

Definition sampleProxy : FileProxy := mkProxy bytes_abc 0%nat ReadWrite true.

Definition sampleINode : FileINode :=
  mkINode "/dir/file" 420 (Some sampleProxy) {[ 7 ]}.

Definition sampleWorld (o : list Resp) : World :=
  mkWorld sampleINode ∅ true {[ "/dir/file" ]} (mkPolicy 3) o [] [].

(** A handle that has written the three bytes of [sampleProxy]. *)
Definition sampleHandle : FileHandle := mkHandle 2 0 3 7.

(** A handle that has written nothing. *)
Definition cleanHandle : FileHandle := mkHandle 0 0 0 7.

(** What an outcome returned, if it returned. *)
Definition result {A} (o : Outcome A) : option A :=
  match o with Returns a _ => Some a | _ => None end.

Definition final {A} (o : Outcome A) : option World :=
  match o with Returns _ w | Panics w => Some w | OutOfFuel => None end.

(* ================================================================== *)
(** ** Notions used to state the properties *)

(** [l'] is [l] with newer entries in front. *)
Definition extends {A} (l l' : list A) : Prop := exists t, l' = (t ++ l)%list.

(** What no operation of a handle other than [Release] changes: the retry
    policy, the path and the mode of the inode, its set of open handles, and
    that the staging reference is [nil] once it is; the trace only grows. *)
Record frame (w w' : World) : Prop := mkFrame {
  fr_policy : retryPolicy w' = retryPolicy w;
  fr_path : AbsolutePath (inode w') = AbsolutePath (inode w);
  fr_mode : Mode (inode w') = Mode (inode w);
  fr_handles : activeHandles (inode w') = activeHandles (inode w);
  fr_nil : handle (inode w) = None -> handle (inode w') = None;
  fr_trace : extends (trace w) (trace w')
}.

Definition framed {A} (m : M A) : Prop :=
  forall w,
    match m w with
    | Returns _ w' | Panics w' => frame w w'
    | OutOfFuel => True
    end.

(** The world without its log. *)
Definition eraseLogs (w : World) : World := set_logs [] w.

(** Two outcomes that differ in the log at most. *)
Definition agree {A} (o1 o2 : Outcome A) : Prop :=
  match o1, o2 with
  | Returns a1 w1, Returns a2 w2 => a1 = a2 /\ eraseLogs w1 = eraseLogs w2
  | Panics w1, Panics w2 => eraseLogs w1 = eraseLogs w2
  | OutOfFuel, OutOfFuel => True
  | _, _ => False
  end.

(** The oracle lets a call pass. *)
Definition passes (r : Resp) : bool :=
  match r with RespFail _ _ => false | _ => true end.

(** In the streaming loop the oracle is asked about a read, then about a
    write, and so on: [readsPass o] says that no read is made to fail. *)
Fixpoint readsPass (o : list Resp) : bool :=
  match o with
  | [] => true
  | r :: rest =>
      passes r && match rest with
                  | [] => true
                  | _ :: rest' => readsPass rest'
                  end
  end.

(** The remote file of the inode. *)
Definition remoteFile (w : World) : option (list byte) :=
  dfs w !! AbsolutePath (inode w).

(** The events added to the trace between [w] and [w'], newest first. *)
Definition newEvents (w w' : World) : list Event :=
  take (length (trace w') - length (trace w)) (trace w').

(** Retries remain for [op]. *)
Definition retriesRemain (op : Op) (w : World) : bool :=
  (Attempt op <? MaxAttempts (retryPolicy w))%nat.

(** The world after the connector has been closed for a retry. *)
Definition reconnecting (operation : string) (fh : FileHandle) (w : World) : World :=
  set_logs
    (mkLog LWarn "Failed to copy file to DFS"
       ({[ Fld.Operation := VStr operation ]}
        ∪ {[ Fld.FileHandleID := VInt (fhID fh);
             Fld.Path := VStr (AbsolutePath (inode w)) ]}) :: logs w)
    (set_connected false (set_trace (EvConnectorClose :: trace w) w)).

(** The world once the oracle has answered and the call [e] is on the
    trace. *)
Definition called (e : Event) (w : World) : World :=
  set_trace (e :: trace w) (set_oracle (tail (oracle w)) w).

(** The world with [p] as the staging proxy of the inode. *)
Definition withProxy (p : FileProxy) (w : World) : World :=
  set_inode (set_handle (Some p) (inode w)) w.

(** The bytes of the staging file from the cursor on. *)
Definition unread (p : FileProxy) : list byte := drop (cursor p) (data p).

(** The bytes a sequential read may still deliver, [0] without a proxy. *)
Definition remaining (w : World) : nat :=
  match handle (inode w) with
  | Some p => length (unread p)
  | None => 0%nat
  end.

(** The world after [InvalidateMetadataCache]. *)
Definition invalidated (w : World) : World :=
  set_attrCache (attrCache w ∖ {[AbsolutePath (inode w)]})
    (set_trace (EvInvalidateMetadataCache (AbsolutePath (inode w)) :: trace w) w).

(** The world with one more log entry of [fh]. *)
Definition logged (l : Level) (msg : string) (fh : FileHandle) (f : Fields)
    (w : World) : World :=
  set_logs (mkLog l msg
              (f ∪ {[ Fld.FileHandleID := VInt (fhID fh);
                      Fld.Path := VStr (AbsolutePath (inode w)) ]}) :: logs w) w.

(** The call that opens the remote writer of an attempt made in [w]. *)
Definition createCall (w : World) : Event :=
  EvCreateFile (AbsolutePath (inode w)) (Mode (inode w)) true.

(** An operation that returned without an error. *)
Definition succeeded {A} (err : A -> option error) (o : Outcome A) : Prop :=
  exists a w, o = Returns a w /\ err a = None.

(** An operation that panicked or returned an error. *)
Definition failed {A} (err : A -> option error) (o : Outcome A) : Prop :=
  (exists w, o = Panics w) \/ (exists a e w, o = Returns a w /\ err a = Some e).

(** A read request never asks for more than the sequential buffer holds. *)
Definition readSizes (bound : nat) (t : list Event) : Prop :=
  Forall (fun e => match e with EvRead n => n <= Z.of_nat bound | _ => True end) t.

(** Two open handles [7] and [8] on the sample inode. *)
Definition sharedWorld (o : list Resp) : World :=
  set_inode (set_activeHandles {[ 7; 8 ]} sampleINode) (sampleWorld o).

(** A fresh file: an empty read-only staging file and one open handle. *)
Definition freshWorld (o : list Resp) : World :=
  set_inode (set_handle (Some (mkProxy [] 0%nat ReadOnly true)) sampleINode) (sampleWorld o).

(** Two computations that, started in worlds that differ in the log at most,
    end in outcomes that differ in the log at most. *)
Definition similar {A} (m1 m2 : M A) : Prop :=
  forall w1 w2, eraseLogs w1 = eraseLogs w2 -> agree (m1 w1) (m2 w2).

(* ================================================================== *)
(** ** Notions used to state further properties *)

(** Every call of the oracle's list goes well. *)
Definition allPass (o : list Resp) : Prop := Forall (fun r => passes r = true) o.

(** Nothing has reached the remote file system between [w] and [w']: the
    remote namespace and the connector are as they were, and no call added
    to the trace is a remote one. *)
Definition quiet (w w' : World) : Prop :=
  dfs w' = dfs w /\ connected w' = connected w /\
  exists t, trace w' = (t ++ trace w)%list /\ Forall (fun e => isRemote e = false) t.

Definition quietly {A} (m : M A) : Prop :=
  forall w,
    match m w with
    | Returns _ w' | Panics w' => quiet w w'
    | OutOfFuel => True
    end.

(** The content of the inode's staging file, if it has one. *)
Definition staged (w : World) : option (list byte) := data <$> handle (inode w).

(** A computation that leaves the inode as it is up to the cursor of the
    staging proxy: same path, same mode, same handles, same staged bytes. *)
Definition keeps (w w' : World) : Prop :=
  AbsolutePath (inode w') = AbsolutePath (inode w) /\
  activeHandles (inode w') = activeHandles (inode w) /\
  staged w' = staged w /\
  mode <$> handle (inode w') = mode <$> handle (inode w) /\
  retryPolicy w' = retryPolicy w.

Definition keeping {A} (m : M A) : Prop :=
  forall w,
    match m w with
    | Returns _ w' | Panics w' => keeps w w'
    | OutOfFuel => True
    end.

(** The calls that close a remote writer. *)
Definition isWriterClose (e : Event) : bool :=
  match e with EvWriterClose _ => true | _ => false end.

(** The calls that open a remote writer. *)
Definition isCreate (e : Event) : bool :=
  match e with EvCreateFile _ _ _ => true | _ => false end.

(** The handles of [fhs] released one after the other. *)
Fixpoint releaseAll (fhs : list FileHandle) : M unit :=
  match fhs with
  | [] => ret tt
  | fh :: rest => Release fh;; releaseAll rest
  end.

(** The identities of a list of handles, as a set. *)
Definition idsOf (fhs : list FileHandle) : gset Z := list_to_set (fhID <$> fhs).

(** The content of the file as the handle sees it: the staged bytes, or,
    for a file that is not staged, the remote file. *)
Definition fileContent (w : World) (p : FileProxy) : option (list byte) :=
  if isStaged p then Some (data p) else remoteFile w.

(** The calls that change the remote file system or the connection to it:
    every remote call but the reads. *)
Definition isUpload (e : Event) : bool :=
  match e with
  | EvCreateFile _ _ _ | EvWriterWrite _ _ | EvWriterClose _ | EvConnectorClose => true
  | _ => false
  end.

(** A file opened for reading and not staged: the scratch file is empty and
    the remote file holds "abc". *)
Definition unstagedWorld (o : list Resp) : World :=
  set_dfs {[ "/dir/file" := bytes_abc ]}
    (set_inode (set_handle (Some (mkProxy [] 0%nat ReadOnly false)) sampleINode)
       (sampleWorld o)).

(** Between [w] and [w'] the remote file system has at most been read: the
    remote namespace is as it was, and no call added to the trace opens a
    remote writer, writes to it, closes it or drops the connection. *)
Definition readOnly (w w' : World) : Prop :=
  dfs w' = dfs w /\
  exists t, trace w' = (t ++ trace w)%list /\ Forall (fun e => isUpload e = false) t.

Definition readingOnly {A} (m : M A) : Prop :=
  forall w,
    match m w with
    | Returns _ w' | Panics w' => readOnly w w'
    | OutOfFuel => True
    end.

(** The calls of the streaming loop proper: a read of the staging file or
    a write to the remote writer. *)
Definition isStream (e : Event) : bool :=
  match e with EvRead _ | EvWriterWrite _ _ => true | _ => false end.

(** The call that drops the connection before a retry. *)
Definition isReconnect (e : Event) : bool :=
  match e with EvConnectorClose => true | _ => false end.

(** How many calls of a trace are of the kind [P]. *)
Definition tally (P : Event -> bool) (t : list Event) : nat :=
  length (List.filter P t).

(** The oracle's word on the second call made from [w]; in an attempt whose
    [CreateFile] went through, this is the seek. *)
Definition seekResp (w : World) : Resp :=
  nextResp (set_oracle (tail (oracle w)) w).

(** The remote namespace [d'] is [d], or [d] with the first bytes of [bs] as
    the file at [path]. *)
Definition uploaded (bs : list byte) (path : string)
    (d d' : gmap string (list byte)) : Prop :=
  d' = d \/ exists k, d' = <[path := take k bs]> d.

(** The world in which [copyToDFS] enters its loop: the upload has been
    announced in the log. *)
Definition uploading (fh : FileHandle) (w : World) : World :=
  logged LDebug "Uploading to DFS" fh
    {[ Fld.Operation := VStr Oper.Write; Fld.Bytes := VStr Fld.TotalBytesWritten ]} w.

(** The outcome of [copyToDFS] for an outcome of its loop: the deferred
    invalidation of the metadata cache has run. *)
Definition thenInvalidated (o : Outcome (option error)) : Outcome (option error) :=
  match o with
  | Returns err w' => Returns err (invalidated w')
  | Panics w' => Panics (invalidated w')
  | OutOfFuel => OutOfFuel
  end.

(** The sizes that the sequential reads of a trace asked for, oldest
    first. *)
Definition readsOf (t : list Event) : list Z :=
  omap (fun e => match e with EvRead n => Some n | _ => None end) (rev t).

(** The sizes of the chunks that a trace wrote to the remote writer, oldest
    first. *)
Definition chunksOf (t : list Event) : list Z :=
  omap (fun e => match e with
                 | EvWriterWrite _ bs => Some (Z.of_nat (length bs))
                 | _ => None
                 end) (rev t).

(* ================================================================== *)
(** ** Basic facts *)

Ltac munfold :=
  unfold logWith, logInfo, log, emit, store, modify, get, ask, deref, panic in *;
  unfold mbind, mret, M_bind, M_ret, bind, ret in *.

Lemma bind_Returns {A B} (m : M A) (k : A -> M B) w a w' :
  m w = Returns a w' -> (m ≫= k) w = k a w'.
Proof. intros H. unfold mbind, M_bind, bind. by rewrite H. Qed.

Lemma bind_Panics {A B} (m : M A) (k : A -> M B) w w' :
  m w = Panics w' -> (m ≫= k) w = Panics w'.
Proof. intros H. unfold mbind, M_bind, bind. by rewrite H. Qed.

Lemma bind_OutOfFuel {A B} (m : M A) (k : A -> M B) w :
  m w = OutOfFuel -> (m ≫= k) w = OutOfFuel.
Proof. intros H. unfold mbind, M_bind, bind. by rewrite H. Qed.

Lemma wrap64_id z : in_int64 z -> wrap64 z = z.
Proof.
  unfold in_int64, wrap64. intros H.
  rewrite Z.mod_small; lia.
Qed.

Lemma wrap64_add_l a b : wrap64 (wrap64 a + b) = wrap64 (a + b).
Proof.
  unfold wrap64.
  replace ((a + 2 ^ 63) mod 2 ^ 64 - 2 ^ 63 + b + 2 ^ 63)
    with ((a + 2 ^ 63) mod 2 ^ 64 + b) by lia.
  rewrite Zplus_mod_idemp_l. f_equal. f_equal. lia.
Qed.

(** *** Frames *)

Lemma extends_refl {A} (l : list A) : extends l l.
Proof. by exists []. Qed.

Lemma extends_trans {A} (l1 l2 l3 : list A) :
  extends l1 l2 -> extends l2 l3 -> extends l1 l3.
Proof. intros [t1 ->] [t2 ->]. exists (t2 ++ t1)%list. by rewrite app_assoc. Qed.

Lemma extends_cons {A} (x : A) (l : list A) : extends l (x :: l).
Proof. by exists [x]. Qed.

Lemma frame_refl w : frame w w.
Proof. split; auto using extends_refl. Qed.

Lemma frame_trans w1 w2 w3 : frame w1 w2 -> frame w2 w3 -> frame w1 w3.
Proof.
  intros [] []. split; try congruence; eauto using extends_trans.
Qed.

Lemma framed_ret {A} (a : A) : framed (mret a).
Proof. intros w. apply frame_refl. Qed.

Lemma framed_bind {A B} (m : M A) (k : A -> M B) :
  framed m -> (forall a, framed (k a)) -> framed (m ≫= k).
Proof.
  intros Hm Hk w. specialize (Hm w). unfold mbind, M_bind, bind.
  destruct (m w) as [a w'| |]; auto.
  specialize (Hk a w'). destruct (k a w'); eauto using frame_trans.
Qed.

Lemma framed_defer {A} (d : M unit) (m : M A) :
  framed d -> framed m -> framed (defer d m).
Proof.
  intros Hd Hm w. specialize (Hm w). unfold defer.
  destruct (m w) as [a w'|w'|]; auto.
  all: specialize (Hd w'); destruct (d w'); eauto using frame_trans.
Qed.

Ltac break_inner :=
  match goal with
  | |- context [match ?x with _ => _ end] =>
      lazymatch x with
      | context [match _ with _ => _ end] => fail
      | _ => destruct x eqn:?
      end
  end.

Ltac frame_step :=
  intros w; munfold; cbn;
  repeat (break_inner; cbn);
  try (split; cbn; auto using extends_refl, extends_cons; congruence).

Lemma framed_get : framed get.
Proof. frame_step. Qed.

Lemma framed_ask : framed ask.
Proof. frame_step. Qed.

Lemma framed_emit e : framed (emit e).
Proof. frame_step. Qed.

Lemma framed_log l msg f : framed (log l msg f).
Proof. frame_step. Qed.

Lemma framed_logWith l msg fh f : framed (logWith l msg fh f).
Proof. frame_step. Qed.

Lemma framed_handle_SeekToStart : framed handle_SeekToStart.
Proof. unfold handle_SeekToStart. frame_step. Qed.

Lemma framed_handle_Read len : framed (handle_Read len).
Proof. unfold handle_Read. frame_step. Qed.

Lemma framed_CreateFile path perm ov : framed (CreateFile path perm ov).
Proof. unfold CreateFile. frame_step. Qed.

Lemma framed_writer_Write wr bs : framed (writer_Write wr bs).
Proof. unfold writer_Write, appendTo. frame_step. Qed.

Lemma framed_writer_Close wr : framed (writer_Close wr).
Proof. unfold writer_Close. frame_step. Qed.

Lemma framed_connector_Close : framed connector_Close.
Proof. unfold connector_Close. frame_step. Qed.

Lemma framed_InvalidateMetadataCache : framed InvalidateMetadataCache.
Proof. unfold InvalidateMetadataCache. frame_step. Qed.

Lemma framed_streamFuel : framed streamFuel.
Proof. unfold streamFuel. frame_step. Qed.

Create HintDb framed.

#[local] Hint Resolve framed_ret framed_bind framed_defer framed_get framed_ask
  framed_emit framed_log framed_logWith framed_handle_SeekToStart
  framed_handle_Read framed_CreateFile framed_writer_Write framed_writer_Close
  framed_connector_Close framed_InvalidateMetadataCache framed_streamFuel : framed.

Ltac framed_auto :=
  repeat first
    [ progress auto with framed
    | apply framed_bind; [|intros ?]
    | match goal with
      | |- framed (match ?x with _ => _ end) => destruct x
      | |- framed (if ?x then _ else _) => destruct x
      | |- framed (let '(_, _) := ?x in _) => destruct x
      end ].

Lemma framed_streamLoop fuel operation fh wr blen written :
  framed (streamLoop fuel operation fh wr blen written).
Proof.
  revert blen written. induction fuel as [|fuel IH]; intros blen written.
  - intros w. exact I.
  - cbn [streamLoop]. framed_auto.
Qed.

Lemma framed_FlushAttempt operation fh : framed (FlushAttempt operation fh).
Proof.
  unfold FlushAttempt. pose proof framed_streamLoop. framed_auto.
Qed.

(** *** The collaborators, call by call *)

Lemma handle_Read_eq len w p :
  handle (inode w) = Some p ->
  handle_Read len w =
    Returns (proxy_Read (nextResp w) len p).1
            (withProxy (proxy_Read (nextResp w) len p).2 (called (EvRead (Z.of_nat len)) w)).
Proof.
  intros Hp. unfold handle_Read. munfold. rewrite Hp. cbn.
  by destruct (proxy_Read _ _ _) as [[bs err] p'].
Qed.

Lemma handle_nil_panics {A} (k : FileProxy -> M A) w :
  handle (inode w) = None -> (deref ≫= k) w = Panics w.
Proof. intros H. munfold. by rewrite H. Qed.

Lemma handle_SeekToStart_eq w p :
  handle (inode w) = Some p ->
  handle_SeekToStart w =
    Returns (proxy_SeekToStart (nextResp w) p).1
            (withProxy (proxy_SeekToStart (nextResp w) p).2 (called EvSeekToStart w)).
Proof.
  intros Hp. unfold handle_SeekToStart. munfold. rewrite Hp. cbn.
  by destruct (proxy_SeekToStart _ _) as [err p'].
Qed.

Lemma writer_Write_eq wr bs w :
  writer_Write wr bs w =
    let sent := match nextResp w with RespFail n _ => take n bs | _ => bs end in
    Returns (Z.of_nat (length sent),
             match nextResp w with RespFail _ e => Some e | _ => None end)
            (set_dfs (<[wpath wr := (default [] (dfs w !! wpath wr) ++ sent)%list]> (dfs w))
                     (called (EvWriterWrite (wpath wr) bs) w)).
Proof.
  unfold writer_Write, appendTo. munfold. cbn.
  by destruct (nextResp w).
Qed.

Lemma writer_Close_eq wr w :
  writer_Close wr w =
    Returns (match nextResp w with RespFail _ e => Some e | _ => None end)
            (called (EvWriterClose (wpath wr)) w).
Proof. reflexivity. Qed.

Lemma CreateFile_overwrite_eq path perm w :
  CreateFile path perm true w =
    match nextResp w with
    | RespFail _ e => Returns (inr e) (called (EvCreateFile path perm true) w)
    | _ => Returns (inl (mkWriter path))
             (set_connected true
                (set_dfs (<[path := []]> (dfs w)) (called (EvCreateFile path perm true) w)))
    end.
Proof.
  unfold CreateFile. munfold. cbn. by destruct (nextResp w).
Qed.

Lemma logWith_eq l msg fh f w :
  logWith l msg fh f w =
    Returns tt (set_logs (mkLog l msg
      (f ∪ {[ Fld.FileHandleID := VInt (fhID fh);
              Fld.Path := VStr (AbsolutePath (inode w)) ]}) :: logs w) w).
Proof. reflexivity. Qed.

(** *** Sequential reads of the staging file *)

Lemma take_length_take {A} (n : nat) (l : list A) :
  take n l = take (length (take n l)) l.
Proof.
  rewrite length_take. destruct (Nat.le_ge_cases n (length l)).
  - by rewrite Nat.min_l.
  - rewrite Nat.min_r by done. by rewrite !take_ge.
Qed.

Lemma proxy_Read_ok r len p bs p' :
  proxy_Read r len p = (bs, None, p') ->
  bs = take (length bs) (unread p) /\
  p' = mkProxy (data p) (cursor p + length bs) (mode p) (populated p) /\
  (length bs <= len)%nat /\
  ((1 <= len)%nat -> (1 <= length bs)%nat) /\
  (len = 0%nat -> p' = p).
Proof.
  unfold proxy_Read, unread. destruct r as [|n e|k]; try discriminate.
  - destruct len as [|len]; [intros [= <- <-]|].
    + repeat split; auto. all: destruct p; cbn; try f_equal; try lia.
    + destruct (take (S len) _) as [|b bs'] eqn:E; [discriminate|].
      intros [= <- <-]. repeat split; try (cbn; lia).
      * rewrite <- E. apply take_length_take.
      * rewrite <- E, length_take. lia.
  - destruct len as [|len]; [intros [= <- <-]|].
    + repeat split; auto. all: destruct p; cbn; try f_equal; try lia.
    + destruct (take (Nat.min (S len) (S k)) _) as [|b bs'] eqn:E; [discriminate|].
      intros [= <- <-]. repeat split; try (cbn; lia).
      * rewrite <- E. apply take_length_take.
      * rewrite <- E, length_take. lia.
Qed.

Lemma proxy_Read_stop r len p bs e p' :
  passes r = true ->
  proxy_Read r len p = (bs, Some e, p') ->
  e = io_EOF /\ bs = [] /\ p' = p /\ unread p = [].
Proof.
  unfold proxy_Read, unread. destruct r as [|n e'|k]; try discriminate; intros _.
  - destruct len as [|len]; [discriminate|].
    destruct (take (S len) _) as [|b bs'] eqn:E; [|discriminate].
    intros [= <- <- <-]. repeat split.
    destruct (drop _ _); [done|discriminate].
  - destruct len as [|len]; [discriminate|].
    destruct (take (Nat.min (S len) (S k)) _) as [|b bs'] eqn:E; [|discriminate].
    intros [= <- <- <-]. repeat split.
    destruct (drop _ _); [done|discriminate].
Qed.

(** *** The streaming loop *)

Lemma remaining_withProxy p w : remaining (withProxy p w) = length (unread p).
Proof. reflexivity. Qed.

Lemma length_unread_read p n :
  (1 <= n)%nat -> n = length (take n (unread p)) ->
  (length (unread (mkProxy (data p) (cursor p + n) (mode p) (populated p))) < length (unread p))%nat.
Proof.
  unfold unread. cbn. intros H1 Hn. rewrite length_take in Hn.
  rewrite !length_drop in *. lia.
Qed.

(** The streaming loop ends when it has more fuel than there are bytes left
    to read and its buffer is not empty. *)
Lemma streamLoop_total fuel operation fh wr :
  forall blen written w,
    (remaining w < fuel)%nat -> (1 <= blen)%nat ->
    streamLoop fuel operation fh wr blen written w <> OutOfFuel.
Proof.
  induction fuel as [|fuel IH]; intros blen written w Hfuel Hblen; [lia|].
  cbn [streamLoop].
  destruct (handle (inode w)) as [p|] eqn:Hp.
  2: { unfold handle_Read. rewrite (bind_Panics _ _ w w); [done|].
       by apply handle_nil_panics. }
  rewrite (bind_Returns _ _ _ _ _ (handle_Read_eq blen w p Hp)).
  destruct (proxy_Read (nextResp w) blen p) as [[bs [e|]] p'] eqn:E; cbn [fst snd].
  - destruct (decide (e = io_EOF)); done.
  - apply proxy_Read_ok in E as (Hbs & -> & _ & Hlen & _). specialize (Hlen Hblen).
    rewrite (bind_Returns _ _ _ _ _ (writer_Write_eq _ _ _)). cbv zeta.
    set (w1 := withProxy _ _).
    destruct (nextResp w1) as [|n e|k] eqn:Hr.
    1,3: rewrite (bind_Returns _ _ _ _ _ (logWith_eq _ _ _ _ _));
         apply IH; [|lia]; cbn;
         unfold remaining in Hfuel; rewrite Hp in Hfuel;
         pose proof (length_unread_read p (length bs) Hlen) as Hlt;
         rewrite <- Hbs in Hlt; specialize (Hlt eq_refl); cbn in Hlt; lia.
    done.
Qed.

Lemma writer_Write_pass wr bs w :
  passes (nextResp w) = true ->
  writer_Write wr bs w =
    Returns (Z.of_nat (length bs), None)
            (set_dfs (<[wpath wr := (default [] (dfs w !! wpath wr) ++ bs)%list]> (dfs w))
                     (called (EvWriterWrite (wpath wr) bs) w)).
Proof. rewrite writer_Write_eq. by destruct (nextResp w). Qed.

Lemma writer_Write_fail wr bs w :
  passes (nextResp w) = false ->
  exists n e w', writer_Write wr bs w = Returns (n, Some e) w'.
Proof. rewrite writer_Write_eq. destruct (nextResp w); [done| |done]. cbn. eauto. Qed.

Lemma unread_advance p n :
  (take n (unread p) ++ unread (mkProxy (data p) (cursor p + n) (mode p) (populated p)))%list = unread p.
Proof.
  unfold unread. cbn. rewrite <- drop_drop. apply take_drop.
Qed.

Lemma readsPass_cons r o :
  readsPass (r :: o) = true -> passes r = true /\ readsPass (tail o) = true.
Proof.
  cbn. intros [H1 H2]%andb_true_iff. split; [done|]. by destruct o.
Qed.

Lemma wrap64_in_int64 z : in_int64 (wrap64 z).
Proof.
  unfold in_int64, wrap64.
  pose proof (Z.mod_pos_bound (z + 2 ^ 63) (2 ^ 64)). lia.
Qed.

(** When no read is made to fail, a streaming loop that ends by [break] has
    appended everything that was left to read to the remote file and has
    counted it. *)
Lemma streamLoop_delivers fuel operation fh wr :
  forall blen written w p old written' w',
    handle (inode w) = Some p ->
    dfs w !! wpath wr = Some old ->
    readsPass (oracle w) = true ->
    streamLoop fuel operation fh wr blen written w = Returns (Break written') w' ->
    dfs w' !! wpath wr = Some (old ++ unread p)%list /\
    wrap64 written' = wrap64 (written + Z.of_nat (length (unread p))) /\
    (in_int64 written -> in_int64 written') /\
    exists p', handle (inode w') = Some p' /\ data p' = data p.
Proof.
  induction fuel as [|fuel IH]; intros blen written w p old written' w' Hp Hold Ho;
    [done|].
  assert (passes (nextResp w) = true /\ readsPass (tail (tail (oracle w))) = true)
    as [Hr Ho'].
  { unfold nextResp. destruct (oracle w) as [|r o]; [done|].
    by apply readsPass_cons in Ho. }
  cbn [streamLoop].
  rewrite (bind_Returns _ _ _ _ _ (handle_Read_eq blen w p Hp)).
  destruct (proxy_Read (nextResp w) blen p) as [[bs [e|]] p'] eqn:E; cbn [fst snd].
  - apply (proxy_Read_stop _ _ _ _ _ _ Hr) in E as (-> & -> & -> & Hnil).
    destruct (decide (io_EOF = io_EOF)); [|done].
    intros [= <- <-]. cbn. rewrite Hnil, app_nil_r. cbn. rewrite Z.add_0_r.
    split; [done|]. split; [done|]. split; [done|]. eauto.
  - apply proxy_Read_ok in E as (Hbs & -> & _ & _ & _).
    set (w1 := withProxy _ _).
    destruct (passes (nextResp w1)) eqn:Hr1.
    2: { destruct (writer_Write_fail wr bs w1 Hr1) as (n & e & w2 & Hw2).
         rewrite (bind_Returns _ _ _ _ _ Hw2). cbn. discriminate. }
    rewrite (bind_Returns _ _ _ _ _ (writer_Write_pass _ _ _ Hr1)).
    rewrite (bind_Returns _ _ _ _ _ (logWith_eq _ _ _ _ _)).
    intros Hloop.
    eapply IH in Hloop as (Hdfs & Hw & Hin & p'' & Hp'' & Hd);
      [|reflexivity|cbn; apply lookup_insert_eq|exact Ho'].
    rewrite Hold in Hdfs. change (default [] (Some old)) with old in Hdfs.
    rewrite <- app_assoc in Hdfs.
    pose proof (unread_advance p (length bs)) as Hadv. rewrite <- Hbs in Hadv.
    rewrite Hadv in Hdfs.
    split; [|split; [|split]].
    + exact Hdfs.
    + rewrite Hw, wrap64_add_l. f_equal. rewrite <- Hadv, length_app. lia.
    + intros _. apply Hin, wrap64_in_int64.
    + eauto.
Qed.

(** *** One attempt *)

Lemma CreateFile_pass path perm w :
  passes (nextResp w) = true ->
  CreateFile path perm true w =
    Returns (inl (mkWriter path))
      (set_connected true
         (set_dfs (<[path := []]> (dfs w)) (called (EvCreateFile path perm true) w))).
Proof. rewrite CreateFile_overwrite_eq. by destruct (nextResp w). Qed.

Lemma CreateFile_fail path perm w n e :
  nextResp w = RespFail n e ->
  CreateFile path perm true w = Returns (inr e) (called (EvCreateFile path perm true) w).
Proof. rewrite CreateFile_overwrite_eq. by intros ->. Qed.

Lemma passes_false r : passes r = false -> exists n e, r = RespFail n e.
Proof. destruct r; try done. eauto. Qed.

Lemma bufSize_pos : (1 <= bufSize)%nat.
Proof. unfold bufSize. lia. Qed.

(** An attempt whose [CreateFile] fails returns that error, having made no
    other call. *)
Lemma FlushAttempt_create_fails operation fh w n e :
  nextResp w = RespFail n e ->
  exists w',
    FlushAttempt operation fh w = Returns (Some e) w' /\
    trace w' = EvCreateFile (AbsolutePath (inode w)) (Mode (inode w)) true :: trace w /\
    dfs w' = dfs w /\ inode w' = inode w /\ connected w' = connected w.
Proof.
  intros Hr. unfold FlushAttempt.
  rewrite (bind_Returns get _ w w w eq_refl).
  rewrite (bind_Returns _ _ _ _ _ (CreateFile_fail _ _ _ _ _ Hr)).
  rewrite (bind_Returns _ _ _ _ _ (logWith_eq _ _ _ _ _)).
  eexists. split; [reflexivity|]. done.
Qed.

(** An attempt never runs out of fuel. *)
Lemma FlushAttempt_total operation fh w :
  FlushAttempt operation fh w <> OutOfFuel.
Proof.
  unfold FlushAttempt.
  rewrite (bind_Returns get _ w w w eq_refl).
  destruct (passes (nextResp w)) eqn:Hc.
  2: { apply passes_false in Hc as (n & e & Hc).
       rewrite (bind_Returns _ _ _ _ _ (CreateFile_fail _ _ _ _ _ Hc)).
       by rewrite (bind_Returns _ _ _ _ _ (logWith_eq _ _ _ _ _)). }
  rewrite (bind_Returns _ _ _ _ _ (CreateFile_pass _ _ _ Hc)).
  set (w1 := set_connected _ _).
  destruct (handle (inode w1)) as [p|] eqn:Hp.
  2: { unfold handle_SeekToStart. rewrite (bind_Panics _ _ w1 w1); [done|].
       by apply handle_nil_panics. }
  rewrite (bind_Returns _ _ _ _ _ (handle_SeekToStart_eq _ _ Hp)).
  destruct (proxy_SeekToStart (nextResp w1) p) as [[e|] p'] eqn:Hs; cbn [fst snd].
  { by rewrite (bind_Returns _ _ _ _ _ (logWith_eq _ _ _ _ _)). }
  set (w2 := withProxy _ _).
  rewrite (bind_Returns streamFuel _ w2 (S (length (data p'))) w2 eq_refl).
  pose proof (streamLoop_total (S (length (data p'))) operation fh
                (mkWriter (AbsolutePath (inode w))) bufSize 0 w2) as Ht.
  destruct (streamLoop _ _ _ _ _ _ w2) as [[written|e] w3|w3|] eqn:Hl.
  - rewrite (bind_Returns _ _ _ _ _ Hl).
    rewrite (bind_Returns _ _ _ _ _ (writer_Close_eq _ _)).
    destruct (nextResp w3); try done.
  - by rewrite (bind_Returns _ _ _ _ _ Hl).
  - by rewrite (bind_Panics _ _ _ _ Hl).
  - exfalso. apply Ht; [|apply bufSize_pos|done].
    subst w2. rewrite remaining_withProxy. unfold unread. rewrite length_drop. lia.
Qed.

(** A successful attempt during which no read of the staging file was made
    to fail has replaced the remote file by the content of the staging file,
    and the count it logs is the size of that content. *)
Lemma FlushAttempt_delivers operation fh w p w' :
  handle (inode w) = Some p ->
  readsPass (tail (tail (oracle w))) = true ->
  FlushAttempt operation fh w = Returns None w' ->
  remoteFile w' = Some (data p) /\
  (exists p', handle (inode w') = Some p' /\ data p' = data p) /\
  exists f rest,
    logs w' = mkLog LInfo "Uploaded to DFS" f :: rest /\
    f !! Fld.Bytes = Some (VInt (wrap64 (Z.of_nat (length (data p))))).
Proof.
  intros Hp Ho. unfold FlushAttempt.
  rewrite (bind_Returns get _ w w w eq_refl).
  destruct (passes (nextResp w)) eqn:Hc.
  2: { apply passes_false in Hc as (n & e & Hc).
       rewrite (bind_Returns _ _ _ _ _ (CreateFile_fail _ _ _ _ _ Hc)).
       by rewrite (bind_Returns _ _ _ _ _ (logWith_eq _ _ _ _ _)). }
  rewrite (bind_Returns _ _ _ _ _ (CreateFile_pass _ _ _ Hc)).
  set (w1 := set_connected _ _).
  assert (handle (inode w1) = Some p) as Hp1 by exact Hp.
  rewrite (bind_Returns _ _ _ _ _ (handle_SeekToStart_eq _ _ Hp1)).
  destruct (proxy_SeekToStart (nextResp w1) p) as [[e|] p'] eqn:Hs; cbn [fst snd].
  { by rewrite (bind_Returns _ _ _ _ _ (logWith_eq _ _ _ _ _)). }
  assert (p' = mkProxy (data p) 0%nat (mode p) (populated p)) as ->.
  { unfold proxy_SeekToStart in Hs. destruct (nextResp w1); congruence. }
  set (w2 := withProxy _ _).
  rewrite (bind_Returns streamFuel _ w2 (S (length (data p))) w2 eq_refl).
  pose proof (framed_streamLoop (S (length (data p))) operation fh
                (mkWriter (AbsolutePath (inode w))) bufSize 0 w2) as Hfr.
  destruct (streamLoop (S (length (data p))) operation fh
              (mkWriter (AbsolutePath (inode w))) bufSize 0 w2)
    as [[written|e] w3|w3|] eqn:Hl.
  - rewrite (bind_Returns _ _ _ _ _ Hl).
    rewrite (bind_Returns _ _ _ _ _ (writer_Close_eq _ _)).
    eapply streamLoop_delivers in Hl as (Hdfs & Hw & Hin & p3 & Hp3 & Hd);
      [|reflexivity|cbn; apply lookup_insert_eq|exact Ho].
    assert (in_int64 written) as Hrange by (apply Hin; unfold in_int64; lia).
    rewrite (wrap64_id _ Hrange) in Hw. cbn in Hw, Hdfs, Hd.
    destruct Hfr as [_ Hpath _ _ _ _]. cbn in Hpath.
    assert (forall w4 : World, inode w4 = inode w3 -> dfs w4 = dfs w3 ->
              remoteFile w4 = Some (data p)) as Hremote.
    { intros w4 Hi Hd4. unfold remoteFile. by rewrite Hi, Hd4, Hpath. }
    destruct (nextResp w3) eqn:Hr3.
    2: { by rewrite (bind_Returns _ _ _ _ _ (logWith_eq _ _ _ _ _)). }
    all: rewrite (bind_Returns _ _ _ _ _ (logWith_eq _ _ _ _ _)).
    all: intros [= <-]; split; [by apply Hremote|]; split; [by eauto|].
    all: do 2 eexists; split; [reflexivity|]; by rewrite Hw.
  - by rewrite (bind_Returns _ _ _ _ _ Hl).
  - by rewrite (bind_Panics _ _ _ _ Hl).
  - by rewrite (bind_OutOfFuel _ _ _ Hl).
Qed.

(** *** The retry loop *)

Lemma ShouldRetry_eq cls op msg err w :
  ShouldRetry cls op msg err w =
    Returns (if cls err then (false, op)
             else if retriesRemain op w then (true, mkOp (S (Attempt op)))
                  else (false, op)) w.
Proof.
  unfold ShouldRetry, retriesRemain. munfold.
  destruct (cls err); [done|].
  destruct (Nat.leb_spec (MaxAttempts (retryPolicy w)) (Attempt op)) as [H|H].
  - by rewrite (proj2 (Nat.ltb_ge _ _) H).
  - by rewrite (proj2 (Nat.ltb_lt _ _) H).
Qed.

Lemma reconnect_eq operation fh w :
  (connector_Close ≫= λ _, logWith LWarn "Failed to copy file to DFS" fh
                             {[ Fld.Operation := VStr operation ]}) w =
  Returns tt (reconnecting operation fh w).
Proof. reflexivity. Qed.

(** One round of the loop of [copyToDFS], by what the attempt returned. *)
Lemma copyLoop_S cls fuel operation fh op w err w1 :
  FlushAttempt operation fh w = Returns err w1 ->
  copyLoop cls (S fuel) operation fh op w =
    if bool_decide (err = Some io_EOF) && negb (cls err) && retriesRemain op w1
    then copyLoop cls fuel operation fh (mkOp (S (Attempt op)))
           (reconnecting operation fh w1)
    else Returns err w1.
Proof.
  intros Ha. cbn [copyLoop]. rewrite (bind_Returns _ _ _ _ _ Ha).
  destruct (bool_decide (err = Some io_EOF)); cbn [negb andb]; [|done].
  destruct (cls err) eqn:Hcls; cbn [negb andb]; [done|].
  rewrite (bind_Returns _ _ _ _ _ (ShouldRetry_eq _ _ _ _ _)). rewrite Hcls.
  destruct (retriesRemain op w1); [|done].
  cbn [negb]. reflexivity.
Qed.

Lemma copyLoop_attempt_panics cls fuel operation fh op w w1 :
  FlushAttempt operation fh w = Panics w1 ->
  copyLoop cls (S fuel) operation fh op w = Panics w1.
Proof. intros Ha. cbn [copyLoop]. by rewrite (bind_Panics _ _ _ _ Ha). Qed.

Lemma framed_copyLoop cls fuel operation fh :
  forall op, framed (copyLoop cls fuel operation fh op).
Proof.
  induction fuel as [|fuel IH]; intros op; [by intros w|].
  intros w. pose proof (framed_FlushAttempt operation fh w) as Hfa.
  destruct (FlushAttempt operation fh w) as [err w1|w1|] eqn:Ha.
  - rewrite (copyLoop_S _ _ _ _ _ _ _ _ Ha).
    destruct (_ && _); [|done].
    specialize (IH (mkOp (S (Attempt op))) (reconnecting operation fh w1)).
    assert (frame w1 (reconnecting operation fh w1)) as Hr.
    { split; try done. apply extends_cons. }
    destruct (copyLoop _ _ _ _ _ _); eauto using frame_trans.
  - by rewrite (copyLoop_attempt_panics _ _ _ _ _ _ _ Ha).
  - by destruct (FlushAttempt_total operation fh w).
Qed.

(** The loop ends: every retry uses up one of the attempts the policy
    allows. *)
Lemma copyLoop_total cls fuel operation fh :
  forall op w,
    (MaxAttempts (retryPolicy w) - Attempt op < fuel)%nat ->
    copyLoop cls fuel operation fh op w <> OutOfFuel.
Proof.
  induction fuel as [|fuel IH]; intros op w Hfuel; [lia|].
  pose proof (framed_FlushAttempt operation fh w) as Hfa.
  destruct (FlushAttempt operation fh w) as [err w1|w1|] eqn:Ha.
  - rewrite (copyLoop_S _ _ _ _ _ _ _ _ Ha).
    destruct (retriesRemain op w1) eqn:Hrem;
      [|by rewrite andb_false_r].
    destruct (_ && _); [|done].
    apply IH. cbn. unfold retriesRemain in Hrem. apply Nat.ltb_lt in Hrem.
    destruct Hfa as [Hpol _ _ _ _ _]. rewrite Hpol in *. lia.
  - by rewrite (copyLoop_attempt_panics _ _ _ _ _ _ _ Ha).
  - by destruct (FlushAttempt_total operation fh w).
Qed.

(** What the loop returns is what its last attempt returned, in the world
    that attempt left. *)
Lemma copyLoop_returns_last_attempt cls fuel operation fh :
  forall op w err w',
    copyLoop cls fuel operation fh op w = Returns err w' ->
    exists w0, FlushAttempt operation fh w0 = Returns err w'.
Proof.
  induction fuel as [|fuel IH]; intros op w err w' Hl; [done|].
  destruct (FlushAttempt operation fh w) as [err1 w1|w1|] eqn:Ha.
  - rewrite (copyLoop_S _ _ _ _ _ _ _ _ Ha) in Hl.
    destruct (_ && _); [by eapply IH|].
    injection Hl as <- <-. eauto.
  - by rewrite (copyLoop_attempt_panics _ _ _ _ _ _ _ Ha) in Hl.
  - by destruct (FlushAttempt_total operation fh w).
Qed.

(** *** [copyToDFS], [Flush] and [Fsync] *)

Lemma copyToDFS_nothing cls operation fh w :
  totalBytesWritten fh = 0 -> copyToDFS cls operation fh w = Returns None w.
Proof. intros H. unfold copyToDFS. by rewrite H. Qed.

Lemma copyToDFS_eq cls operation fh w :
  totalBytesWritten fh <> 0 ->
  copyToDFS cls operation fh w =
    match copyLoop cls (S (MaxAttempts (retryPolicy w))) operation fh (mkOp 1)
            (logged LDebug "Uploading to DFS" fh
               {[ Fld.Operation := VStr Oper.Write;
                  Fld.Bytes := VStr Fld.TotalBytesWritten ]} w) with
    | Returns err w' => Returns err (invalidated w')
    | Panics w' => Panics (invalidated w')
    | OutOfFuel => OutOfFuel
    end.
Proof.
  intros H. unfold copyToDFS. apply Z.eqb_neq in H. rewrite H.
  reflexivity.
Qed.

Lemma Flush_eq cls fh w :
  Flush cls fh w =
    if 0 <? totalBytesWritten fh
    then copyToDFS cls Oper.Flush fh
           (logged LInfo "Flush file" fh {[ Fld.Operation := VStr Oper.Flush ]} w)
    else Returns None w.
Proof. unfold Flush, dataChanged. by destruct (0 <? _). Qed.

Lemma Fsync_eq cls fh w :
  Fsync cls fh w =
    if 0 <? totalBytesWritten fh
    then copyToDFS cls Oper.Fsync fh
           (logged LInfo "Fsync file" fh {[ Fld.Operation := VStr Oper.Fsync ]} w)
    else Returns None w.
Proof. unfold Fsync, dataChanged. by destruct (0 <? _). Qed.

(** Every attempt starts by opening the remote writer. *)
Lemma FlushAttempt_first_call operation fh w :
  match FlushAttempt operation fh w with
  | Returns _ w' | Panics w' => exists t, trace w' = (t ++ createCall w :: trace w)%list
  | OutOfFuel => False
  end.
Proof.
  pose proof (FlushAttempt_total operation fh w) as Ht.
  unfold FlushAttempt in *.
  rewrite (bind_Returns get _ w w w eq_refl) in *.
  destruct (passes (nextResp w)) eqn:Hc.
  2: { apply passes_false in Hc as (n & e & Hc).
       rewrite (bind_Returns _ _ _ _ _ (CreateFile_fail _ _ _ _ _ Hc)).
       rewrite (bind_Returns _ _ _ _ _ (logWith_eq _ _ _ _ _)).
       by exists []. }
  rewrite (bind_Returns _ _ _ _ _ (CreateFile_pass _ _ _ Hc)) in *.
  set (w1 := set_connected _ _) in *.
  match goal with
  | |- match ?m w1 with _ => _ end =>
      assert (framed m) as Hfr by (pose proof framed_streamLoop; framed_auto);
      specialize (Hfr w1); destruct (m w1) as [a w'|w'|]
  end; [| |done].
  all: destruct Hfr as [_ _ _ _ _ [t Htr]]; exists t; exact Htr.
Qed.

Lemma copyLoop_first_call cls fuel operation fh op w :
  match copyLoop cls (S fuel) operation fh op w with
  | Returns _ w' | Panics w' => exists t, trace w' = (t ++ createCall w :: trace w)%list
  | OutOfFuel => True
  end.
Proof.
  pose proof (FlushAttempt_first_call operation fh w) as Hfa.
  destruct (FlushAttempt operation fh w) as [err w1|w1|] eqn:Ha; [| |done].
  - rewrite (copyLoop_S _ _ _ _ _ _ _ _ Ha).
    destruct (_ && _); [|done].
    pose proof (framed_copyLoop cls fuel operation fh (mkOp (S (Attempt op)))
                  (reconnecting operation fh w1)) as Hfr.
    destruct (copyLoop _ _ _ _ _ _) as [a w'|w'|]; [| |done].
    all: destruct Hfr as [_ _ _ _ _ [t Htr]]; destruct Hfa as [t1 Ht1];
      exists (t ++ EvConnectorClose :: t1)%list; rewrite Htr; cbn; rewrite Ht1;
      by rewrite <- app_assoc.
  - by rewrite (copyLoop_attempt_panics _ _ _ _ _ _ _ Ha).
Qed.

(** With bytes written, [copyToDFS] ends and has opened a remote writer. *)
Lemma copyToDFS_contacts_remote cls operation fh w :
  totalBytesWritten fh <> 0 ->
  exists w' t,
    final (copyToDFS cls operation fh w) = Some w' /\
    trace w' = (t ++ createCall w :: trace w)%list.
Proof.
  intros H. rewrite (copyToDFS_eq _ _ _ _ H).
  set (w0 := logged _ _ _ _ w).
  pose proof (copyLoop_first_call cls (MaxAttempts (retryPolicy w)) operation fh
                (mkOp 1) w0) as Hfc.
  pose proof (copyLoop_total cls (S (MaxAttempts (retryPolicy w))) operation fh
                (mkOp 1) w0) as Htot.
  destruct (copyLoop _ _ _ _ _ _) as [a w'|w'|].
  3: { exfalso. apply Htot; [cbn; lia|done]. }
  all: destruct Hfc as [t Htr]; exists (invalidated w'),
         (EvInvalidateMetadataCache (AbsolutePath (inode w')) :: t);
       split; [done|]; cbn; by rewrite Htr.
Qed.

(** With a classification under which [io.EOF] is retriable, an attempt whose
    [CreateFile] fails with [io.EOF] is followed by a [Close] of the
    connector and a second, whole attempt. *)
Example copyToDFS_retries_after_EOF :
  let o := copyToDFS IsSuccessOrNonRetriableError_eof Oper.Flush sampleHandle
             (sampleWorld [RespFail 0 io_EOF]) in
  result o = Some None /\
  remoteFile <$> final o = Some (Some bytes_abc) /\
  (fun w => filter (fun e => bool_decide (isRemote e = true)) (rev (trace w))) <$> final o
    = Some [EvCreateFile "/dir/file" 420 true; EvConnectorClose;
            EvCreateFile "/dir/file" 420 true;
            EvWriterWrite "/dir/file" bytes_abc; EvWriterClose "/dir/file"].
Proof. vm_compute. repeat split; reflexivity. Qed.

(** *** Computations that differ in what they log *)

Lemma eraseLogs_fields w1 w2 :
  eraseLogs w1 = eraseLogs w2 ->
  inode w1 = inode w2 /\ retryPolicy w1 = retryPolicy w2.
Proof.
  intros H. split.
  - apply (f_equal inode) in H. exact H.
  - apply (f_equal retryPolicy) in H. exact H.
Qed.

Lemma agree_refl {A} (o : Outcome A) : agree o o.
Proof. destruct o; cbn; auto. Qed.

Lemma similar_ret {A} (a : A) : similar (mret a) (mret a).
Proof. intros w1 w2 H. cbn. auto. Qed.

Lemma similar_bind {A B} (m1 m2 : M A) (k1 k2 : A -> M B) :
  similar m1 m2 -> (forall a, similar (k1 a) (k2 a)) ->
  similar (m1 ≫= k1) (m2 ≫= k2).
Proof.
  intros Hm Hk w1 w2 H. specialize (Hm w1 w2 H).
  unfold mbind, M_bind, bind.
  destruct (m1 w1) as [a1 w1'|w1'|], (m2 w2) as [a2 w2'|w2'|]; cbn in Hm; try done.
  destruct Hm as [<- Hm]. by apply Hk.
Qed.

Lemma similar_get_bind {A} (k1 k2 : World -> M A) :
  (forall w1 w2, eraseLogs w1 = eraseLogs w2 -> similar (k1 w1) (k2 w2)) ->
  similar (get ≫= k1) (get ≫= k2).
Proof. intros Hk w1 w2 H. by apply Hk. Qed.

Lemma similar_defer {A} (d1 d2 : M unit) (m1 m2 : M A) :
  similar d1 d2 -> similar m1 m2 -> similar (defer d1 m1) (defer d2 m2).
Proof.
  intros Hd Hm w1 w2 H. specialize (Hm w1 w2 H). unfold defer.
  destruct (m1 w1) as [a1 w1'|w1'|], (m2 w2) as [a2 w2'|w2'|]; cbn in Hm; try done.
  - destruct Hm as [<- Hm]. specialize (Hd w1' w2' Hm).
    destruct (d1 w1'), (d2 w2'); cbn in Hd; try done. by destruct Hd.
  - specialize (Hd w1' w2' Hm).
    destruct (d1 w1'), (d2 w2'); cbn in Hd; try done. by destruct Hd.
Qed.

Ltac similar_prim :=
  intros [wi1 wd1 wc1 wa1 wr1 wo1 wt1 wl1] [wi2 wd2 wc2 wa2 wr2 wo2 wt2 wl2] H;
  injection H as -> -> -> -> -> -> ->;
  unfold agree; munfold; unfold nextResp; cbn; repeat (break_inner; cbn); try done.

Lemma similar_logWith l1 msg1 fh1 f1 l2 msg2 fh2 f2 :
  similar (logWith l1 msg1 fh1 f1) (logWith l2 msg2 fh2 f2).
Proof. similar_prim. Qed.

Lemma similar_ask : similar ask ask.
Proof. similar_prim. Qed.

Lemma similar_handle_SeekToStart : similar handle_SeekToStart handle_SeekToStart.
Proof. unfold handle_SeekToStart. similar_prim. Qed.

Lemma similar_handle_Read len : similar (handle_Read len) (handle_Read len).
Proof. unfold handle_Read. similar_prim. Qed.

Lemma similar_CreateFile path perm ov :
  similar (CreateFile path perm ov) (CreateFile path perm ov).
Proof. unfold CreateFile. similar_prim. Qed.

Lemma similar_writer_Write wr bs : similar (writer_Write wr bs) (writer_Write wr bs).
Proof. unfold writer_Write, appendTo. similar_prim. Qed.

Lemma similar_writer_Close wr : similar (writer_Close wr) (writer_Close wr).
Proof. unfold writer_Close. similar_prim. Qed.

Lemma similar_connector_Close : similar connector_Close connector_Close.
Proof. unfold connector_Close. similar_prim. Qed.

Lemma similar_InvalidateMetadataCache :
  similar InvalidateMetadataCache InvalidateMetadataCache.
Proof. unfold InvalidateMetadataCache. similar_prim. Qed.

Lemma similar_streamFuel : similar streamFuel streamFuel.
Proof. unfold streamFuel. similar_prim. Qed.

Lemma similar_copyFuel : similar copyFuel copyFuel.
Proof. unfold copyFuel. similar_prim. Qed.

Lemma similar_StartOperation : similar StartOperation StartOperation.
Proof. unfold StartOperation. similar_prim. Qed.

Lemma similar_ShouldRetry cls op msg1 msg2 err :
  similar (ShouldRetry cls op msg1 err) (ShouldRetry cls op msg2 err).
Proof. unfold ShouldRetry. similar_prim. Qed.

Create HintDb similar.

#[local] Hint Resolve similar_ret similar_logWith similar_ask
  similar_handle_SeekToStart similar_handle_Read similar_CreateFile
  similar_writer_Write similar_writer_Close similar_connector_Close
  similar_InvalidateMetadataCache similar_streamFuel similar_copyFuel
  similar_StartOperation similar_ShouldRetry : similar.

Ltac similar_auto :=
  repeat first
    [ progress auto with similar
    | apply similar_bind; [|intros ?]
    | apply similar_defer
    | match goal with
      | |- similar (match ?x with _ => _ end) (match ?x with _ => _ end) => destruct x
      | |- similar (if ?x then _ else _) (if ?x then _ else _) => destruct x
      end ].

Lemma similar_streamLoop fuel op1 op2 fh wr :
  forall blen written,
    similar (streamLoop fuel op1 fh wr blen written)
            (streamLoop fuel op2 fh wr blen written).
Proof.
  induction fuel as [|fuel IH]; intros blen written.
  - by intros w1 w2 _.
  - cbn [streamLoop]. similar_auto.
Qed.

Lemma similar_FlushAttempt op1 op2 fh :
  similar (FlushAttempt op1 fh) (FlushAttempt op2 fh).
Proof.
  unfold FlushAttempt. apply similar_get_bind. intros w1 w2 Hw.
  apply eraseLogs_fields in Hw as [-> _].
  pose proof similar_streamLoop. similar_auto.
Qed.

Lemma similar_copyLoop cls fuel op1 op2 fh :
  forall op, similar (copyLoop cls fuel op1 fh op) (copyLoop cls fuel op2 fh op).
Proof.
  induction fuel as [|fuel IH]; intros op.
  - by intros w1 w2 _.
  - cbn [copyLoop]. pose proof similar_FlushAttempt. similar_auto.
Qed.

Lemma similar_copyToDFS cls op1 op2 fh :
  similar (copyToDFS cls op1 fh) (copyToDFS cls op2 fh).
Proof.
  unfold copyToDFS. pose proof similar_copyLoop. similar_auto.
Qed.

Lemma similar_Flush_Fsync cls fh : similar (Flush cls fh) (Fsync cls fh).
Proof.
  unfold Flush, Fsync. pose proof similar_copyToDFS. similar_auto.
Qed.

(** *** [Release] *)

(** [Release] in a world whose inode has a staging proxy, by the number of
    handles left. *)
Lemma Release_eq fh w p :
  handle (inode w) = Some p ->
  exists w',
    Release fh w = Returns None w' /\
    activeHandles (inode w') = activeHandles (inode w) ∖ {[ fhID fh ]} /\
    attrCache w' = attrCache w ∖ {[ AbsolutePath (inode w) ]} /\
    handle (inode w') =
      (if decide (size (activeHandles (inode w) ∖ {[ fhID fh ]}) = 0%nat)
       then None else Some p) /\
    trace w' =
      ((if decide (size (activeHandles (inode w) ∖ {[ fhID fh ]}) = 0%nat)
        then [EvProxyClose] else [])
         ++ EvInvalidateMetadataCache (AbsolutePath (inode w)) :: trace w)%list.
Proof.
  intros Hp. unfold Release, InvalidateMetadataCache, RemoveHandle,
    countActiveHandles, handle_Close.
  munfold. cbn.
  destruct (decide (size (activeHandles (inode w) ∖ {[ fhID fh ]}) = 0%nat)) as [Hz|Hz].
  - rewrite Hz. change (Z.of_nat 0 =? 0) with true. cbn. rewrite Hp. cbn.
    destruct (nextResp _); cbn; eexists; (split; [reflexivity|]); cbn; done.
  - destruct (Z.eqb_spec (Z.of_nat (size (activeHandles (inode w) ∖ {[ fhID fh ]}))) 0)
      as [E|E]; [lia|].
    cbn. eexists; (split; [reflexivity|]); cbn; done.
Qed.

(** *** A handle whose inode has lost its staging proxy *)

Lemma Read_nil fh req resp w :
  handle (inode w) = None -> Read fh req resp w = Panics w.
Proof.
  intros H. unfold Read. destruct (_ || _); [done|].
  unfold handle_ReadAt. munfold. by rewrite H.
Qed.

Lemma Write_nil fh req w :
  handle (inode w) = None -> Write fh req w = Panics w.
Proof.
  intros H. unfold Write, upgradeHandleForWriting. munfold. by rewrite H.
Qed.

Lemma Truncate_nil fh size w :
  handle (inode w) = None -> Truncate fh size w = Panics w.
Proof.
  intros H. unfold Truncate, handle_Truncate. munfold. by rewrite H.
Qed.

Lemma FlushAttempt_nil operation fh w :
  handle (inode w) = None ->
  (exists e w1, FlushAttempt operation fh w = Returns (Some e) w1) \/
  (exists w1, FlushAttempt operation fh w = Panics w1).
Proof.
  intros H. unfold FlushAttempt.
  rewrite (bind_Returns get _ w w w eq_refl).
  destruct (passes (nextResp w)) eqn:Hc.
  - right. rewrite (bind_Returns _ _ _ _ _ (CreateFile_pass _ _ _ Hc)).
    eexists. unfold handle_SeekToStart. apply bind_Panics.
    by apply handle_nil_panics.
  - left. apply passes_false in Hc as (n & e & Hc).
    rewrite (bind_Returns _ _ _ _ _ (CreateFile_fail _ _ _ _ _ Hc)).
    rewrite (bind_Returns _ _ _ _ _ (logWith_eq _ _ _ _ _)). eauto.
Qed.

Lemma copyLoop_nil cls fuel operation fh :
  forall op w,
    handle (inode w) = None ->
    (MaxAttempts (retryPolicy w) - Attempt op < fuel)%nat ->
    failed id (copyLoop cls fuel operation fh op w).
Proof.
  induction fuel as [|fuel IH]; intros op w Hnil Hfuel; [lia|].
  pose proof (framed_FlushAttempt operation fh w) as Hfa.
  destruct (FlushAttempt_nil operation fh w Hnil) as [(e & w1 & Ha)|(w1 & Ha)].
  - rewrite Ha in Hfa. destruct Hfa as [Hpol _ _ _ Hn _].
    rewrite (copyLoop_S _ _ _ _ _ _ _ _ Ha).
    destruct (retriesRemain op w1) eqn:Hrem.
    2: { rewrite andb_false_r. right. by exists (Some e), e, w1. }
    destruct (_ && _).
    + apply IH; [by apply Hn|]. cbn. unfold retriesRemain in Hrem.
      apply Nat.ltb_lt in Hrem. rewrite Hpol in *. lia.
    + right. by exists (Some e), e, w1.
  - rewrite (copyLoop_attempt_panics _ _ _ _ _ _ _ Ha). left. eauto.
Qed.

Lemma copyToDFS_nil cls operation fh w :
  totalBytesWritten fh <> 0 ->
  handle (inode w) = None ->
  failed id (copyToDFS cls operation fh w).
Proof.
  intros Hw Hnil. rewrite (copyToDFS_eq _ _ _ _ Hw).
  set (w0 := logged _ _ _ _ w).
  destruct (copyLoop_nil cls (S (MaxAttempts (retryPolicy w))) operation fh (mkOp 1) w0)
    as [(w1 & ->)|(a & e & w1 & -> & He)]; [done|cbn; lia| |].
  - left. eauto.
  - right. by exists a, e, (invalidated w1).
Qed.

(** *** The count of bytes written *)

Lemma proxy_WriteAt_count r bs off p :
  0 <= (proxy_WriteAt r bs off p).1.1 <= Z.of_nat (length bs).
Proof.
  unfold proxy_WriteAt.
  destruct r as [|n e|k]; destruct (off <? 0); try destruct (mode p); cbn;
    try rewrite length_take; lia.
Qed.

(** [Write] adds the count of the staging file's [WriteAt], which is never
    negative, to the handle's count: short of an overflow of [int64] the
    count stays non-negative. *)
Lemma Write_counts_up fh req w fh' resp err w' :
  Write fh req w = Returns (fh', resp, err) w' ->
  0 <= wSize resp <= Z.of_nat (length (wData req)) /\
  totalBytesWritten fh' = wrap64 (totalBytesWritten fh + wSize resp) /\
  (0 <= totalBytesWritten fh ->
   totalBytesWritten fh + Z.of_nat (length (wData req)) < 2 ^ 63 ->
   0 <= totalBytesWritten fh').
Proof.
  unfold Write.
  destruct (upgradeHandleForWriting w) as [[] w1|w1|] eqn:Hu.
  2,3: unfold mbind, M_bind, bind; rewrite Hu; discriminate.
  rewrite (bind_Returns _ _ _ _ _ Hu).
  unfold handle_WriteAt. munfold.
  destruct (handle (inode w1)) as [p|]; [|discriminate]. cbn.
  pose proof (proxy_WriteAt_count (nextResp w1) (wData req) (wOffset req) p) as Hc.
  destruct (proxy_WriteAt (nextResp w1) (wData req) (wOffset req) p)
    as [[nw [e|]] p'] eqn:E; cbn in *.
  all: intros [= <- <- <- <-]; cbn.
  all: split; [lia|]; split; [done|]; intros H0 Hlt; rewrite wrap64_id;
    unfold in_int64; lia.
Qed.

(** *** The sizes of the sequential reads *)

Lemma readSizes_mono n m t : (n <= m)%nat -> readSizes n t -> readSizes m t.
Proof.
  intros Hnm H. unfold readSizes in *. eapply Forall_impl; [exact H|].
  intros [] He; try done. cbn in *. lia.
Qed.

(** No read of the streaming loop asks for more than the buffer it started
    with. *)
Lemma streamLoop_readSizes fuel operation fh wr :
  forall blen written w,
    match streamLoop fuel operation fh wr blen written w with
    | Returns _ w' | Panics w' =>
        exists t, trace w' = (t ++ trace w)%list /\ readSizes blen t
    | OutOfFuel => True
    end.
Proof.
  induction fuel as [|fuel IH]; intros blen written w; [done|].
  cbn [streamLoop].
  destruct (handle (inode w)) as [p|] eqn:Hp.
  2: { unfold handle_Read. rewrite (bind_Panics _ _ w w); [|by apply handle_nil_panics].
       exists []. split; [done|]. unfold readSizes. constructor. }
  rewrite (bind_Returns _ _ _ _ _ (handle_Read_eq blen w p Hp)).
  destruct (proxy_Read (nextResp w) blen p) as [[bs [e|]] p'] eqn:E; cbn [fst snd].
  - destruct (decide (e = io_EOF));
      [|rewrite (bind_Returns _ _ _ _ _ (logWith_eq _ _ _ _ _))];
      (exists [EvRead (Z.of_nat blen)]; split; [done|by (unfold readSizes; repeat constructor)]).
  - apply proxy_Read_ok in E as (_ & -> & Hle & _ & _).
    set (w1 := withProxy _ _).
    destruct (passes (nextResp w1)) eqn:Hr1.
    + rewrite (bind_Returns _ _ _ _ _ (writer_Write_pass _ _ _ Hr1)).
      rewrite (bind_Returns _ _ _ _ _ (logWith_eq _ _ _ _ _)).
      match goal with
      | |- match streamLoop _ _ _ _ ?b ?n ?w2 with _ => _ end =>
          specialize (IH b n w2); destruct (streamLoop _ _ _ _ b n w2) as [a w'|w'|]
      end; [| |done].
      all: destruct IH as (t & Htr & Hsz);
        exists (t ++ [EvWriterWrite (wpath wr) bs; EvRead (Z.of_nat blen)])%list;
        split; [rewrite Htr; cbn; by rewrite <- app_assoc|];
        apply Forall_app; split; [by eapply readSizes_mono|by (unfold readSizes; repeat constructor)].
    + apply passes_false in Hr1 as (n & e & Hr1).
      rewrite (bind_Returns _ _ _ _ _ (writer_Write_eq _ _ _)). rewrite Hr1. cbv zeta.
      rewrite (bind_Returns _ _ _ _ _ (logWith_eq _ _ _ _ _)).
      exists [EvWriterClose (wpath wr); EvWriterWrite (wpath wr) bs; EvRead (Z.of_nat blen)].
      split; [done|]. by (unfold readSizes; repeat constructor).
Qed.

(** The calls of an attempt, oldest last: the remote writer is opened first,
    the seek comes next, and no read asks for more than 64 KiB. *)
Lemma FlushAttempt_calls operation fh w :
  exists w' t,
    final (FlushAttempt operation fh w) = Some w' /\
    trace w' = (t ++ createCall w :: trace w)%list /\
    readSizes bufSize t /\
    (passes (nextResp w) = false -> t = []) /\
    (passes (nextResp w) = true -> is_Some (handle (inode w)) ->
       exists t', t = (t' ++ [EvSeekToStart])%list).
Proof.
  pose proof (FlushAttempt_total operation fh w) as Htot.
  unfold FlushAttempt in *.
  rewrite (bind_Returns get _ w w w eq_refl) in *.
  destruct (passes (nextResp w)) eqn:Hc.
  2: { apply passes_false in Hc as (n & e & Hc).
       rewrite (bind_Returns _ _ _ _ _ (CreateFile_fail _ _ _ _ _ Hc)).
       rewrite (bind_Returns _ _ _ _ _ (logWith_eq _ _ _ _ _)).
       eexists _, []. split; [done|]. split; [done|]. split; [by (unfold readSizes; constructor)|].
       split; done. }
  rewrite (bind_Returns _ _ _ _ _ (CreateFile_pass _ _ _ Hc)) in *.
  set (w1 := set_connected _ _) in *.
  destruct (handle (inode w1)) as [p|] eqn:Hp.
  2: { unfold handle_SeekToStart. rewrite (bind_Panics _ _ w1 w1); [|by apply handle_nil_panics].
       eexists _, []. split; [done|]. split; [done|]. split; [by (unfold readSizes; constructor)|].
       split; [done|]. intros _ [p Hp']. cbn in Hp. congruence. }
  rewrite (bind_Returns _ _ _ _ _ (handle_SeekToStart_eq _ _ Hp)) in *.
  destruct (proxy_SeekToStart (nextResp w1) p) as [[e|] p'] eqn:Hs; cbn [fst snd] in *.
  { rewrite (bind_Returns _ _ _ _ _ (logWith_eq _ _ _ _ _)).
    eexists _, [EvSeekToStart]. split; [done|]. split; [done|].
    split; [by (unfold readSizes; repeat constructor)|]. split; [done|]. intros _ _. by exists []. }
  set (w2 := withProxy _ _) in *.
  rewrite (bind_Returns streamFuel _ w2 (S (length (data p'))) w2 eq_refl) in *.
  pose proof (streamLoop_readSizes (S (length (data p'))) operation fh
                (mkWriter (AbsolutePath (inode w))) bufSize 0 w2) as Hsz.
  destruct (streamLoop (S (length (data p'))) operation fh
              (mkWriter (AbsolutePath (inode w))) bufSize 0 w2)
    as [[written|e] w3|w3|] eqn:Hl.
  - rewrite (bind_Returns _ _ _ _ _ Hl) in *.
    rewrite (bind_Returns _ _ _ _ _ (writer_Close_eq _ _)) in *.
    destruct Hsz as (t & Htr & Hsz).
    exists (match nextResp w3 with
            | RespFail _ e =>
                logged LError "Failed to close file in DFS" fh
                  {[ Fld.Operation := VStr operation; Fld.Error := VErr e ]}
                  (called (EvWriterClose (AbsolutePath (inode w))) w3)
            | _ =>
                logged LInfo "Uploaded to DFS" fh
                  {[ Fld.Operation := VStr operation; Fld.Bytes := VInt written ]}
                  (called (EvWriterClose (AbsolutePath (inode w))) w3)
            end),
      (EvWriterClose (AbsolutePath (inode w)) :: t ++ [EvSeekToStart])%list.
    split; [by destruct (nextResp w3)|].
    split; [destruct (nextResp w3); cbn; rewrite Htr; cbn; by rewrite <- app_assoc|].
    split.
    { unfold readSizes in *. constructor; [done|]. apply Forall_app. split; [done|by (unfold readSizes; repeat constructor)]. }
    split; [done|]. intros _ _. by exists (EvWriterClose (AbsolutePath (inode w)) :: t).
  - rewrite (bind_Returns _ _ _ _ _ Hl) in *.
    destruct Hsz as (t & Htr & Hsz).
    exists w3, (t ++ [EvSeekToStart])%list.
    split; [done|]. split; [rewrite Htr; cbn; by rewrite <- app_assoc|].
    split; [apply Forall_app; split; [done|by (unfold readSizes; repeat constructor)]|].
    split; [done|]. intros _ _. by exists t.
  - rewrite (bind_Panics _ _ _ _ Hl) in *.
    destruct Hsz as (t & Htr & Hsz).
    exists w3, (t ++ [EvSeekToStart])%list.
    split; [done|]. split; [rewrite Htr; cbn; by rewrite <- app_assoc|].
    split; [apply Forall_app; split; [done|by (unfold readSizes; repeat constructor)]|].
    split; [done|]. intros _ _. by exists t.
  - rewrite (bind_OutOfFuel _ _ _ Hl) in Htot. done.
Qed.

(** *** The calls of an attempt, continued *)

(** An attempt whose [CreateFile] goes through and whose seek fails. *)
Lemma FlushAttempt_seek_fails operation fh w p n e :
  handle (inode w) = Some p ->
  passes (nextResp w) = true ->
  seekResp w = RespFail n e ->
  exists w',
    FlushAttempt operation fh w = Returns (Some e) w' /\
    trace w' = EvSeekToStart :: createCall w :: trace w /\
    remoteFile w' = Some [].
Proof.
  intros Hp Hc Hs. unfold FlushAttempt.
  rewrite (bind_Returns get _ w w w eq_refl).
  rewrite (bind_Returns _ _ _ _ _ (CreateFile_pass _ _ _ Hc)).
  set (w1 := set_connected _ _).
  assert (handle (inode w1) = Some p) as Hp1 by exact Hp.
  rewrite (bind_Returns _ _ _ _ _ (handle_SeekToStart_eq _ _ Hp1)).
  change (nextResp w1) with (seekResp w). rewrite Hs. cbn [proxy_SeekToStart fst snd].
  rewrite (bind_Returns _ _ _ _ _ (logWith_eq _ _ _ _ _)).
  eexists. split; [reflexivity|]. split; [reflexivity|].
  unfold remoteFile. cbn. by rewrite lookup_insert_eq.
Qed.

Lemma bufSize_Z : Z.of_nat bufSize = 65536.
Proof. unfold bufSize. by rewrite Z2Nat.id. Qed.

Lemma readsOf_app t1 t2 : readsOf (t1 ++ t2) = (readsOf t2 ++ readsOf t1)%list.
Proof. unfold readsOf. by rewrite rev_app_distr, omap_app. Qed.

Lemma chunksOf_app t1 t2 : chunksOf (t1 ++ t2) = (chunksOf t2 ++ chunksOf t1)%list.
Proof. unfold chunksOf. by rewrite rev_app_distr, omap_app. Qed.

(** The buffer of the streaming loop: the first read asks for the whole
    buffer, and every later read asks for as many bytes as the chunk before
    it held ([b = b[:nr]]). *)
Lemma streamLoop_reads fuel operation fh wr :
  forall blen written w,
    match streamLoop fuel operation fh wr blen written w with
    | Returns _ w' | Panics w' =>
        exists t,
          trace w' = (t ++ trace w)%list /\
          readsOf t = take (length (readsOf t)) (Z.of_nat blen :: chunksOf t) /\
          (is_Some (handle (inode w)) -> exists rest, readsOf t = Z.of_nat blen :: rest)
    | OutOfFuel => True
    end.
Proof.
  induction fuel as [|fuel IH]; intros blen written w; [done|].
  cbn [streamLoop].
  destruct (handle (inode w)) as [p|] eqn:Hp.
  2: { unfold handle_Read. rewrite (bind_Panics _ _ w w); [|by apply handle_nil_panics].
       exists []. split; [done|]. split; [done|]. by intros [? ?]. }
  rewrite (bind_Returns _ _ _ _ _ (handle_Read_eq blen w p Hp)).
  destruct (proxy_Read (nextResp w) blen p) as [[bs [e|]] p'] eqn:E; cbn [fst snd].
  - destruct (decide (e = io_EOF));
      [|rewrite (bind_Returns _ _ _ _ _ (logWith_eq _ _ _ _ _))];
      (exists [EvRead (Z.of_nat blen)]; split; [done|]; split; [done|]; by eexists).
  - set (w1 := withProxy _ _).
    destruct (passes (nextResp w1)) eqn:Hr1.
    + rewrite (bind_Returns _ _ _ _ _ (writer_Write_pass _ _ _ Hr1)).
      rewrite (bind_Returns _ _ _ _ _ (logWith_eq _ _ _ _ _)).
      match goal with
      | |- match streamLoop _ _ _ _ ?b ?n ?w2 with _ => _ end =>
          specialize (IH b n w2); destruct (streamLoop _ _ _ _ b n w2) as [a w'|w'|]
      end; [| |done].
      all: destruct IH as (t & Htr & Hrd & _);
        exists (t ++ [EvWriterWrite (wpath wr) bs; EvRead (Z.of_nat blen)])%list;
        split; [rewrite Htr; cbn; by rewrite <- !app_assoc|];
        rewrite readsOf_app, chunksOf_app; cbn;
        split; [by rewrite <- Hrd|by eexists].
    + apply passes_false in Hr1 as (n & e & Hr1).
      rewrite (bind_Returns _ _ _ _ _ (writer_Write_eq _ _ _)). rewrite Hr1. cbv zeta.
      rewrite (bind_Returns _ _ _ _ _ (logWith_eq _ _ _ _ _)).
      exists [EvWriterClose (wpath wr); EvWriterWrite (wpath wr) bs;
              EvRead (Z.of_nat blen)].
      split; [done|]. split; [done|]. by eexists.
Qed.

(** The reads of an attempt: the first one asks for 64 KiB and every later
    one for the size of the chunk before it; no read is made when the seek
    fails. *)
Lemma FlushAttempt_reads operation fh w :
  match FlushAttempt operation fh w with
  | Returns _ w' | Panics w' =>
      exists t,
        trace w' = (t ++ createCall w :: trace w)%list /\
        readsOf t = take (length (readsOf t)) (65536 :: chunksOf t) /\
        (passes (nextResp w) = true -> is_Some (handle (inode w)) ->
           (passes (seekResp w) = false -> t = [EvSeekToStart]) /\
           (passes (seekResp w) = true -> exists rest, readsOf t = 65536 :: rest))
  | OutOfFuel => False
  end.
Proof.
  pose proof (FlushAttempt_total operation fh w) as Htot.
  destruct (passes (nextResp w)) eqn:Hc.
  2: { apply passes_false in Hc as (n & e & Hc).
       destruct (FlushAttempt_create_fails operation fh w n e Hc)
         as (w' & -> & Htr & _).
       exists []. split; [exact Htr|]. split; [done|]. done. }
  destruct (handle (inode w)) as [p|] eqn:Hp.
  2: { unfold FlushAttempt in *.
       rewrite (bind_Returns get _ w w w eq_refl) in *.
       rewrite (bind_Returns _ _ _ _ _ (CreateFile_pass _ _ _ Hc)) in *.
       set (w1 := set_connected _ _) in *.
       unfold handle_SeekToStart. rewrite (bind_Panics _ _ w1 w1); [|by apply handle_nil_panics].
       exists []. split; [done|]. split; [done|]. by intros _ [? ?]. }
  destruct (passes (seekResp w)) eqn:Hs.
  2: { apply passes_false in Hs as (n & e & Hs).
       destruct (FlushAttempt_seek_fails operation fh w p n e Hp Hc Hs)
         as (w' & -> & Htr & _).
       exists [EvSeekToStart]. split; [exact Htr|]. split; [done|]. done. }
  unfold FlushAttempt in *.
  rewrite (bind_Returns get _ w w w eq_refl) in *.
  rewrite (bind_Returns _ _ _ _ _ (CreateFile_pass _ _ _ Hc)) in *.
  set (w1 := set_connected _ _) in *.
  assert (handle (inode w1) = Some p) as Hp1 by exact Hp.
  rewrite (bind_Returns _ _ _ _ _ (handle_SeekToStart_eq _ _ Hp1)) in *.
  change (nextResp w1) with (seekResp w) in *.
  assert (proxy_SeekToStart (seekResp w) p
            = (None, mkProxy (data p) 0%nat (mode p) (populated p))) as Hseek
    by (unfold proxy_SeekToStart; by destruct (seekResp w)).
  rewrite Hseek in *. cbn [fst snd] in *.
  set (w2 := withProxy _ _) in *.
  rewrite (bind_Returns streamFuel _ w2 (S (length (data p))) w2 eq_refl) in *.
  pose proof (streamLoop_reads (S (length (data p))) operation fh
                (mkWriter (AbsolutePath (inode w))) bufSize 0 w2) as Hrd.
  rewrite bufSize_Z in Hrd.
  destruct (streamLoop (S (length (data p))) operation fh
              (mkWriter (AbsolutePath (inode w))) bufSize 0 w2)
    as [[written|e] w3|w3|] eqn:Hl.
  - rewrite (bind_Returns _ _ _ _ _ Hl) in *.
    rewrite (bind_Returns _ _ _ _ _ (writer_Close_eq _ _)) in *.
    destruct Hrd as (t & Htr & Hrd & Hfirst).
    destruct (Hfirst ltac:(by eexists)) as [rest Hrest].
    destruct (nextResp w3) eqn:Hr3; cbn;
      [|rewrite (bind_Returns _ _ _ _ _ (logWith_eq _ _ _ _ _))|];
      (exists ([EvWriterClose (AbsolutePath (inode w))] ++ t ++ [EvSeekToStart])%list;
       split; [cbn; rewrite Htr; cbn; by rewrite <- app_assoc|];
       rewrite !readsOf_app, !chunksOf_app; cbn; rewrite !app_nil_r;
       split; [exact Hrd|]; intros _ _; split; [done|]; intros _; by exists rest).
  - rewrite (bind_Returns _ _ _ _ _ Hl) in *.
    destruct Hrd as (t & Htr & Hrd & Hfirst).
    destruct (Hfirst ltac:(by eexists)) as [rest Hrest].
    exists (t ++ [EvSeekToStart])%list.
    split; [rewrite Htr; cbn; by rewrite <- app_assoc|].
    rewrite !readsOf_app, !chunksOf_app; cbn.
    split; [exact Hrd|]. intros _ _. split; [done|]. intros _. by exists rest.
  - rewrite (bind_Panics _ _ _ _ Hl) in *.
    destruct Hrd as (t & Htr & Hrd & Hfirst).
    destruct (Hfirst ltac:(by eexists)) as [rest Hrest].
    exists (t ++ [EvSeekToStart])%list.
    split; [rewrite Htr; cbn; by rewrite <- app_assoc|].
    rewrite !readsOf_app, !chunksOf_app; cbn.
    split; [exact Hrd|]. intros _ _. split; [done|]. intros _. by exists rest.
  - rewrite (bind_OutOfFuel _ _ _ Hl) in Htot. done.
Qed.

(* ================================================================== *)
(** ** The properties of the specification *)

(** C1 (code defect, evaluated).  The specification promises that a Flush
    that returns success has brought the remote file up to date with every
    write the handle accepted.  Here a handle writes "abc" at offset 0 of a
    fresh file, the write is accepted, and the Flush that follows returns
    success although the first read of the staging file failed: the staging
    file holds "abc" and the remote file is empty. *)
Theorem Flush_success_leaves_remote_stale :
  exists fh1 resp w1 w2,
    Write cleanHandle (mkWriteReq bytes_abc 0)
      (freshWorld [RespOk; RespOk; RespOk; RespOk; RespFail 0 ErrLocalIO])
      = Returns (fh1, resp, None) w1 /\
    totalBytesWritten fh1 = 3 /\
    Flush IsSuccessOrNonRetriableError_spec fh1 w1 = Returns None w2 /\
    data <$> handle (inode w2) = Some bytes_abc /\
    remoteFile w2 = Some [].
Proof.
  do 4 eexists. split; [vm_compute; reflexivity|].
  split; [reflexivity|].
  split; [vm_compute; reflexivity|].
  split; vm_compute; reflexivity.
Qed.

(** C2 (counterexample).  The claim would have every retriable failure
    retried while retries remain.  A transport error of [CreateFile] is
    retriable and two retries remain, yet [copyToDFS] returns it after the
    first attempt: one [CreateFile], no [Close] of the connector. *)
Lemma copyToDFS_gives_up_on_transport_error :
  let w := sampleWorld [RespFail 0 ErrTransport] in
  IsSuccessOrNonRetriableError_spec (Some ErrTransport) = false /\
  retriesRemain (mkOp 1) w = true /\
  result (copyToDFS IsSuccessOrNonRetriableError_spec Oper.Flush sampleHandle w)
    = Some (Some ErrTransport) /\
  trace <$> final (copyToDFS IsSuccessOrNonRetriableError_spec Oper.Flush sampleHandle w)
    = Some [EvInvalidateMetadataCache "/dir/file"; EvCreateFile "/dir/file" 420 true].
Proof. vm_compute. repeat split; reflexivity. Qed.

(** C2 (amended).  In the loop of [copyToDFS], an attempt that returns
    anything but [io.EOF] ends the loop with that value at once, whether or
    not the error is retriable and retries remain; an attempt that returns
    [io.EOF] is retried, after the connector has been closed, when [io.EOF]
    is classified retriable and retries remain, and ends the loop with
    [io.EOF] otherwise.  A retry is a whole new attempt.  [copyToDFS] always
    ends, and what it returns is what its last attempt returned.

    For [copyToDFS] itself, whose loop starts with the first attempt of a
    policy of [MaxAttempts] attempts: when the first attempt returns anything
    but [io.EOF], or returns [io.EOF] while [io.EOF] is not retriable or
    [MaxAttempts <= 1], [copyToDFS] returns that value after this one
    attempt; when it returns [io.EOF], [io.EOF] is retriable and
    [MaxAttempts > 1], [copyToDFS] closes the connector and goes on with the
    second attempt, which opens the remote writer anew. *)
Theorem copyToDFS_retries_only_after_EOF (cls : option error -> bool)
    (fuel : nat) (operation : string) (fh : FileHandle) (op : Op)
    (w : World) (err : option error) (w1 : World) :
  FlushAttempt operation fh w = Returns err w1 ->
  (err <> Some io_EOF ->
     copyLoop cls (S fuel) operation fh op w = Returns err w1) /\
  (err = Some io_EOF -> cls err = false -> retriesRemain op w1 = true ->
     copyLoop cls (S fuel) operation fh op w
       = copyLoop cls fuel operation fh (mkOp (S (Attempt op)))
           (reconnecting operation fh w1) /\
     connected (reconnecting operation fh w1) = false /\
     trace (reconnecting operation fh w1) = EvConnectorClose :: trace w1) /\
  (err = Some io_EOF -> cls err = true \/ retriesRemain op w1 = false ->
     copyLoop cls (S fuel) operation fh op w = Returns err w1) /\
  (forall w0, copyToDFS cls operation fh w0 <> OutOfFuel) /\
  (forall w0 err' w', totalBytesWritten fh <> 0 ->
     copyToDFS cls operation fh w0 = Returns err' w' ->
     exists wa wb, FlushAttempt operation fh wa = Returns err' wb /\ w' = invalidated wb) /\
  (forall w0, totalBytesWritten fh <> 0 -> w = uploading fh w0 ->
     (err <> Some io_EOF ->
        copyToDFS cls operation fh w0 = Returns err (invalidated w1)) /\
     (err = Some io_EOF ->
      cls err = true \/ (MaxAttempts (retryPolicy w0) <= 1)%nat ->
        copyToDFS cls operation fh w0 = Returns err (invalidated w1)) /\
     (err = Some io_EOF -> cls err = false ->
      (1 < MaxAttempts (retryPolicy w0))%nat ->
        copyToDFS cls operation fh w0
          = thenInvalidated
              (copyLoop cls (MaxAttempts (retryPolicy w0)) operation fh (mkOp 2)
                 (reconnecting operation fh w1)) /\
        exists w' t,
          final (copyToDFS cls operation fh w0) = Some w' /\
          trace w' = (t ++ createCall w1 :: EvConnectorClose :: trace w1)%list)).
Proof.
  intros Ha.
  assert (forall w0, totalBytesWritten fh <> 0 -> w = uploading fh w0 ->
            copyToDFS cls operation fh w0
              = thenInvalidated
                  (if bool_decide (err = Some io_EOF) && negb (cls err)
                      && (1 <? MaxAttempts (retryPolicy w0))%nat
                   then copyLoop cls (MaxAttempts (retryPolicy w0)) operation fh
                          (mkOp 2) (reconnecting operation fh w1)
                   else Returns err w1)) as Hcopy.
  { intros w0 Hz ->. rewrite (copyToDFS_eq _ _ _ _ Hz).
    pose proof (framed_FlushAttempt operation fh (uploading fh w0)) as Hfr.
    rewrite Ha in Hfr. destruct Hfr as [Hpol _ _ _ _ _].
    unfold uploading in *.
    rewrite (copyLoop_S _ _ _ _ _ _ _ _ Ha).
    unfold retriesRemain. rewrite Hpol. reflexivity. }
  rewrite (copyLoop_S _ _ _ _ _ _ _ _ Ha).
  split; [|split; [|split; [|split; [|split]]]].
  - intros Hne. by rewrite (bool_decide_eq_false_2 _ Hne).
  - intros He Hcls Hrem. by rewrite (bool_decide_eq_true_2 _ He), Hcls, Hrem.
  - intros He [Hcls|Hrem].
    + by rewrite Hcls, andb_false_r.
    + by rewrite Hrem, andb_false_r.
  - intros w0. destruct (decide (totalBytesWritten fh = 0)) as [Hz|Hz].
    + by rewrite (copyToDFS_nothing _ _ _ _ Hz).
    + rewrite (copyToDFS_eq _ _ _ _ Hz).
      set (w2 := logged _ _ _ _ w0).
      pose proof (copyLoop_total cls (S (MaxAttempts (retryPolicy w0))) operation fh
                    (mkOp 1) w2) as Htot.
      destruct (copyLoop _ _ _ _ _ w2); [done|done|].
      exfalso. apply Htot; [cbn; lia|done].
  - intros w0 err' w' Hz. rewrite (copyToDFS_eq _ _ _ _ Hz).
    destruct (copyLoop _ _ _ _ _ _) as [e2 w2| |] eqn:Hl; [|done|done].
    intros [= <- <-].
    apply copyLoop_returns_last_attempt in Hl as [wa Hwa]. eauto.
  - intros w0 Hz Hw. rewrite (Hcopy w0 Hz Hw).
    split; [|split].
    + intros Hne. by rewrite (bool_decide_eq_false_2 _ Hne).
    + intros He [Hcls|Hmax].
      * by rewrite Hcls, andb_false_r.
      * replace (1 <? MaxAttempts (retryPolicy w0))%nat with false
          by (symmetry; apply Nat.ltb_ge; lia).
        by rewrite andb_false_r.
    + intros He Hcls Hmax.
      rewrite (bool_decide_eq_true_2 _ He), Hcls.
      replace (1 <? MaxAttempts (retryPolicy w0))%nat with true
        by (symmetry; apply Nat.ltb_lt; lia).
      cbn [negb andb]. split; [reflexivity|].
      pose proof (framed_FlushAttempt operation fh w) as Hfr.
      rewrite Ha in Hfr. destruct Hfr as [Hpol _ _ _ _ _].
      subst w. cbn in Hpol.
      destruct (MaxAttempts (retryPolicy w0)) as [|k] eqn:Hk; [lia|].
      pose proof (copyLoop_first_call cls k operation fh (mkOp 2)
                    (reconnecting operation fh w1)) as Hfc.
      pose proof (copyLoop_total cls (S k) operation fh (mkOp 2)
                    (reconnecting operation fh w1)) as Htot.
      destruct (copyLoop cls (S k) operation fh (mkOp 2)
                  (reconnecting operation fh w1)) as [e2 w2|w2|].
      3: { exfalso. apply Htot; [cbn; rewrite Hpol; lia|done]. }
      all: destruct Hfc as [t Ht];
        exists (invalidated w2),
               (EvInvalidateMetadataCache (AbsolutePath (inode w2)) :: t)%list;
        split; [reflexivity|]; cbn; by rewrite Ht.
Qed.

(** The first attempt ends with [io.EOF] under a classification that retries
    [io.EOF] and a policy of three attempts: the connector is closed and the
    remote writer is opened a second time. *)
Lemma copyToDFS_retries_only_after_EOF_witness :
  exists w1 w' t,
    FlushAttempt Oper.Flush sampleHandle
      (uploading sampleHandle (sampleWorld [RespFail 0 io_EOF]))
      = Returns (Some io_EOF) w1 /\
    final (copyToDFS IsSuccessOrNonRetriableError_eof Oper.Flush sampleHandle
             (sampleWorld [RespFail 0 io_EOF])) = Some w' /\
    trace w' = (t ++ [EvCreateFile "/dir/file" 420 true; EvConnectorClose;
                      EvCreateFile "/dir/file" 420 true])%list.
Proof.
  eexists.
  match goal with
  | |- exists w' t, _ = Returns _ ?w1 /\ _ =>
      assert (FlushAttempt Oper.Flush sampleHandle
                (uploading sampleHandle (sampleWorld [RespFail 0 io_EOF]))
              = Returns (Some io_EOF) w1) as Ha by (vm_compute; reflexivity)
  end.
  assert (totalBytesWritten sampleHandle <> 0) as Hz by (cbn; lia).
  assert (1 < MaxAttempts (retryPolicy (sampleWorld [RespFail 0 io_EOF])))%nat
    as Hmax by (cbn; lia).
  pose proof (copyToDFS_retries_only_after_EOF IsSuccessOrNonRetriableError_eof
                0 Oper.Flush sampleHandle (mkOp 1) _ _ _ Ha) as Hthm.
  pose proof (proj2 (proj2 (proj2 (proj2 (proj2 Hthm))))) as Hcopy.
  pose proof (proj2 (proj2 (Hcopy (sampleWorld [RespFail 0 io_EOF]) Hz eq_refl)))
    as Hthird.
  pose proof (proj2 (Hthird eq_refl eq_refl Hmax)) as Hretry.
  destruct Hretry as (w' & t & Hf & Ht).
  exists w', t.
  split; [exact Ha|]. split; [exact Hf|exact Ht].
Defined.

(** C3.  [Read] hands the bytes of the underlying [ReadAt] to the VFS; when
    [ReadAt] reports [io.EOF], [Read] returns [nil]; any other error of
    [ReadAt] is returned as it is; [Read] never returns [io.EOF]. *)
Theorem Read_reports_EOF_as_success (fh : FileHandle) (req : ReadRequest)
    (resp : ReadResponse) (w : World) (bs : list byte) (e0 : option error)
    (w1 : World) :
  0 <= rSize req <= Z.of_nat (rCap resp) ->
  handle_ReadAt (Z.to_nat (rSize req)) (rOffset req) w = Returns (bs, e0) w1 ->
  exists fh' err w',
    Read fh req resp w = Returns (fh', mkReadResp bs (rCap resp), err) w' /\
    (e0 = Some io_EOF -> err = None) /\
    (e0 <> Some io_EOF -> err = e0) /\
    err <> Some io_EOF.
Proof.
  intros Hsz Hread. unfold Read.
  replace (rSize req <? 0) with false by lia.
  replace (Z.of_nat (rCap resp) <? rSize req) with false by lia.
  cbn [orb]. rewrite (bind_Returns _ _ _ _ _ Hread).
  destruct e0 as [e|].
  - destruct (decide (e = io_EOF)) as [->|Hne].
    + rewrite (bind_Returns _ _ _ _ _ (logWith_eq _ _ _ _ _)).
      do 3 eexists. split; [reflexivity|]. repeat split; congruence.
    + rewrite (bind_Returns _ _ _ _ _ (logWith_eq _ _ _ _ _)).
      do 3 eexists. split; [reflexivity|]. repeat split; congruence.
  - do 3 eexists. split; [reflexivity|]. repeat split; congruence.
Qed.

(** Reading four bytes at the end of the three-byte sample file: [ReadAt]
    reports [io.EOF] with no byte, [Read] returns [nil] with no byte. *)
Lemma Read_reports_EOF_as_success_witness :
  exists fh' w',
    Read sampleHandle (mkReadReq 3 4) (mkReadResp [] 4) (sampleWorld [])
      = Returns (fh', mkReadResp [] 4, None) w'.
Proof.
  destruct (Read_reports_EOF_as_success sampleHandle (mkReadReq 3 4)
              (mkReadResp [] 4) (sampleWorld []) [] (Some io_EOF)
              (called (EvReadAt 4 3) (sampleWorld [])))
    as (fh' & err & w' & Hr & He & _ & _).
  - cbn. lia.
  - vm_compute. reflexivity.
  - exists fh', w'. rewrite Hr. by rewrite (He eq_refl).
Defined.

(** C4 (code defect, evaluated).  The first read of the staging file fails
    with a local I/O error; the attempt logs the failure, closes the remote
    writer and returns [nil], so [Flush] reports success over an empty
    remote file. *)
Theorem Flush_swallows_staging_read_error :
  let o := Flush IsSuccessOrNonRetriableError_spec sampleHandle
             (sampleWorld [RespOk; RespOk; RespFail 0 ErrLocalIO]) in
  result o = Some None /\
  remoteFile <$> final o = Some (Some []) /\
  (fun w => (fun l => (level l, message l)) <$> logs w) <$> final o
    = Some [(LInfo, "Uploaded to DFS");
            (LError, "Failed to read from staging file");
            (LDebug, "Uploading to DFS");
            (LInfo, "Flush file")].
Proof. vm_compute. repeat split; reflexivity. Qed.

(** C5 (counterexample).  The claim would have every attempt seek and
    stream the staging file in chunks of a fixed size of 64 KiB.  First, an
    attempt whose [CreateFile] is refused makes that one call and returns the
    error: no seek, no read, and nothing at the remote path, while the
    staging file holds three bytes.  Second, the buffer is cut to the size of
    each chunk read ([b = b[:nr]]): after a first read that came back with
    one byte, the attempt asks for one byte at a time, and the three bytes of
    the staging file go to the remote writer in three chunks of one byte. *)
Lemma FlushAttempt_stops_early_or_shrinks_buffer :
  (let o := FlushAttempt Oper.Flush sampleHandle
              (sampleWorld [RespFail 0 ErrPermissionDenied]) in
   result o = Some (Some ErrPermissionDenied) /\
   trace <$> final o = Some [EvCreateFile "/dir/file" 420 true] /\
   remoteFile <$> final o = Some None /\
   (fun w => length <$> (data <$> handle (inode w))) <$> final o = Some (Some 3%nat)) /\
  (let o := FlushAttempt Oper.Flush sampleHandle
              (sampleWorld [RespOk; RespOk; RespShort 0]) in
   result o = Some None /\
   (fun w => readsOf (trace w)) <$> final o = Some [65536; 1; 1; 1] /\
   (fun w => chunksOf (trace w)) <$> final o = Some [1; 1; 1] /\
   remoteFile <$> final o = Some (Some bytes_abc)).
Proof. vm_compute. repeat split; reflexivity. Qed.

(** C5 (amended).  Every attempt ends, and its first call opens the remote
    writer with [CreateFile(path, mode, true)]; when that call fails nothing
    else is called; when it passes the next call seeks the staging file to
    its start; when the seek fails nothing else is called, and when it passes
    the staging file is read.  The file is streamed through a buffer of
    64 KiB that is cut to the size of every chunk read: the first read asks
    for 65536 bytes, every later read asks for as many bytes as the chunk
    before it held, and no read asks for more than 64 KiB.  When the attempt
    returns success and none of its reads was made to fail, the remote file
    is the content of the staging file and the byte count the attempt logs is
    the size of that content. *)
Theorem FlushAttempt_protocol (operation : string) (fh : FileHandle) (w : World) :
  (exists w' t,
     final (FlushAttempt operation fh w) = Some w' /\
     trace w' = (t ++ EvCreateFile (AbsolutePath (inode w)) (Mode (inode w)) true
                   :: trace w)%list /\
     readSizes bufSize t /\
     readsOf t = take (length (readsOf t)) (65536 :: chunksOf t) /\
     (passes (nextResp w) = false -> t = []) /\
     (passes (nextResp w) = true -> is_Some (handle (inode w)) ->
        (exists t', t = (t' ++ [EvSeekToStart])%list) /\
        (passes (seekResp w) = false -> t = [EvSeekToStart]) /\
        (passes (seekResp w) = true -> exists rest, readsOf t = 65536 :: rest))) /\
  (forall p w',
     handle (inode w) = Some p ->
     readsPass (tail (tail (oracle w))) = true ->
     Z.of_nat (length (data p)) < 2 ^ 63 ->
     FlushAttempt operation fh w = Returns None w' ->
     remoteFile w' = Some (data p) /\
     exists f rest,
       logs w' = mkLog LInfo "Uploaded to DFS" f :: rest /\
       f !! Fld.Bytes = Some (VInt (Z.of_nat (length (data p))))).
Proof.
  split.
  - destruct (FlushAttempt_calls operation fh w)
      as (w' & t & Hf & Htr & Hsz & Hfail & Hseek).
    pose proof (FlushAttempt_reads operation fh w) as Hrd.
    assert (exists t2,
              trace w' = (t2 ++ createCall w :: trace w)%list /\
              readsOf t2 = take (length (readsOf t2)) (65536 :: chunksOf t2) /\
              (passes (nextResp w) = true -> is_Some (handle (inode w)) ->
                 (passes (seekResp w) = false -> t2 = [EvSeekToStart]) /\
                 (passes (seekResp w) = true ->
                    exists rest, readsOf t2 = 65536 :: rest))) as (t2 & Htr2 & Hrd2 & Hs2).
    { destruct (FlushAttempt operation fh w) as [a w2|w2|]; [| |done];
        injection Hf as ->; exact Hrd. }
    assert (t2 = t) as ->.
    { rewrite Htr in Htr2. unfold createCall in Htr2.
      by apply app_inv_tail in Htr2. }
    exists w', t. split; [exact Hf|]. split; [exact Htr|]. split; [exact Hsz|].
    split; [exact Hrd2|]. split; [exact Hfail|].
    intros Hc Hh. destruct (Hs2 Hc Hh) as [H1 H2].
    split; [by apply Hseek|]. split; [exact H1|exact H2].
  - intros p w' Hp Ho Hlen Ha.
    destruct (FlushAttempt_delivers operation fh w p w' Hp Ho Ha)
      as (Hremote & _ & f & rest & Hlogs & Hf).
    split; [done|]. exists f, rest. split; [done|].
    rewrite Hf, wrap64_id; [done|]. unfold in_int64. lia.
Qed.

(** The upload of the sample file, and an attempt whose seek fails. *)
Lemma FlushAttempt_protocol_witness :
  (exists w',
     FlushAttempt Oper.Flush sampleHandle (sampleWorld []) = Returns None w' /\
     remoteFile w' = Some bytes_abc) /\
  (exists w',
     final (FlushAttempt Oper.Flush sampleHandle
              (sampleWorld [RespOk; RespFail 0 ErrLocalIO])) = Some w' /\
     trace w' = [EvSeekToStart; EvCreateFile "/dir/file" 420 true]).
Proof.
  split.
  - eexists. split; [vm_compute; reflexivity|].
    refine (proj1 (proj2 (FlushAttempt_protocol Oper.Flush sampleHandle (sampleWorld []))
                     sampleProxy _ eq_refl eq_refl _ _)).
    + cbn. lia.
    + vm_compute. reflexivity.
  - destruct (proj1 (FlushAttempt_protocol Oper.Flush sampleHandle
                       (sampleWorld [RespOk; RespFail 0 ErrLocalIO])))
      as (w' & t & Hf & Htr & _ & _ & _ & Hpass).
    destruct (Hpass eq_refl ltac:(by eexists)) as (_ & Hseek & _).
    exists w'. split; [exact Hf|]. by rewrite Htr, (Hseek eq_refl).
Defined.

(** C6.  A handle that has written nothing flushes and fsyncs by returning
    [nil] and leaving the world as it is: no call, no log entry.  A handle
    that has written bytes runs [copyToDFS] (after one log entry), and that
    run ends having opened a remote writer.  The count of bytes written is a
    sum of write counts and so never negative. *)
Theorem Flush_Fsync_copy_iff_bytes_written (cls : option error -> bool)
    (fh : FileHandle) (w : World) :
  0 <= totalBytesWritten fh ->
  (totalBytesWritten fh = 0 ->
     Flush cls fh w = Returns None w /\ Fsync cls fh w = Returns None w) /\
  (totalBytesWritten fh <> 0 ->
     Flush cls fh w
       = copyToDFS cls Oper.Flush fh
           (logged LInfo "Flush file" fh {[ Fld.Operation := VStr Oper.Flush ]} w) /\
     Fsync cls fh w
       = copyToDFS cls Oper.Fsync fh
           (logged LInfo "Fsync file" fh {[ Fld.Operation := VStr Oper.Fsync ]} w) /\
     (exists w' t,
        final (Flush cls fh w) = Some w' /\
        trace w' = (t ++ EvCreateFile (AbsolutePath (inode w)) (Mode (inode w)) true
                      :: trace w)%list) /\
     (exists w' t,
        final (Fsync cls fh w) = Some w' /\
        trace w' = (t ++ EvCreateFile (AbsolutePath (inode w)) (Mode (inode w)) true
                      :: trace w)%list)).
Proof.
  intros Hnn. rewrite Flush_eq, Fsync_eq. split.
  - intros ->. done.
  - intros Hne. replace (0 <? totalBytesWritten fh) with true by lia.
    split; [done|]. split; [done|].
    split.
    + destruct (copyToDFS_contacts_remote cls Oper.Flush fh
                  (logged LInfo "Flush file" fh {[ Fld.Operation := VStr Oper.Flush ]} w)
                  Hne) as (w' & t & Hf & Ht).
      exists w', t. split; [exact Hf|exact Ht].
    + destruct (copyToDFS_contacts_remote cls Oper.Fsync fh
                  (logged LInfo "Fsync file" fh {[ Fld.Operation := VStr Oper.Fsync ]} w)
                  Hne) as (w' & t & Hf & Ht).
      exists w', t. split; [exact Hf|exact Ht].
Qed.

Lemma Flush_Fsync_copy_iff_bytes_written_witness :
  Flush IsSuccessOrNonRetriableError_spec cleanHandle (sampleWorld [])
    = Returns None (sampleWorld []) /\
  exists w' t,
    final (Flush IsSuccessOrNonRetriableError_spec sampleHandle (sampleWorld []))
      = Some w' /\
    trace w' = (t ++ [EvCreateFile "/dir/file" 420 true])%list.
Proof.
  split.
  - refine (proj1 (proj1 (Flush_Fsync_copy_iff_bytes_written
                            IsSuccessOrNonRetriableError_spec cleanHandle
                            (sampleWorld []) _) eq_refl)).
    cbn. lia.
  - refine (proj1 (proj2 (proj2 (proj2 (Flush_Fsync_copy_iff_bytes_written
                            IsSuccessOrNonRetriableError_spec sampleHandle
                            (sampleWorld []) _) _)))).
    + cbn. lia.
    + cbn. lia.
Defined.

(** C7.  In every state of the handle and of the world, [Flush] and [Fsync]
    have the same outcome: both return or both panic, with the same value,
    in worlds that are equal once their logs are set aside. *)
Theorem Flush_Fsync_differ_in_log_only (cls : option error -> bool)
    (fh : FileHandle) (w : World) :
  agree (Flush cls fh w) (Fsync cls fh w).
Proof. by apply similar_Flush_Fsync. Qed.

(** C8.  [Release] of an open handle returns [nil]; the handle is gone from
    the inode's set of open handles, whose size is one less; the cached
    metadata of the inode's path is gone; and the staging proxy has been
    closed and the inode's reference to it cleared exactly when no open
    handle is left, being untouched otherwise. *)
Theorem Release_closes_staging_iff_last (fh : FileHandle) (w : World)
    (p : FileProxy) :
  handle (inode w) = Some p ->
  fhID fh ∈ activeHandles (inode w) ->
  exists w',
    Release fh w = Returns None w' /\
    activeHandles (inode w') = activeHandles (inode w) ∖ {[ fhID fh ]} /\
    S (size (activeHandles (inode w'))) = size (activeHandles (inode w)) /\
    (AbsolutePath (inode w) ∉ attrCache w') /\
    ((EvProxyClose ∈ newEvents w w') <-> size (activeHandles (inode w')) = 0%nat) /\
    (handle (inode w') = None <-> size (activeHandles (inode w')) = 0%nat) /\
    (size (activeHandles (inode w')) <> 0%nat -> handle (inode w') = Some p).
Proof.
  intros Hp Hin.
  destruct (Release_eq fh w p Hp) as (w' & Hr & Hs & Hc & Hh & Ht).
  exists w'. split; [done|]. split; [done|]. rewrite Hs.
  split.
  { rewrite size_difference by (by apply singleton_subseteq_l).
    rewrite size_singleton.
    assert (size (activeHandles (inode w)) <> 0%nat); [|lia].
    intros Hz%size_empty_inv. apply (not_elem_of_empty (C:=gset Z) (fhID fh)).
    by rewrite <- Hz. }
  split.
  { rewrite Hc. intros [_ Hn]%elem_of_difference. apply Hn. by apply elem_of_singleton. }
  unfold newEvents. rewrite Ht, Hh.
  destruct (decide (size (activeHandles (inode w) ∖ {[ fhID fh ]}) = 0%nat)) as [Hz|Hz].
  - cbn [app length]. replace (S (S (length (trace w))) - length (trace w))%nat
      with 2%nat by lia.
    cbn [take]. split; [|split; [done|done]].
    split; [done|]. intros _. apply elem_of_cons. by left.
  - cbn [app length]. replace (S (length (trace w)) - length (trace w))%nat
      with 1%nat by lia.
    cbn [take]. split; [|split; [done|done]].
    split; [|done]. intros Hel. apply elem_of_cons in Hel as [Hel|Hel]; [done|].
    by apply elem_of_nil in Hel.
Qed.

Lemma Release_closes_staging_iff_last_witness :
  exists w',
    Release sampleHandle (sampleWorld []) = Returns None w' /\
    handle (inode w') = None.
Proof.
  destruct (Release_closes_staging_iff_last sampleHandle (sampleWorld []) sampleProxy)
    as (w' & Hr & Hs & _ & _ & _ & Hh & _).
  - reflexivity.
  - change (fhID sampleHandle ∈ ({[ 7 ]} : gset Z)). by apply elem_of_singleton.
  - exists w'. split; [exact Hr|]. apply Hh. rewrite Hs. by vm_compute.
Defined.

(** C9 (counterexample).  The claim would have every operation on a
    released handle fail.  A handle that has written nothing is released as
    the last handle of its inode, and its [Flush] and [Fsync] still return
    [nil]; a handle is released while another handle of the inode stays
    open, and its [Read] still returns the bytes of the shared staging
    file. *)
Lemma released_handle_still_succeeds :
  (exists w',
     Release cleanHandle (sampleWorld []) = Returns None w' /\
     Flush IsSuccessOrNonRetriableError_spec cleanHandle w' = Returns None w' /\
     Fsync IsSuccessOrNonRetriableError_spec cleanHandle w' = Returns None w') /\
  (exists w' fh' w'',
     Release sampleHandle (sharedWorld []) = Returns None w' /\
     Read sampleHandle (mkReadReq 0 3) (mkReadResp [] 3) w'
       = Returns (fh', mkReadResp bytes_abc 3, None) w'').
Proof.
  split.
  - eexists. split; [vm_compute; reflexivity|]. split; reflexivity.
  - do 3 eexists. split.
    + vm_compute. reflexivity.
    + vm_compute. reflexivity.
Qed.

(** C9 (amended).  [Release] of the last open handle of an inode returns
    [nil] and clears the inode's reference to the staging proxy.  While that
    reference stays cleared, [Read], [Write] and [Truncate] on the handle
    panic, and [Flush] and [Fsync] of a handle that has written bytes panic
    or return an error; none of them succeeds. *)
Theorem last_Release_disables_handle (cls : option error -> bool)
    (fh : FileHandle) (w : World) (p : FileProxy) :
  handle (inode w) = Some p ->
  activeHandles (inode w) ⊆ {[ fhID fh ]} ->
  exists w',
    Release fh w = Returns None w' /\
    handle (inode w') = None /\
    forall w'', handle (inode w'') = None ->
      (forall req resp, Read fh req resp w'' = Panics w'') /\
      (forall req, Write fh req w'' = Panics w'') /\
      (forall size, Truncate fh size w'' = Panics w'') /\
      (0 < totalBytesWritten fh ->
         failed id (Flush cls fh w'') /\ failed id (Fsync cls fh w'')).
Proof.
  intros Hp Hsub.
  destruct (Release_eq fh w p Hp) as (w' & Hr & _ & _ & Hh & _).
  assert (size (activeHandles (inode w) ∖ {[ fhID fh ]}) = 0%nat) as Hz.
  { apply size_empty_iff, elem_of_equiv_empty.
    intros x [Hx Hn]%elem_of_difference. apply Hn. by apply Hsub. }
  rewrite decide_True in Hh by done.
  exists w'. split; [done|]. split; [done|].
  intros w'' Hnil.
  split; [intros; by apply Read_nil|].
  split; [intros; by apply Write_nil|].
  split; [intros; by apply Truncate_nil|].
  intros Hpos. rewrite Flush_eq, Fsync_eq.
  replace (0 <? totalBytesWritten fh) with true by lia.
  split; apply copyToDFS_nil; (lia || done).
Qed.

Lemma last_Release_disables_handle_witness :
  exists w',
    Release sampleHandle (sampleWorld []) = Returns None w' /\
    Read sampleHandle (mkReadReq 0 3) (mkReadResp [] 3) w' = Panics w' /\
    failed id (Flush IsSuccessOrNonRetriableError_spec sampleHandle w').
Proof.
  destruct (last_Release_disables_handle IsSuccessOrNonRetriableError_spec
              sampleHandle (sampleWorld []) sampleProxy)
    as (w' & Hr & Hnil & Hops).
  - reflexivity.
  - done.
  - destruct (Hops w' Hnil) as (Hread & _ & _ & Hflush).
    assert (0 < totalBytesWritten sampleHandle) as Hpos by (cbn; lia).
    destruct (Hflush Hpos) as [HF _].
    exists w'. split; [exact Hr|]. split; [exact (Hread _ _)|exact HF].
Defined.

(** C10.  [Truncate] never returns an error.  When the inode has a staging
    proxy it returns [nil] for every size, whatever the proxy's own
    [Truncate] answered; a failure of the proxy is visible in the log only,
    as an error entry that carries it. *)
Theorem Truncate_always_returns_nil (fh : FileHandle) (size : Z) (w : World) :
  (forall err w', Truncate fh size w = Returns err w' -> err = None) /\
  (forall p, handle (inode w) = Some p ->
     exists w',
       Truncate fh size w = Returns None w' /\
       handle (inode w') = Some (proxy_Truncate (nextResp w) size p).2 /\
       forall e, (proxy_Truncate (nextResp w) size p).1 = Some e ->
         exists f1 f2,
           logs w' = mkLog LInfo "Truncated file" f1
                       :: mkLog LError "Failed to truncate file" f2 :: logs w /\
           f2 !! Fld.Error = Some (VErr e)).
Proof.
  unfold Truncate, handle_Truncate. munfold.
  destruct (handle (inode w)) as [p|] eqn:Hp; cbn.
  - destruct (proxy_Truncate (nextResp w) size p) as [[e|] p'] eqn:E; cbn.
    + split; [intros ? ? [= <- _]; reflexivity|].
      intros ? [= <-]. rewrite E. cbn. eexists; split; [reflexivity|].
      split; [reflexivity|]. intros ? [= <-]. do 2 eexists. split; [reflexivity|].
      reflexivity.
    + split; [intros ? ? [= <- _]; reflexivity|].
      intros ? [= <-]. rewrite E. cbn. eexists; split; [reflexivity|].
      split; [reflexivity|]. intros ? [=].
  - split; [intros ? ? [=]|intros ? [=]].
Qed.

Lemma Truncate_always_returns_nil_witness :
  exists w',
    Truncate sampleHandle 1 (sampleWorld [RespFail 0 ErrLocalIO]) = Returns None w' /\
    data <$> handle (inode w') = Some bytes_abc.
Proof.
  destruct (Truncate_always_returns_nil sampleHandle 1
              (sampleWorld [RespFail 0 ErrLocalIO])) as [_ H].
  destruct (H sampleProxy eq_refl) as (w' & Hw & Hh & _).
  exists w'. split; [exact Hw|]. by rewrite Hh.
Defined.

(* ================================================================== *)
(** ** Further properties of the handle *)

(** *** Operations that stay local *)

Lemma quiet_refl w : quiet w w.
Proof. split; [done|]. split; [done|]. exists []. split; [done|]. constructor. Qed.

Lemma quiet_trans w1 w2 w3 : quiet w1 w2 -> quiet w2 w3 -> quiet w1 w3.
Proof.
  intros (Hd1 & Hc1 & t1 & Ht1 & Hf1) (Hd2 & Hc2 & t2 & Ht2 & Hf2).
  split; [congruence|]. split; [congruence|].
  exists (t2 ++ t1)%list. split; [by rewrite Ht2, Ht1, app_assoc|].
  by apply Forall_app.
Qed.

Lemma quietly_ret {A} (a : A) : quietly (mret a).
Proof. intros w. apply quiet_refl. Qed.

Lemma quietly_bind {A B} (m : M A) (k : A -> M B) :
  quietly m -> (forall a, quietly (k a)) -> quietly (m ≫= k).
Proof.
  intros Hm Hk w. specialize (Hm w). unfold mbind, M_bind, bind.
  destruct (m w) as [a w'| |]; auto.
  specialize (Hk a w'). destruct (k a w'); eauto using quiet_trans.
Qed.

Ltac quiet_close :=
  split; [reflexivity|]; split; [reflexivity|];
  first [ exists []; split; [reflexivity|constructor]
        | eexists [_]; split; [reflexivity|by repeat constructor]
        | eexists [_; _]; split; [reflexivity|by repeat constructor] ].

Ltac quiet_step :=
  intros w; munfold; cbn;
  repeat (break_inner; cbn);
  quiet_close.

Lemma quietly_logWith l msg fh f : quietly (logWith l msg fh f).
Proof. quiet_step. Qed.

Lemma quietly_handle_WriteAt bs off : quietly (handle_WriteAt bs off).
Proof. unfold handle_WriteAt. quiet_step. Qed.

Lemma quietly_handle_Truncate size : quietly (handle_Truncate size).
Proof. unfold handle_Truncate. quiet_step. Qed.

Lemma quietly_handle_Close : quietly handle_Close.
Proof. unfold handle_Close. quiet_step. Qed.

Lemma quietly_InvalidateMetadataCache : quietly InvalidateMetadataCache.
Proof. unfold InvalidateMetadataCache. quiet_step. Qed.

Lemma quietly_RemoveHandle id : quietly (RemoveHandle id).
Proof. unfold RemoveHandle. quiet_step. Qed.

Lemma quietly_countActiveHandles : quietly countActiveHandles.
Proof. unfold countActiveHandles. quiet_step. Qed.

Lemma quietly_store h : quietly (store h).
Proof. quiet_step. Qed.

Lemma quietly_panic {A} : quietly (@panic A).
Proof. quiet_step. Qed.

Create HintDb quietly.

#[local] Hint Resolve quietly_ret quietly_logWith
  quietly_handle_WriteAt quietly_handle_Truncate quietly_handle_Close
  quietly_InvalidateMetadataCache
  quietly_RemoveHandle quietly_countActiveHandles quietly_store
  quietly_panic : quietly.

Ltac quietly_auto :=
  repeat first
    [ progress auto with quietly
    | apply quietly_bind; [|intros ?]
    | match goal with
      | |- quietly (match ?x with _ => _ end) => destruct x
      | |- quietly (if ?x then _ else _) => destruct x
      | |- quietly (let '(_, _) := ?x in _) => destruct x
      end ].

(** On a staged file [Read] and [Write] stay local. *)
Lemma Read_staged_quiet fh req resp w p :
  handle (inode w) = Some p -> isStaged p = true ->
  match Read fh req resp w with
  | Returns _ w' | Panics w' => quiet w w'
  | OutOfFuel => True
  end.
Proof.
  intros Hp Hs. unfold Read.
  destruct (_ || _); [by apply (quietly_panic w)|].
  unfold handle_ReadAt. munfold. rewrite Hp. cbn. rewrite Hs. cbn.
  repeat (break_inner; cbn); quiet_close.
Qed.

Lemma Write_staged_quiet fh req w p :
  handle (inode w) = Some p -> isStaged p = true ->
  match Write fh req w with
  | Returns _ w' | Panics w' => quiet w w'
  | OutOfFuel => True
  end.
Proof.
  intros Hp Hs. unfold Write, upgradeHandleForWriting, handle_WriteAt. munfold.
  rewrite Hp. cbn. destruct p as [d c [] []]; try discriminate; cbn.
  all: repeat (break_inner; cbn); quiet_close.
Qed.

Lemma quietly_Truncate fh size : quietly (Truncate fh size).
Proof. unfold Truncate. quietly_auto. Qed.

Lemma quietly_Release fh : quietly (Release fh).
Proof. unfold Release. quietly_auto. Qed.

Lemma newEvents_app w w' t :
  trace w' = (t ++ trace w)%list -> newEvents w w' = t.
Proof.
  intros H. unfold newEvents. rewrite H, length_app.
  replace (length t + length (trace w) - length (trace w))%nat with (length t) by lia.
  by rewrite take_app_length.
Qed.

Lemma quiet_newEvents w w' :
  quiet w w' -> Forall (fun e => isRemote e = false) (newEvents w w').
Proof. intros (_ & _ & t & Ht & Hf). by rewrite (newEvents_app _ _ _ Ht). Qed.

(** *** Operations that read the remote at most *)

Lemma quiet_readOnly w w' : quiet w w' -> readOnly w w'.
Proof.
  intros (Hd & _ & t & Ht & Hf). split; [exact Hd|]. exists t. split; [exact Ht|].
  eapply Forall_impl; [exact Hf|]. by intros [].
Qed.

Lemma readOnly_refl w : readOnly w w.
Proof. apply quiet_readOnly, quiet_refl. Qed.

Lemma readOnly_trans w1 w2 w3 : readOnly w1 w2 -> readOnly w2 w3 -> readOnly w1 w3.
Proof.
  intros (Hd1 & t1 & Ht1 & Hf1) (Hd2 & t2 & Ht2 & Hf2).
  split; [congruence|].
  exists (t2 ++ t1)%list. split; [by rewrite Ht2, Ht1, app_assoc|].
  by apply Forall_app.
Qed.

Lemma quietly_readingOnly {A} (m : M A) : quietly m -> readingOnly m.
Proof. intros H w. specialize (H w). destruct (m w); auto using quiet_readOnly. Qed.

Lemma readingOnly_bind {A B} (m : M A) (k : A -> M B) :
  readingOnly m -> (forall a, readingOnly (k a)) -> readingOnly (m ≫= k).
Proof.
  intros Hm Hk w. specialize (Hm w). unfold mbind, M_bind, bind.
  destruct (m w) as [a w'| |]; auto.
  specialize (Hk a w'). destruct (k a w'); eauto using readOnly_trans.
Qed.

Ltac reading_close :=
  split; [reflexivity|];
  first [ exists []; split; [reflexivity|constructor]
        | eexists [_]; split; [reflexivity|by repeat constructor]
        | eexists [_; _]; split; [reflexivity|by repeat constructor]
        | eexists [_; _; _]; split; [reflexivity|by repeat constructor] ].

Ltac reading_step :=
  intros w; munfold; cbn;
  repeat (break_inner; cbn);
  reading_close.

Lemma readingOnly_handle_ReadAt len off : readingOnly (handle_ReadAt len off).
Proof. unfold handle_ReadAt, remote_ReadAt, openRead. reading_step. Qed.

Lemma readingOnly_upgradeHandleForWriting : readingOnly upgradeHandleForWriting.
Proof. unfold upgradeHandleForWriting, hydrate, openRead. reading_step. Qed.

Lemma readingOnly_Read fh req resp : readingOnly (Read fh req resp).
Proof.
  unfold Read. destruct (_ || _); [by apply quietly_readingOnly, quietly_panic|].
  apply readingOnly_bind; [apply readingOnly_handle_ReadAt|].
  intros [bs err]. apply quietly_readingOnly. quietly_auto.
Qed.

Lemma readingOnly_Write fh req : readingOnly (Write fh req).
Proof.
  unfold Write.
  apply readingOnly_bind; [apply readingOnly_upgradeHandleForWriting|]. intros _.
  apply quietly_readingOnly. quietly_auto.
Qed.

Lemma proxy_WriteAt_full r bs off p :
  (proxy_WriteAt r bs off p).1.2 = None ->
  (proxy_WriteAt r bs off p).1.1 = Z.of_nat (length bs).
Proof.
  unfold proxy_WriteAt.
  destruct r as [|n e|k]; destruct (off <? 0); try destruct (mode p); cbn; done.
Qed.

Lemma proxy_ReadAt_length r len off p :
  (length (proxy_ReadAt r len off p).1 <= len)%nat.
Proof.
  unfold proxy_ReadAt, pread.
  destruct r as [|n e|k]; destruct (off <? 0); cbn;
    rewrite ?length_take; lia.
Qed.

Lemma proxy_Read_length r len p :
  (length (proxy_Read r len p).1.1 <= len)%nat.
Proof.
  destruct (proxy_Read r len p) as [[bs [e|]] p'] eqn:E; cbn.
  - unfold proxy_Read in E. destruct r; try (injection E as <- _ _; cbn; lia).
    all: destruct len; [injection E as <- _ _; cbn; lia|].
    all: destruct (take _ _); [injection E as <- _ _; cbn; lia|done].
  - by apply proxy_Read_ok in E as (_ & _ & Hle & _).
Qed.

(** The upgrade for writing leaves the metadata cache alone. *)
Lemma upgrade_attrCache w w1 :
  upgradeHandleForWriting w = Returns tt w1 -> attrCache w1 = attrCache w.
Proof.
  unfold upgradeHandleForWriting, hydrate, openRead. munfold.
  destruct (handle (inode w)) as [p|]; [|discriminate]. cbn.
  repeat (break_inner; cbn); by intros [= <-].
Qed.

(** What [handle_ReadAt] hands over, and what it leaves alone. *)
Lemma handle_ReadAt_frame len off w bs err w' :
  handle_ReadAt len off w = Returns (bs, err) w' ->
  (length bs <= len)%nat /\ inode w' = inode w /\ attrCache w' = attrCache w.
Proof.
  unfold handle_ReadAt, remote_ReadAt, openRead. munfold.
  destruct (handle (inode w)) as [p|]; [|discriminate]. cbn.
  pose proof (proxy_ReadAt_length (nextResp w) len off p) as Hl.
  destruct (isStaged p); cbn.
  { destruct (proxy_ReadAt _ _ _ _) as [b e]; intros H; inversion H; subst. done. }
  repeat (break_inner; cbn); intros H; inversion H; subst; cbn;
    try (split; [lia|done]).
  all: match goal with
       | H1 : (proxy_Read ?r ?l ?q).1 = _ |- _ =>
           pose proof (proxy_Read_length r l q) as Hlen; rewrite H1 in Hlen;
           split; [exact Hlen|done]
       end.
Qed.

(** A read of a file that is not staged starts by opening the remote
    file. *)
Lemma handle_ReadAt_unstaged len off w p :
  handle (inode w) = Some p -> isStaged p = false ->
  match handle_ReadAt len off w with
  | Returns _ w' | Panics w' =>
      exists t, trace w' = (t ++ EvOpenRead (AbsolutePath (inode w)) :: trace w)%list
  | OutOfFuel => False
  end.
Proof.
  intros Hp Hs. unfold handle_ReadAt, remote_ReadAt, openRead. munfold.
  rewrite Hp. cbn. rewrite Hs. cbn.
  repeat (break_inner; cbn);
    first [ by exists [] | by eexists [_] | by eexists [_; _] ].
Qed.

(** X1.  A [Write] that returns has left the remote namespace and the
    metadata cache as they were, and has opened no remote writer, written to
    none, closed none and not dropped the connection: the only remote calls
    it can have made are the reads by which a file that was not staged is
    hydrated.  On a staged file it has made no remote call at all.  The size
    it reports lies between 0 and the length of the data and is that length
    when it returns no error; the handle's count of bytes written has grown
    by the reported size, also when the write failed half way. *)
Theorem Write_counts_and_never_uploads (fh : FileHandle) (req : WriteRequest)
    (w : World) (fh' : FileHandle) (resp : WriteResponse) (err : option error)
    (w' : World) :
  Write fh req w = Returns (fh', resp, err) w' ->
  readOnly w w' /\
  (forall p, handle (inode w) = Some p -> isStaged p = true -> quiet w w') /\
  attrCache w' = attrCache w /\
  0 <= wSize resp <= Z.of_nat (length (wData req)) /\
  (err = None -> wSize resp = Z.of_nat (length (wData req))) /\
  totalBytesWritten fh' = wrap64 (totalBytesWritten fh + wSize resp) /\
  tatalBytesRead fh' = tatalBytesRead fh.
Proof.
  intros Hw. split.
  { pose proof (readingOnly_Write fh req w) as Hq. by rewrite Hw in Hq. }
  split.
  { intros p Hp Hs. pose proof (Write_staged_quiet fh req w p Hp Hs) as Hq.
    by rewrite Hw in Hq. }
  revert Hw. unfold Write.
  destruct (upgradeHandleForWriting w) as [[] w1|w1|] eqn:Hu.
  2,3: unfold mbind, M_bind, bind; rewrite Hu; discriminate.
  rewrite (bind_Returns _ _ _ _ _ Hu).
  pose proof (upgrade_attrCache w w1 Hu) as Hc1.
  unfold handle_WriteAt. munfold.
  destruct (handle (inode w1)) as [p|]; [|discriminate]. cbn.
  pose proof (proxy_WriteAt_count (nextResp w1) (wData req) (wOffset req) p) as Hc.
  pose proof (proxy_WriteAt_full (nextResp w1) (wData req) (wOffset req) p) as Hf.
  destruct (proxy_WriteAt (nextResp w1) (wData req) (wOffset req) p)
    as [[nw [e|]] p'] eqn:E; cbn in *.
  all: intros [= <- <- <- <-]; cbn.
  all: repeat split; try done; try lia. all: auto.
Qed.

(** A byte is written into a file that is not staged: the file is hydrated
    from the remote "abc", the staging file holds "axc", and the remote
    namespace is as it was. *)
Lemma Write_counts_and_never_uploads_witness :
  exists fh' w',
    Write cleanHandle (mkWriteReq [x78] 1) (unstagedWorld [])
      = Returns (fh', mkWriteResp 1, None) w' /\
    totalBytesWritten fh' = 1 /\ dfs w' = {[ "/dir/file" := bytes_abc ]} /\
    staged w' = Some [x61; x78; x63].
Proof.
  do 2 eexists. split; [vm_compute; reflexivity|].
  match goal with
  | |- totalBytesWritten ?f = _ /\ dfs ?x = _ /\ _ =>
      destruct (Write_counts_and_never_uploads cleanHandle (mkWriteReq [x78] 1)
                  (unstagedWorld []) f (mkWriteResp 1) None x)
        as ((Hd & _) & _ & _ & _ & _ & Hn & _)
  end.
  - vm_compute. reflexivity.
  - split; [rewrite Hn; reflexivity|]. split; [rewrite Hd; reflexivity|reflexivity].
Defined.

(** X2.  A [Read] that returns has changed neither the remote namespace nor
    the inode (the staging file is as it was) nor the metadata cache, and has
    opened no remote writer and not dropped the connection.  On a staged file
    it has made no remote call at all; on a file that is not staged its first
    call opens the remote file for reading.  It hands over at most
    [req.Size] bytes, and the handle's count of bytes read has grown by the
    number of bytes handed over, also at the end of the file and when the
    read failed. *)
Theorem Read_counts_and_never_uploads (fh : FileHandle) (req : ReadRequest)
    (resp : ReadResponse) (w : World) (fh' : FileHandle) (resp' : ReadResponse)
    (err : option error) (w' : World) :
  Read fh req resp w = Returns (fh', resp', err) w' ->
  readOnly w w' /\
  (forall p, handle (inode w) = Some p -> isStaged p = true -> quiet w w') /\
  (forall p, handle (inode w) = Some p -> isStaged p = false ->
     exists t, trace w' = (t ++ EvOpenRead (AbsolutePath (inode w)) :: trace w)%list) /\
  inode w' = inode w /\
  attrCache w' = attrCache w /\
  Z.of_nat (length (rData resp')) <= rSize req /\
  tatalBytesRead fh'
    = wrap64 (tatalBytesRead fh + Z.of_nat (length (rData resp'))) /\
  totalBytesWritten fh' = totalBytesWritten fh.
Proof.
  intros Hr. split.
  { pose proof (readingOnly_Read fh req resp w) as Hq. by rewrite Hr in Hq. }
  split.
  { intros p Hp Hs. pose proof (Read_staged_quiet fh req resp w p Hp Hs) as Hq.
    by rewrite Hr in Hq. }
  revert Hr. unfold Read.
  destruct (rSize req <? 0) eqn:H0; [discriminate|].
  destruct (Z.of_nat (rCap resp) <? rSize req) eqn:H1; [discriminate|].
  cbn [orb].
  pose proof (handle_ReadAt_frame (Z.to_nat (rSize req)) (rOffset req) w) as Hfr.
  pose proof (handle_ReadAt_unstaged (Z.to_nat (rSize req)) (rOffset req) w) as Hun.
  destruct (handle_ReadAt (Z.to_nat (rSize req)) (rOffset req) w)
    as [[bs e0] w1|w1|] eqn:Hra.
  2,3: unfold mbind, M_bind, bind; rewrite Hra; discriminate.
  rewrite (bind_Returns _ _ _ _ _ Hra).
  destruct (Hfr bs e0 w1 eq_refl) as (Hlen & Hi & Hc).
  destruct e0 as [e|].
  - destruct (decide (e = io_EOF));
      rewrite (bind_Returns _ _ _ _ _ (logWith_eq _ _ _ _ _));
      intros [= <- <- <- <-]; cbn;
      (split; [intros p Hp Hs; destruct (Hun p Hp Hs) as [t Ht]; by exists t|]);
      repeat split; try done; lia.
  - intros [= <- <- <- <-]; cbn.
    split; [intros p Hp Hs; destruct (Hun p Hp Hs) as [t Ht]; by exists t|].
    repeat split; try done; lia.
Qed.

(** Five bytes asked for at offset 1 of a file that is not staged: the
    remote file "abc" is opened, sought and read, and "bc" is handed over. *)
Lemma Read_counts_and_never_uploads_witness :
  exists fh' w',
    Read sampleHandle (mkReadReq 1 5) (mkReadResp [] 5) (unstagedWorld [])
      = Returns (fh', mkReadResp [x62; x63] 5, None) w' /\
    tatalBytesRead fh' = 2 /\
    trace w' = [EvRemoteRead 5; EvRemoteSeek 1; EvOpenRead "/dir/file"].
Proof.
  do 2 eexists. split; [vm_compute; reflexivity|].
  match goal with
  | |- tatalBytesRead ?f = _ /\ trace ?x = _ =>
      destruct (Read_counts_and_never_uploads sampleHandle (mkReadReq 1 5)
                  (mkReadResp [] 5) (unstagedWorld []) f (mkReadResp [x62; x63] 5)
                  None x)
        as (_ & _ & _ & _ & _ & _ & Hn & _)
  end.
  - vm_compute. reflexivity.
  - split; [rewrite Hn; reflexivity|reflexivity].
Defined.
(** *** Writing, then reading *)

Lemma pread_pwrite q d off bs :
  data q = pwrite d off bs -> pread q off (length bs) = bs.
Proof.
  intros Hq. unfold pread. rewrite Hq. unfold pwrite.
  rewrite (app_assoc (take off d)).
  rewrite drop_app_length'.
  - by rewrite take_app_length.
  - rewrite length_app, length_take, length_replicate. lia.
Qed.

Lemma allPass_nextResp w : allPass (oracle w) -> passes (nextResp w) = true.
Proof.
  unfold allPass, nextResp. destruct (oracle w) as [|r o]; [done|].
  by intros [H _]%Forall_cons.
Qed.

Lemma allPass_tail o : allPass o -> allPass (tail o).
Proof. unfold allPass. destruct o as [|r o]; [done|]. by intros [_ H]%Forall_cons. Qed.

Lemma isStaged_ReadWrite p : mode p = ReadWrite -> isStaged p = true.
Proof. intros H. unfold isStaged. rewrite H. apply orb_true_r. Qed.

Lemma proxy_WriteAt_pass r bs off p :
  passes r = true -> 0 <= off -> mode p = ReadWrite ->
  proxy_WriteAt r bs off p
    = (Z.of_nat (length bs), None,
       mkProxy (pwrite (data p) (Z.to_nat off) bs) (cursor p) ReadWrite (populated p)).
Proof.
  intros Hr Hoff Hm. unfold proxy_WriteAt.
  replace (off <? 0) with false by lia. rewrite Hm. by destruct r.
Qed.

Lemma proxy_ReadAt_pass r len off p :
  passes r = true -> 0 <= off ->
  proxy_ReadAt r len off p
    = (pread p (Z.to_nat off) len,
       if (length (pread p (Z.to_nat off) len) <? len)%nat then Some io_EOF else None).
Proof.
  intros Hr Hoff. unfold proxy_ReadAt.
  replace (off <? 0) with false by lia. by destruct r.
Qed.

(** [upgradeHandleForWriting] when the oracle lets every call pass: the
    staging file is writable and holds the content of the file, which for a
    file that was not staged has come from the remote. *)
Lemma upgrade_pass w p d :
  handle (inode w) = Some p -> fileContent w p = Some d -> allPass (oracle w) ->
  exists w1 p1,
    upgradeHandleForWriting w = Returns tt w1 /\
    handle (inode w1) = Some p1 /\
    data p1 = d /\ mode p1 = ReadWrite /\
    allPass (oracle w1) /\ dfs w1 = dfs w /\
    AbsolutePath (inode w1) = AbsolutePath (inode w).
Proof.
  intros Hp Hd Ho. unfold upgradeHandleForWriting, hydrate, openRead. munfold.
  rewrite Hp. unfold fileContent, isStaged, remoteFile in Hd.
  pose proof (allPass_nextResp w Ho) as Hr.
  pose proof (allPass_tail _ Ho) as Ho1.
  pose proof (allPass_tail _ Ho1) as Ho2.
  pose proof (allPass_tail _ Ho2) as Ho3.
  assert (passes (default RespOk (head (tail (oracle w)))) = true) as Hr1
    by apply (allPass_nextResp (set_oracle (tail (oracle w)) w) Ho1).
  assert (passes (default RespOk (head (tail (tail (oracle w))))) = true) as Hr2
    by apply (allPass_nextResp (set_oracle (tail (tail (oracle w))) w) Ho2).
  destruct p as [dp c [|] [|]]; cbn in *.
  - injection Hd as <-.
    destruct (nextResp w); [|done|]; do 2 eexists; (split; [reflexivity|]); cbn;
      repeat split; done.
  - destruct (nextResp w); [|done|]; cbn; unfold nextResp; cbn;
      (destruct (default RespOk (head (tail (oracle w)))); [|done|]); cbn;
      rewrite Hd; cbn;
      (destruct (default RespOk (head (tail (tail (oracle w))))); [|done|]);
      cbn; do 2 eexists; (split; [reflexivity|]); cbn; repeat split; done.
  - injection Hd as <-. do 2 eexists. split; [reflexivity|]. rewrite Hp. done.
  - injection Hd as <-. do 2 eexists. split; [reflexivity|]. rewrite Hp. done.
Qed.

(** [Write] when the oracle lets every call pass. *)
Lemma Write_pass fh bs off w p d :
  handle (inode w) = Some p -> fileContent w p = Some d ->
  allPass (oracle w) -> 0 <= off ->
  exists w1 p1,
    Write fh (mkWriteReq bs off) w
      = Returns (set_totalBytesWritten
                   (wrap64 (totalBytesWritten fh + Z.of_nat (length bs))) fh,
                 mkWriteResp (Z.of_nat (length bs)), None) w1 /\
    handle (inode w1) = Some p1 /\
    data p1 = pwrite d (Z.to_nat off) bs /\ mode p1 = ReadWrite /\
    allPass (oracle w1) /\ dfs w1 = dfs w /\
    AbsolutePath (inode w1) = AbsolutePath (inode w).
Proof.
  intros Hp Hd Ho Hoff.
  destruct (upgrade_pass w p d Hp Hd Ho) as (w1 & p1 & Hu & Hp1 & Hd1 & Hm1 & Ho1 & Hdfs & Ha1).
  unfold Write. rewrite (bind_Returns _ _ _ _ _ Hu).
  unfold handle_WriteAt. munfold. rewrite Hp1. cbn.
  rewrite (proxy_WriteAt_pass (nextResp w1) bs off p1
             (allPass_nextResp w1 Ho1) Hoff Hm1).
  cbn. do 2 eexists. split; [reflexivity|]. cbn.
  repeat split; try done; [by rewrite Hd1|by apply allPass_tail].
Qed.

(** X3.  What is written is read back: when no call fails, a [Write] of
    [bs] at a non-negative offset returns [nil] with size [len(bs)], and a
    [Read] of [len(bs)] bytes at that offset right after it, through the same
    or any other handle of the inode, returns [nil] and exactly [bs].  This
    holds for every staged file, and for a file that is not staged when the
    remote file, from which the write hydrates the staging file, is there. *)
Theorem Write_then_Read_returns_data (fh : FileHandle) (bs : list byte)
    (off : Z) (cap : nat) (w : World) (p : FileProxy) :
  handle (inode w) = Some p ->
  is_Some (fileContent w p) ->
  allPass (oracle w) ->
  0 <= off ->
  (length bs <= cap)%nat ->
  exists fh1 w1,
    Write fh (mkWriteReq bs off) w
      = Returns (fh1, mkWriteResp (Z.of_nat (length bs)), None) w1 /\
    forall reader : FileHandle, exists reader' w2,
      Read reader (mkReadReq off (Z.of_nat (length bs))) (mkReadResp [] cap) w1
        = Returns (reader', mkReadResp bs cap, None) w2.
Proof.
  intros Hp [d Hd] Ho Hoff Hcap.
  destruct (Write_pass fh bs off w p d Hp Hd Ho Hoff)
    as (w1 & p1 & Hw & Hp1 & Hd1 & Hm1 & Ho1 & _ & _).
  do 2 eexists. split; [exact Hw|].
  intros reader.
  exists (set_tatalBytesRead (wrap64 (tatalBytesRead reader + Z.of_nat (length bs)))
            reader).
  eexists.
  unfold Read. cbn [rSize rCap rOffset].
  replace (Z.of_nat (length bs) <? 0) with false by lia.
  replace (Z.of_nat cap <? Z.of_nat (length bs)) with false by lia.
  cbn [orb]. unfold handle_ReadAt. munfold. rewrite Hp1. cbn.
  rewrite (isStaged_ReadWrite p1 Hm1). cbn.
  rewrite (proxy_ReadAt_pass _ _ _ _ (allPass_nextResp w1 Ho1) Hoff).
  rewrite Nat2Z.id, (pread_pwrite p1 d _ _ Hd1), Nat.ltb_irrefl. reflexivity.
Qed.

(** Two bytes written past the end of the sample file through handle 7 and
    read back through another handle. *)
Lemma Write_then_Read_returns_data_witness :
  exists fh1 w1 reader' w2,
    Write cleanHandle (mkWriteReq [x78; x79] 5) (sampleWorld [])
      = Returns (fh1, mkWriteResp 2, None) w1 /\
    Read (mkHandle 0 0 0 8) (mkReadReq 5 2) (mkReadResp [] 2) w1
      = Returns (reader', mkReadResp [x78; x79] 2, None) w2.
Proof.
  destruct (Write_then_Read_returns_data cleanHandle [x78; x79] 5 2 (sampleWorld [])
              sampleProxy eq_refl) as (fh1 & w1 & Hw & Hr).
  - by eexists.
  - constructor.
  - lia.
  - cbn. lia.
  - destruct (Hr (mkHandle 0 0 0 8)) as (reader' & w2 & Hr').
    exists fh1, w1, reader', w2. split; [exact Hw|exact Hr'].
Defined.

(** *** What flushing leaves as it is *)

Lemma keeps_refl w : keeps w w.
Proof. by repeat split. Qed.

Lemma keeps_trans w1 w2 w3 : keeps w1 w2 -> keeps w2 w3 -> keeps w1 w3.
Proof.
  intros (H1 & H2 & H3 & H4 & H5) (G1 & G2 & G3 & G4 & G5).
  repeat split; congruence.
Qed.

Lemma keeping_ret {A} (a : A) : keeping (mret a).
Proof. intros w. apply keeps_refl. Qed.

Lemma keeping_bind {A B} (m : M A) (k : A -> M B) :
  keeping m -> (forall a, keeping (k a)) -> keeping (m ≫= k).
Proof.
  intros Hm Hk w. specialize (Hm w). unfold mbind, M_bind, bind.
  destruct (m w) as [a w'| |]; auto.
  specialize (Hk a w'). destruct (k a w'); eauto using keeps_trans.
Qed.

Lemma keeping_defer {A} (d : M unit) (m : M A) :
  keeping d -> keeping m -> keeping (defer d m).
Proof.
  intros Hd Hm w. specialize (Hm w). unfold defer.
  destruct (m w) as [a w'|w'|]; auto.
  all: specialize (Hd w'); destruct (d w'); eauto using keeps_trans.
Qed.

Lemma proxy_SeekToStart_keeps r p :
  data (proxy_SeekToStart r p).2 = data p /\ mode (proxy_SeekToStart r p).2 = mode p.
Proof. unfold proxy_SeekToStart. by destruct r. Qed.

Lemma proxy_Read_keeps r len p :
  data (proxy_Read r len p).2 = data p /\ mode (proxy_Read r len p).2 = mode p.
Proof.
  unfold proxy_Read. destruct r as [|n e|k]; [|done|].
  all: destruct len; [done|]; destruct (take _ _); done.
Qed.

Ltac keep_step :=
  intros w; munfold; cbn;
  repeat (break_inner; cbn);
  try (by repeat split).

Lemma keeping_get : keeping get.
Proof. keep_step. Qed.

Lemma keeping_logWith l msg fh f : keeping (logWith l msg fh f).
Proof. keep_step. Qed.

Lemma keeping_handle_SeekToStart : keeping handle_SeekToStart.
Proof.
  intros w. destruct (handle (inode w)) as [p|] eqn:Hp.
  - rewrite (handle_SeekToStart_eq w p Hp).
    destruct (proxy_SeekToStart_keeps (nextResp w) p) as [Hd Hm].
    unfold keeps, staged. cbn. rewrite Hp. cbn. rewrite Hd, Hm. done.
  - unfold handle_SeekToStart. rewrite handle_nil_panics by done. apply keeps_refl.
Qed.

Lemma keeping_handle_Read len : keeping (handle_Read len).
Proof.
  intros w. destruct (handle (inode w)) as [p|] eqn:Hp.
  - rewrite (handle_Read_eq len w p Hp).
    destruct (proxy_Read_keeps (nextResp w) len p) as [Hd Hm].
    unfold keeps, staged. cbn. rewrite Hp. cbn. rewrite Hd, Hm. done.
  - unfold handle_Read. rewrite handle_nil_panics by done. apply keeps_refl.
Qed.

Lemma keeping_CreateFile path perm ov : keeping (CreateFile path perm ov).
Proof. unfold CreateFile. keep_step. Qed.

Lemma keeping_writer_Write wr bs : keeping (writer_Write wr bs).
Proof. unfold writer_Write, appendTo. keep_step. Qed.

Lemma keeping_writer_Close wr : keeping (writer_Close wr).
Proof. unfold writer_Close. keep_step. Qed.

Lemma keeping_connector_Close : keeping connector_Close.
Proof. unfold connector_Close. keep_step. Qed.

Lemma keeping_InvalidateMetadataCache : keeping InvalidateMetadataCache.
Proof. unfold InvalidateMetadataCache. keep_step. Qed.

Lemma keeping_streamFuel : keeping streamFuel.
Proof. unfold streamFuel. keep_step. Qed.

Lemma keeping_copyFuel : keeping copyFuel.
Proof. unfold copyFuel. keep_step. Qed.

Lemma keeping_StartOperation : keeping StartOperation.
Proof. unfold StartOperation. keep_step. Qed.

Lemma keeping_ShouldRetry cls op msg err : keeping (ShouldRetry cls op msg err).
Proof. unfold ShouldRetry. keep_step. Qed.

Create HintDb keeping.

#[local] Hint Resolve keeping_ret keeping_get keeping_logWith
  keeping_handle_SeekToStart keeping_handle_Read keeping_CreateFile
  keeping_writer_Write keeping_writer_Close keeping_connector_Close
  keeping_InvalidateMetadataCache keeping_streamFuel keeping_copyFuel
  keeping_StartOperation keeping_ShouldRetry : keeping.

Ltac keeping_auto :=
  repeat first
    [ progress auto with keeping
    | apply keeping_bind; [|intros ?]
    | apply keeping_defer
    | match goal with
      | |- keeping (match ?x with _ => _ end) => destruct x
      | |- keeping (if ?x then _ else _) => destruct x
      end ].

Lemma keeping_streamLoop fuel operation fh wr :
  forall blen written, keeping (streamLoop fuel operation fh wr blen written).
Proof.
  induction fuel as [|fuel IH]; intros blen written; [by intros w|].
  cbn [streamLoop]. keeping_auto.
Qed.

Lemma keeping_FlushAttempt operation fh : keeping (FlushAttempt operation fh).
Proof. unfold FlushAttempt. pose proof keeping_streamLoop. keeping_auto. Qed.

Lemma keeping_copyLoop cls fuel operation fh :
  forall op, keeping (copyLoop cls fuel operation fh op).
Proof.
  induction fuel as [|fuel IH]; intros op; [by intros w|].
  cbn [copyLoop]. pose proof keeping_FlushAttempt. keeping_auto.
Qed.

Lemma keeping_copyToDFS cls operation fh : keeping (copyToDFS cls operation fh).
Proof. unfold copyToDFS. pose proof keeping_copyLoop. keeping_auto. Qed.

Lemma keeping_Flush cls fh : keeping (Flush cls fh).
Proof. unfold Flush. pose proof keeping_copyToDFS. keeping_auto. Qed.

Lemma keeping_Fsync cls fh : keeping (Fsync cls fh).
Proof. unfold Fsync. pose proof keeping_copyToDFS. keeping_auto. Qed.

(** *** Flushing when nothing fails *)

Lemma allPass_readsPass o : allPass o -> readsPass o = true.
Proof.
  unfold allPass. revert o.
  assert (forall n o, (length o <= n)%nat ->
            Forall (fun r => passes r = true) o -> readsPass o = true) as H.
  { induction n as [|n IH]; intros [|r [|r' o]] Hlen Ho; cbn in *; try done; try lia.
    - apply Forall_cons in Ho as [-> _]. done.
    - apply Forall_cons in Ho as [-> Ho]. apply Forall_cons in Ho as [_ Ho].
      cbn. apply IH; [lia|done]. }
  intros o. by apply (H (length o)).
Qed.

(** With every call passing, the streaming loop leaves by [break]. *)
Lemma streamLoop_succeeds fuel operation fh wr :
  forall blen written w,
    is_Some (handle (inode w)) -> allPass (oracle w) ->
    (remaining w < fuel)%nat -> (1 <= blen)%nat ->
    exists written' w',
      streamLoop fuel operation fh wr blen written w = Returns (Break written') w' /\
      allPass (oracle w').
Proof.
  induction fuel as [|fuel IH]; intros blen written w [p Hp] Ho Hfuel Hblen; [lia|].
  cbn [streamLoop].
  rewrite (bind_Returns _ _ _ _ _ (handle_Read_eq blen w p Hp)).
  pose proof (allPass_nextResp w Ho) as Hr.
  destruct (proxy_Read (nextResp w) blen p) as [[bs [e|]] p'] eqn:E; cbn [fst snd].
  - apply (proxy_Read_stop _ _ _ _ _ _ Hr) in E as (-> & -> & -> & _).
    destruct (decide (io_EOF = io_EOF)); [|done].
    do 2 eexists. split; [reflexivity|]. cbn. by apply allPass_tail.
  - apply proxy_Read_ok in E as (Hbs & -> & _ & Hlen & _). specialize (Hlen Hblen).
    set (w1 := withProxy _ _).
    assert (allPass (oracle w1)) as Ho1 by (by apply allPass_tail).
    rewrite (bind_Returns _ _ _ _ _
               (writer_Write_pass _ _ _ (allPass_nextResp w1 Ho1))).
    rewrite (bind_Returns _ _ _ _ _ (logWith_eq _ _ _ _ _)).
    apply IH; [by eexists|by apply allPass_tail| |lia].
    cbn. unfold remaining in Hfuel. rewrite Hp in Hfuel.
    pose proof (length_unread_read p (length bs) Hlen) as Hlt.
    rewrite <- Hbs in Hlt. specialize (Hlt eq_refl). cbn in Hlt. lia.
Qed.

(** With every call passing and a staging proxy in place, an attempt returns
    [nil]. *)
Lemma FlushAttempt_succeeds operation fh w :
  is_Some (handle (inode w)) -> allPass (oracle w) ->
  exists w', FlushAttempt operation fh w = Returns None w' /\ allPass (oracle w').
Proof.
  intros [p Hp] Ho. unfold FlushAttempt.
  rewrite (bind_Returns get _ w w w eq_refl).
  rewrite (bind_Returns _ _ _ _ _ (CreateFile_pass _ _ _ (allPass_nextResp w Ho))).
  set (w1 := set_connected _ _).
  assert (handle (inode w1) = Some p) as Hp1 by exact Hp.
  assert (allPass (oracle w1)) as Ho1 by (by apply allPass_tail).
  rewrite (bind_Returns _ _ _ _ _ (handle_SeekToStart_eq _ _ Hp1)).
  pose proof (allPass_nextResp w1 Ho1) as Hr1.
  assert (proxy_SeekToStart (nextResp w1) p = (None, mkProxy (data p) 0%nat (mode p) (populated p)))
    as -> by (unfold proxy_SeekToStart; by destruct (nextResp w1)).
  cbn [fst snd].
  set (w2 := withProxy _ _).
  rewrite (bind_Returns streamFuel _ w2 (S (length (data p))) w2 eq_refl).
  destruct (streamLoop_succeeds (S (length (data p))) operation fh
              (mkWriter (AbsolutePath (inode w))) bufSize 0 w2)
    as (written & w3 & Hl & Ho3).
  - by eexists.
  - by apply allPass_tail.
  - subst w2. rewrite remaining_withProxy. unfold unread. rewrite length_drop. cbn. lia.
  - apply bufSize_pos.
  - rewrite (bind_Returns _ _ _ _ _ Hl).
    rewrite (bind_Returns _ _ _ _ _ (writer_Close_eq _ _)).
    pose proof (allPass_nextResp w3 Ho3) as Hr3.
    destruct (nextResp w3); [|done|];
      rewrite (bind_Returns _ _ _ _ _ (logWith_eq _ _ _ _ _));
      eexists; (split; [reflexivity|]); cbn; by apply allPass_tail.
Qed.

(** With every call passing, [Flush] and [Fsync] of a handle that has written
    bytes upload the staging file. *)
Lemma Flush_all_pass (cls : option error -> bool) (fh : FileHandle)
    (w : World) (p : FileProxy) :
  handle (inode w) = Some p ->
  0 < totalBytesWritten fh ->
  allPass (oracle w) ->
  (exists w',
     Flush cls fh w = Returns None w' /\
     remoteFile w' = Some (data p) /\ staged w' = Some (data p) /\
     AbsolutePath (inode w) ∉ attrCache w') /\
  (exists w',
     Fsync cls fh w = Returns None w' /\
     remoteFile w' = Some (data p) /\ staged w' = Some (data p) /\
     AbsolutePath (inode w) ∉ attrCache w').
Proof.
  intros Hp Hpos Ho.
  assert (forall operation (w0 : World),
            inode w0 = inode w -> oracle w0 = oracle w ->
            exists w',
              copyToDFS cls operation fh w0 = Returns None w' /\
              remoteFile w' = Some (data p) /\ staged w' = Some (data p) /\
              AbsolutePath (inode w) ∉ attrCache w') as Hcopy.
  { intros operation w0 Hi Hor.
    rewrite copyToDFS_eq by lia. set (w1 := logged _ _ _ _ w0).
    assert (handle (inode w1) = Some p) as Hp1 by (cbn; by rewrite Hi).
    assert (allPass (oracle w1)) as Ho1 by (cbn; by rewrite Hor).
    destruct (FlushAttempt_succeeds operation fh w1 (ex_intro _ p Hp1) Ho1)
      as (w2 & Ha & _).
    rewrite (copyLoop_S _ _ _ _ _ _ _ _ Ha). cbn [bool_decide andb].
    rewrite bool_decide_eq_false_2 by done. cbn [andb].
    destruct (FlushAttempt_delivers operation fh w1 p w2 Hp1) as (Hrem & (p2 & Hp2 & Hd2) & _);
      [by apply allPass_readsPass, allPass_tail, allPass_tail|done|].
    pose proof (keeping_FlushAttempt operation fh w1) as Hk. rewrite Ha in Hk.
    destruct Hk as (Hpath & _).
    eexists. split; [reflexivity|]. split; [exact Hrem|].
    split; [unfold staged; cbn; by rewrite Hp2, <- Hd2|].
    cbn. rewrite Hpath. cbn. rewrite Hi.
    intros [_ Hn]%elem_of_difference. apply Hn. by apply elem_of_singleton. }
  rewrite Flush_eq, Fsync_eq. replace (0 <? totalBytesWritten fh) with true by lia.
  split; by apply Hcopy.
Qed.


(** X4.  When no call fails, [Flush] and [Fsync] of a handle that has written
    bytes return [nil], the remote file is then the content of the staging
    file, the staging file still has that content, and the cached metadata
    of the path is gone. *)
Theorem Flush_uploads_staging (cls : option error -> bool) (fh : FileHandle)
    (w : World) (p : FileProxy) :
  handle (inode w) = Some p ->
  0 < totalBytesWritten fh ->
  allPass (oracle w) ->
  (exists w',
     Flush cls fh w = Returns None w' /\
     remoteFile w' = Some (data p) /\ staged w' = Some (data p) /\
     AbsolutePath (inode w) ∉ attrCache w') /\
  (exists w',
     Fsync cls fh w = Returns None w' /\
     remoteFile w' = Some (data p) /\ staged w' = Some (data p) /\
     AbsolutePath (inode w) ∉ attrCache w').
Proof. apply Flush_all_pass. Qed.

Lemma Flush_uploads_staging_witness :
  exists w',
    Flush IsSuccessOrNonRetriableError_spec sampleHandle (sampleWorld [RespShort 0])
      = Returns None w' /\
    remoteFile w' = Some bytes_abc.
Proof.
  destruct (Flush_uploads_staging IsSuccessOrNonRetriableError_spec sampleHandle
              (sampleWorld [RespShort 0]) sampleProxy eq_refl)
    as [(w' & Hf & Hr & _) _].
  - cbn. lia.
  - by repeat constructor.
  - exists w'. split; [exact Hf|exact Hr].
Defined.

(** X5.  A write reaches the remote file with the next flush: when no call
    fails, a [Write] of a non-empty [bs] at a non-negative offset followed by
    a [Flush] on the same handle returns [nil] twice, and the remote file is
    then the content of the file with [bs] stored at that offset, so that it
    holds [bs] at the offset of the write.  The content of the file is the
    staged content, and for a file that is not staged the remote file, with
    which the write hydrates the staging file. *)
Theorem Write_then_Flush_uploads_write (cls : option error -> bool)
    (fh : FileHandle) (bs : list byte) (off : Z) (w : World) (p : FileProxy)
    (d : list byte) :
  handle (inode w) = Some p ->
  fileContent w p = Some d ->
  allPass (oracle w) ->
  0 <= off ->
  bs <> [] ->
  0 <= totalBytesWritten fh ->
  totalBytesWritten fh + Z.of_nat (length bs) < 2 ^ 63 ->
  exists fh1 w1 w2 remote,
    Write fh (mkWriteReq bs off) w
      = Returns (fh1, mkWriteResp (Z.of_nat (length bs)), None) w1 /\
    Flush cls fh1 w1 = Returns None w2 /\
    remoteFile w2 = Some remote /\
    remote = pwrite d (Z.to_nat off) bs /\
    take (length bs) (drop (Z.to_nat off) remote) = bs.
Proof.
  intros Hp Hd Ho Hoff Hne Hnn Hlt.
  destruct (Write_pass fh bs off w p d Hp Hd Ho Hoff)
    as (w1 & p1 & Hw & Hp1 & Hd1 & _ & Ho1 & _ & _).
  set (fh1 := set_totalBytesWritten _ fh) in Hw.
  assert (0 < totalBytesWritten fh1) as Hpos.
  { subst fh1. cbn. rewrite wrap64_id by (unfold in_int64; lia).
    destruct bs; [done|]. cbn [length]. lia. }
  destruct (Flush_all_pass cls fh1 w1 _ Hp1 Hpos Ho1) as [(w2 & Hf & Hr & _) _].
  exists fh1, w1, w2, (pwrite d (Z.to_nat off) bs).
  split; [exact Hw|]. split; [exact Hf|]. split; [by rewrite Hr, Hd1|]. split; [done|].
  apply (pread_pwrite (mkProxy (pwrite d (Z.to_nat off) bs) 0%nat ReadWrite true) d).
  reflexivity.
Qed.

(** A byte written into the staged sample file, and a byte written into a
    file that is not staged: in both cases the flush leaves "axc" in the
    remote file. *)
Lemma Write_then_Flush_uploads_write_witness :
  (exists fh1 w1 w2,
     Write cleanHandle (mkWriteReq [x78] 1) (sampleWorld [])
       = Returns (fh1, mkWriteResp 1, None) w1 /\
     Flush IsSuccessOrNonRetriableError_spec fh1 w1 = Returns None w2 /\
     remoteFile w2 = Some [x61; x78; x63]) /\
  (exists fh1 w1 w2,
     Write cleanHandle (mkWriteReq [x78] 1) (unstagedWorld [])
       = Returns (fh1, mkWriteResp 1, None) w1 /\
     Flush IsSuccessOrNonRetriableError_spec fh1 w1 = Returns None w2 /\
     remoteFile w2 = Some [x61; x78; x63]).
Proof.
  split.
  - destruct (Write_then_Flush_uploads_write IsSuccessOrNonRetriableError_spec
                cleanHandle [x78] 1 (sampleWorld []) sampleProxy bytes_abc eq_refl
                eq_refl)
      as (fh1 & w1 & w2 & remote & Hw & Hf & Hr & -> & _).
    + constructor.
    + lia.
    + done.
    + cbn. lia.
    + cbn. lia.
    + exists fh1, w1, w2. split; [exact Hw|]. split; [exact Hf|exact Hr].
  - destruct (Write_then_Flush_uploads_write IsSuccessOrNonRetriableError_spec
                cleanHandle [x78] 1 (unstagedWorld [])
                (mkProxy [] 0%nat ReadOnly false) bytes_abc eq_refl eq_refl)
      as (fh1 & w1 & w2 & remote & Hw & Hf & Hr & -> & _).
    + constructor.
    + lia.
    + done.
    + cbn. lia.
    + cbn. lia.
    + exists fh1, w1, w2. split; [exact Hw|]. split; [exact Hf|exact Hr].
Defined.

(** X6.  A write that stored at least one byte marks the handle as changed,
    whether or not it returned an error: short of an overflow of the count,
    the next [Flush] of the handle opens a remote writer. *)
Theorem Write_of_a_byte_makes_Flush_upload (cls : option error -> bool)
    (fh : FileHandle) (req : WriteRequest) (w : World) (fh' : FileHandle)
    (resp : WriteResponse) (err : option error) (w' : World) :
  Write fh req w = Returns (fh', resp, err) w' ->
  0 < wSize resp ->
  0 <= totalBytesWritten fh ->
  totalBytesWritten fh + Z.of_nat (length (wData req)) < 2 ^ 63 ->
  dataChanged fh' = true /\
  forall w2, exists w3 t,
    final (Flush cls fh' w2) = Some w3 /\
    trace w3 = (t ++ EvCreateFile (AbsolutePath (inode w2)) (Mode (inode w2)) true
                  :: trace w2)%list.
Proof.
  intros Hw Hsz Hnn Hlt.
  destruct (Write_counts_up _ _ _ _ _ _ _ Hw) as (Hrange & Hcount & _).
  assert (0 < totalBytesWritten fh') as Hpos.
  { rewrite Hcount, wrap64_id; unfold in_int64; lia. }
  split.
  { unfold dataChanged. by replace (0 <? totalBytesWritten fh') with true by lia. }
  intros w2. rewrite Flush_eq. replace (0 <? totalBytesWritten fh') with true by lia.
  destruct (copyToDFS_contacts_remote cls Oper.Flush fh'
              (logged LInfo "Flush file" fh' {[ Fld.Operation := VStr Oper.Flush ]} w2))
    as (w3 & t & Hf & Ht); [lia|].
  exists w3, t. split; [exact Hf|exact Ht].
Qed.

(** A write of "abc" that fails after two bytes: the handle is changed. *)
Lemma Write_of_a_byte_makes_Flush_upload_witness :
  exists fh' w',
    Write cleanHandle (mkWriteReq bytes_abc 0) (sampleWorld [RespFail 2 ErrLocalIO])
      = Returns (fh', mkWriteResp 2, Some ErrLocalIO) w' /\
    dataChanged fh' = true.
Proof.
  do 2 eexists. split; [vm_compute; reflexivity|].
  match goal with
  | |- dataChanged ?f = true =>
      refine (proj1 (Write_of_a_byte_makes_Flush_upload
                IsSuccessOrNonRetriableError_spec cleanHandle
                (mkWriteReq bytes_abc 0) (sampleWorld [RespFail 2 ErrLocalIO])
                f (mkWriteResp 2) (Some ErrLocalIO) _ _ _ _ _))
  end.
  - vm_compute. reflexivity.
  - cbn. lia.
  - cbn. lia.
  - cbn. lia.
Defined.

(** X7.  [Truncate] works on the staging file alone.  Whatever it answers,
    nothing reaches the remote file system, the cached metadata of the path
    is kept, and the handle's count of written bytes is not touched, so that
    [Flush] and [Fsync] of a handle that has written nothing still do nothing
    after it.  When the staging file takes the new size, the staged content
    is cut or padded to it. *)
Theorem Truncate_stays_local (cls : option error -> bool) (fh : FileHandle)
    (size : Z) (w : World) (err : option error) (w' : World) :
  Truncate fh size w = Returns err w' ->
  quiet w w' /\
  attrCache w' = attrCache w /\
  (totalBytesWritten fh = 0 ->
     Flush cls fh w' = Returns None w' /\ Fsync cls fh w' = Returns None w') /\
  (forall p, handle (inode w) = Some p -> passes (nextResp w) = true -> 0 <= size ->
     staged w' = Some (ptruncate (data p) (Z.to_nat size))).
Proof.
  intros Ht.
  split. { pose proof (quietly_Truncate fh size w) as Hq. by rewrite Ht in Hq. }
  split.
  { revert Ht. unfold Truncate, handle_Truncate. munfold. cbn.
    repeat (break_inner; cbn); try done; by intros [= _ <-]. }
  split.
  { intros Hz. rewrite Flush_eq, Fsync_eq, Hz. done. }
  intros p Hp Hpass Hsz. revert Ht.
  unfold Truncate, handle_Truncate. munfold. cbn. rewrite Hp. cbn.
  unfold proxy_Truncate. destruct (nextResp w); try done;
    replace (size <? 0) with false by lia; cbn; by intros [= _ <-].
Qed.

(** The three-byte sample file is cut to one byte: the remote side has seen
    no call. *)
Lemma Truncate_stays_local_witness :
  exists w',
    Truncate cleanHandle 1 (sampleWorld []) = Returns None w' /\
    quiet (sampleWorld []) w' /\
    staged w' = Some [x61].
Proof.
  eexists. split; [vm_compute; reflexivity|].
  match goal with
  | |- quiet _ ?w' /\ _ =>
      destruct (Truncate_stays_local IsSuccessOrNonRetriableError_spec cleanHandle 1
                  (sampleWorld []) None w') as (Hq & _ & _ & Hs)
  end.
  - vm_compute. reflexivity.
  - split; [exact Hq|]. apply (Hs sampleProxy); [reflexivity|reflexivity|lia].
Defined.

(** [copyToDFS] always ends, and it ends with the cache invalidation. *)
Lemma copyToDFS_invalidates cls operation fh w :
  totalBytesWritten fh <> 0 ->
  exists w',
    final (copyToDFS cls operation fh w) = Some w' /\
    (AbsolutePath (inode w) ∉ attrCache w') /\
    head (trace w') = Some (EvInvalidateMetadataCache (AbsolutePath (inode w))).
Proof.
  intros Hne. rewrite (copyToDFS_eq _ _ _ _ Hne).
  set (w0 := logged _ _ _ _ w).
  pose proof (copyLoop_total cls (S (MaxAttempts (retryPolicy w))) operation fh
                (mkOp 1) w0) as Htot.
  pose proof (keeping_copyLoop cls (S (MaxAttempts (retryPolicy w))) operation fh
                (mkOp 1) w0) as Hk.
  destruct (copyLoop _ _ _ _ _ w0) as [err w1|w1|].
  3: { exfalso. apply Htot; [cbn; lia|done]. }
  all: destruct Hk as (Hpath & _); exists (invalidated w1);
    split; [done|]; cbn; rewrite Hpath; cbn; split; [|done];
    intros [_ Hn]%elem_of_difference; apply Hn; by apply elem_of_singleton.
Qed.

(** X8.  The deferred cache invalidation of [copyToDFS] runs on every way
    out.  When the handle has written bytes, [copyToDFS] ends, with or
    without an error or by a panic, and in the world it leaves the cached
    metadata of the inode's path is gone and the invalidation is the last
    call made.  The same holds for [Flush] and [Fsync] of a handle whose
    count of written bytes is positive. *)
Theorem copyToDFS_always_invalidates (cls : option error -> bool)
    (operation : string) (fh : FileHandle) (w : World) :
  (totalBytesWritten fh <> 0 ->
     exists w',
       final (copyToDFS cls operation fh w) = Some w' /\
       (AbsolutePath (inode w) ∉ attrCache w') /\
       head (trace w') = Some (EvInvalidateMetadataCache (AbsolutePath (inode w)))) /\
  (0 < totalBytesWritten fh ->
     (exists w',
        final (Flush cls fh w) = Some w' /\
        (AbsolutePath (inode w) ∉ attrCache w') /\
        head (trace w') = Some (EvInvalidateMetadataCache (AbsolutePath (inode w)))) /\
     (exists w',
        final (Fsync cls fh w) = Some w' /\
        (AbsolutePath (inode w) ∉ attrCache w') /\
        head (trace w') = Some (EvInvalidateMetadataCache (AbsolutePath (inode w))))).
Proof.
  split; [apply copyToDFS_invalidates|].
  intros Hpos. rewrite Flush_eq, Fsync_eq.
  replace (0 <? totalBytesWritten fh) with true by lia.
  split.
  - destruct (copyToDFS_invalidates cls Oper.Flush fh
                (logged LInfo "Flush file" fh {[ Fld.Operation := VStr Oper.Flush ]} w))
      as (w' & Hf & Hc & Ht); [lia|].
    exists w'. split; [exact Hf|]. split; [exact Hc|exact Ht].
  - destruct (copyToDFS_invalidates cls Oper.Fsync fh
                (logged LInfo "Fsync file" fh {[ Fld.Operation := VStr Oper.Fsync ]} w))
      as (w' & Hf & Hc & Ht); [lia|].
    exists w'. split; [exact Hf|]. split; [exact Hc|exact Ht].
Qed.

(** A flush whose [CreateFile] is refused: the error is returned and the
    cached metadata of "/dir/file" is gone. *)
Lemma copyToDFS_always_invalidates_witness :
  exists w',
    final (Flush IsSuccessOrNonRetriableError_spec sampleHandle
             (sampleWorld [RespFail 0 ErrPermissionDenied])) = Some w' /\
    ("/dir/file" ∉ attrCache w').
Proof.
  destruct (proj1 (proj2 (copyToDFS_always_invalidates
                            IsSuccessOrNonRetriableError_spec Oper.Flush sampleHandle
                            (sampleWorld [RespFail 0 ErrPermissionDenied]))
                     ltac:(cbn; lia)))
    as (w' & Hf & Hc & _).
  exists w'. split; [exact Hf|exact Hc].
Defined.

(** X10.  A flush that failed can be repeated.  [Flush] and [Fsync] never
    change the content of the staging file or the handle, so after a [Flush]
    that returned an error the staging file still holds what was written, and
    a later [Flush] during which no call fails returns [nil] and leaves the
    whole staged content in the remote file. *)
Theorem Flush_can_be_repeated_after_failure (cls : option error -> bool)
    (fh : FileHandle) (w : World) (p : FileProxy) (e : error) (w1 : World) :
  handle (inode w) = Some p ->
  0 < totalBytesWritten fh ->
  Flush cls fh w = Returns (Some e) w1 ->
  staged w1 = Some (data p) /\
  forall w2,
    inode w2 = inode w1 -> allPass (oracle w2) ->
    exists w3,
      Flush cls fh w2 = Returns None w3 /\
      remoteFile w3 = Some (data p) /\
      staged w3 = Some (data p).
Proof.
  intros Hp Hpos Hf.
  pose proof (keeping_Flush cls fh w) as Hk. rewrite Hf in Hk.
  destruct Hk as (_ & _ & Hs & _).
  assert (staged w1 = Some (data p)) as Hs1.
  { rewrite Hs. unfold staged. by rewrite Hp. }
  split; [exact Hs1|].
  intros w2 Hi Ho. unfold staged in Hs1. rewrite <- Hi in Hs1.
  destruct (handle (inode w2)) as [p2|] eqn:Hp2; [|done].
  injection Hs1 as Hd.
  destruct (Flush_all_pass cls fh w2 p2 Hp2 Hpos Ho) as [(w3 & Hf3 & Hr & Hst & _) _].
  exists w3. rewrite <- Hd. split; [exact Hf3|]. split; [exact Hr|exact Hst].
Qed.

(** The first flush of "abc" is refused by the remote side; the second one
    uploads "abc". *)
Lemma Flush_can_be_repeated_after_failure_witness :
  exists w1 w3,
    Flush IsSuccessOrNonRetriableError_spec sampleHandle
      (sampleWorld [RespFail 0 ErrPermissionDenied])
      = Returns (Some ErrPermissionDenied) w1 /\
    Flush IsSuccessOrNonRetriableError_spec sampleHandle w1 = Returns None w3 /\
    remoteFile w3 = Some bytes_abc.
Proof.
  eexists.
  match goal with
  | |- exists w3, _ = Returns _ ?w1 /\ _ =>
      destruct (Flush_can_be_repeated_after_failure IsSuccessOrNonRetriableError_spec
                  sampleHandle (sampleWorld [RespFail 0 ErrPermissionDenied])
                  sampleProxy ErrPermissionDenied w1 eq_refl) as (_ & Hagain)
  end.
  - cbn. lia.
  - vm_compute. reflexivity.
  - match type of Hagain with
    | forall w2, inode w2 = inode ?w -> _ =>
        specialize (Hagain w (@eq_refl _ (inode w)))
    end.
    match type of Hagain with
    | ?P -> _ => assert P as Ho by (vm_compute; constructor)
    end.
    destruct (Hagain Ho) as (w3 & Hf & Hr & _).
    exists w3. split; [vm_compute; reflexivity|]. split; [exact Hf|exact Hr].
Defined.

Lemma tally_app P t1 t2 : tally P (t1 ++ t2) = (tally P t1 + tally P t2)%nat.
Proof. unfold tally. by rewrite List.filter_app, length_app. Qed.

Lemma tally_stream P t :
  (forall e, isStream e = true -> P e = false) ->
  Forall (fun e => isStream e = true) t -> tally P t = 0%nat.
Proof.
  intros HP Ht. induction Ht as [|e t He _ IH]; [done|].
  unfold tally in *. cbn. by rewrite (HP e He).
Qed.

(** The calls of the streaming loop: reads and writes, and as the newest one
    the close of the writer when the loop is left by [return]. *)
Lemma streamLoop_trace fuel operation fh wr :
  forall blen written w,
    match streamLoop fuel operation fh wr blen written w with
    | Returns x w' =>
        exists t,
          trace w' = ((match x with
                       | Return _ => [EvWriterClose (wpath wr)]
                       | Break _ => []
                       end ++ t) ++ trace w)%list /\
          Forall (fun e => isStream e = true) t
    | Panics w' =>
        exists t, trace w' = (t ++ trace w)%list /\
                  Forall (fun e => isStream e = true) t
    | OutOfFuel => True
    end.
Proof.
  induction fuel as [|fuel IH]; intros blen written w; [done|].
  cbn [streamLoop].
  destruct (handle (inode w)) as [p|] eqn:Hp.
  2: { unfold handle_Read. rewrite (bind_Panics _ _ w w); [|by apply handle_nil_panics].
       exists []. split; [done|constructor]. }
  rewrite (bind_Returns _ _ _ _ _ (handle_Read_eq blen w p Hp)).
  destruct (proxy_Read (nextResp w) blen p) as [[bs [e|]] p'] eqn:E; cbn [fst snd].
  - destruct (decide (e = io_EOF));
      [|rewrite (bind_Returns _ _ _ _ _ (logWith_eq _ _ _ _ _))];
      (exists [EvRead (Z.of_nat blen)]; split; [done|by repeat constructor]).
  - set (w1 := withProxy _ _).
    destruct (passes (nextResp w1)) eqn:Hr1.
    + rewrite (bind_Returns _ _ _ _ _ (writer_Write_pass _ _ _ Hr1)).
      rewrite (bind_Returns _ _ _ _ _ (logWith_eq _ _ _ _ _)).
      match goal with
      | |- match streamLoop _ _ _ _ ?b ?n ?w2 with _ => _ end =>
          specialize (IH b n w2); destruct (streamLoop _ _ _ _ b n w2) as [a w'|w'|]
      end; [| |done].
      all: destruct IH as (t & Htr & Hsz);
        exists (t ++ [EvWriterWrite (wpath wr) bs; EvRead (Z.of_nat blen)])%list;
        split; [rewrite Htr; cbn; by rewrite <- !app_assoc|];
        apply Forall_app; split; [done|by repeat constructor].
    + apply passes_false in Hr1 as (n & e & Hr1).
      rewrite (bind_Returns _ _ _ _ _ (writer_Write_eq _ _ _)). rewrite Hr1. cbv zeta.
      rewrite (bind_Returns _ _ _ _ _ (logWith_eq _ _ _ _ _)).
      exists [EvWriterWrite (wpath wr) bs; EvRead (Z.of_nat blen)].
      split; [done|]. by repeat constructor.
Qed.

(** With a staging file the streaming loop does not panic. *)
Lemma streamLoop_no_panic fuel operation fh wr :
  forall blen written w w',
    is_Some (handle (inode w)) ->
    streamLoop fuel operation fh wr blen written w <> Panics w'.
Proof.
  induction fuel as [|fuel IH]; intros blen written w w' [p Hp]; [done|].
  cbn [streamLoop].
  rewrite (bind_Returns _ _ _ _ _ (handle_Read_eq blen w p Hp)).
  destruct (proxy_Read (nextResp w) blen p) as [[bs [e|]] p'] eqn:E; cbn [fst snd].
  - destruct (decide (e = io_EOF)); [done|].
    by rewrite (bind_Returns _ _ _ _ _ (logWith_eq _ _ _ _ _)).
  - set (w1 := withProxy _ _).
    destruct (passes (nextResp w1)) eqn:Hr1.
    + rewrite (bind_Returns _ _ _ _ _ (writer_Write_pass _ _ _ Hr1)).
      rewrite (bind_Returns _ _ _ _ _ (logWith_eq _ _ _ _ _)).
      apply IH. by eexists.
    + apply passes_false in Hr1 as (n & e & Hr1).
      rewrite (bind_Returns _ _ _ _ _ (writer_Write_eq _ _ _)). rewrite Hr1. cbv zeta.
      by rewrite (bind_Returns _ _ _ _ _ (logWith_eq _ _ _ _ _)).
Qed.

(** The calls of an attempt after its [CreateFile]: no second [CreateFile],
    no reconnect; with a staging file the attempt returns, and it has closed
    the writer once if [CreateFile] and the seek went through and not at all
    otherwise. *)
Lemma FlushAttempt_trace operation fh w :
  match FlushAttempt operation fh w with
  | Returns err w' =>
      exists t,
        trace w' = (t ++ createCall w :: trace w)%list /\
        tally isCreate t = 0%nat /\ tally isReconnect t = 0%nat /\
        (is_Some (handle (inode w)) ->
           tally isWriterClose t
             = (if passes (nextResp w) && passes (seekResp w) then 1 else 0)%nat)
  | Panics w' =>
      exists t,
        trace w' = (t ++ createCall w :: trace w)%list /\
        tally isCreate t = 0%nat /\ tally isReconnect t = 0%nat /\
        handle (inode w) = None
  | OutOfFuel => False
  end.
Proof.
  pose proof (FlushAttempt_total operation fh w) as Htot.
  unfold FlushAttempt in *.
  rewrite (bind_Returns get _ w w w eq_refl) in *.
  destruct (passes (nextResp w)) eqn:Hc.
  2: { apply passes_false in Hc as (n & e & Hc).
       rewrite (bind_Returns _ _ _ _ _ (CreateFile_fail _ _ _ _ _ Hc)).
       rewrite (bind_Returns _ _ _ _ _ (logWith_eq _ _ _ _ _)).
       exists []. done. }
  rewrite (bind_Returns _ _ _ _ _ (CreateFile_pass _ _ _ Hc)) in *.
  set (w1 := set_connected _ _) in *.
  assert (nextResp w1 = seekResp w) as Hseek by reflexivity.
  destruct (handle (inode w1)) as [p|] eqn:Hp.
  2: { unfold handle_SeekToStart. rewrite (bind_Panics _ _ w1 w1); [|by apply handle_nil_panics].
       exists []. done. }
  rewrite (bind_Returns _ _ _ _ _ (handle_SeekToStart_eq _ _ Hp)) in *.
  rewrite Hseek in *.
  destruct (proxy_SeekToStart (seekResp w) p) as [[e|] p'] eqn:Hs; cbn [fst snd] in *.
  { rewrite (bind_Returns _ _ _ _ _ (logWith_eq _ _ _ _ _)).
    exists [EvSeekToStart]. split; [done|]. split; [done|]. split; [done|].
    intros _. unfold proxy_SeekToStart in Hs. by destruct (seekResp w). }
  assert (passes (seekResp w) = true) as Hsp.
  { unfold proxy_SeekToStart in Hs. by destruct (seekResp w). }
  rewrite Hsp. cbn [andb].
  set (w2 := withProxy _ _) in *.
  rewrite (bind_Returns streamFuel _ w2 (S (length (data p'))) w2 eq_refl) in *.
  pose proof (streamLoop_trace (S (length (data p'))) operation fh
                (mkWriter (AbsolutePath (inode w))) bufSize 0 w2) as Hsz.
  pose proof (streamLoop_no_panic (S (length (data p'))) operation fh
                (mkWriter (AbsolutePath (inode w))) bufSize 0 w2) as Hnp.
  destruct (streamLoop (S (length (data p'))) operation fh
              (mkWriter (AbsolutePath (inode w))) bufSize 0 w2)
    as [[written|e] w3|w3|] eqn:Hl.
  - rewrite (bind_Returns _ _ _ _ _ Hl) in *.
    rewrite (bind_Returns _ _ _ _ _ (writer_Close_eq _ _)) in *.
    destruct Hsz as (t & Htr & Hsz). cbn [app] in Htr.
    destruct (nextResp w3) eqn:Hr3; cbn;
      [|rewrite (bind_Returns _ _ _ _ _ (logWith_eq _ _ _ _ _))|];
      (exists ([EvWriterClose (AbsolutePath (inode w))] ++ t ++ [EvSeekToStart])%list;
       split; [cbn; rewrite Htr; cbn; by rewrite <- app_assoc|];
       rewrite !tally_app, !(tally_stream _ t) by (done || by intros []);
       done).
  - rewrite (bind_Returns _ _ _ _ _ Hl) in *.
    destruct Hsz as (t & Htr & Hsz). cbn [app wpath] in Htr.
    exists ([EvWriterClose (AbsolutePath (inode w))] ++ t ++ [EvSeekToStart])%list.
    split; [rewrite Htr; cbn; by rewrite <- app_assoc|].
    rewrite !tally_app, !(tally_stream _ t) by (done || by intros []). done.
  - exfalso. apply (Hnp w3); [by eexists|done].
  - rewrite (bind_OutOfFuel _ _ _ Hl) in Htot. done.
Qed.

(** X11.  The remote writer of an attempt.  With a staging file an attempt
    returns; it opens a remote writer once, as its first call, and it closes
    a writer exactly once when [CreateFile] and the seek of the staging file
    went through, and never otherwise.  So when [CreateFile] succeeds and the
    seek fails, the attempt returns the error of the seek after these two
    calls: the writer it opened is not closed, and the remote file is left
    empty. *)
Theorem FlushAttempt_closes_writer_unless_seek_fails (operation : string)
    (fh : FileHandle) (w : World) (p : FileProxy) :
  handle (inode w) = Some p ->
  (exists err w' t,
     FlushAttempt operation fh w = Returns err w' /\
     trace w' = (t ++ createCall w :: trace w)%list /\
     tally isCreate t = 0%nat /\
     tally isWriterClose t
       = (if passes (nextResp w) && passes (seekResp w) then 1 else 0)%nat) /\
  (forall n e,
     passes (nextResp w) = true -> seekResp w = RespFail n e ->
     exists w',
       FlushAttempt operation fh w = Returns (Some e) w' /\
       trace w' = EvSeekToStart :: createCall w :: trace w /\
       remoteFile w' = Some []).
Proof.
  intros Hp. split.
  - pose proof (FlushAttempt_trace operation fh w) as Ht.
    destruct (FlushAttempt operation fh w) as [err w'|w'|]; [| |done].
    + destruct Ht as (t & Htr & Hc & _ & Hw).
      exists err, w', t. split; [done|]. split; [done|]. split; [done|].
      apply Hw. by eexists.
    + destruct Ht as (_ & _ & _ & _ & Hn). congruence.
  - intros n e Hc Hs. by eapply FlushAttempt_seek_fails.
Qed.

(** The seek of the sample file fails: the remote file, which held "old",
    is empty and no writer was closed. *)
Lemma FlushAttempt_closes_writer_unless_seek_fails_witness :
  exists w',
    FlushAttempt Oper.Flush sampleHandle
      (set_dfs {[ "/dir/file" := [x6f; x6c; x64] ]}
         (sampleWorld [RespOk; RespFail 0 ErrLocalIO]))
      = Returns (Some ErrLocalIO) w' /\
    trace w' = [EvSeekToStart; EvCreateFile "/dir/file" 420 true] /\
    remoteFile w' = Some [].
Proof.
  apply (proj2 (FlushAttempt_closes_writer_unless_seek_fails Oper.Flush sampleHandle
                  (set_dfs {[ "/dir/file" := [x6f; x6c; x64] ]}
                     (sampleWorld [RespOk; RespFail 0 ErrLocalIO]))
                  sampleProxy eq_refl) 0%nat ErrLocalIO); reflexivity.
Defined.

(** The attempts of the retry loop: one [CreateFile] more than reconnects,
    and no more attempts than the policy leaves. *)
Lemma copyLoop_attempts cls fuel operation fh :
  forall op w,
    (MaxAttempts (retryPolicy w) - Attempt op < fuel)%nat ->
    match copyLoop cls fuel operation fh op w with
    | Returns _ w' | Panics w' =>
        exists t,
          trace w' = (t ++ trace w)%list /\
          tally isCreate t = S (tally isReconnect t) /\
          (tally isCreate t <= S (MaxAttempts (retryPolicy w) - Attempt op))%nat
    | OutOfFuel => False
    end.
Proof.
  induction fuel as [|fuel IH]; intros op w Hfuel; [lia|].
  pose proof (FlushAttempt_trace operation fh w) as Ht.
  pose proof (keeping_FlushAttempt operation fh w) as Hk.
  destruct (FlushAttempt operation fh w) as [err w1|w1|] eqn:Ha; [| |done].
  - rewrite (copyLoop_S _ _ _ _ _ _ _ _ Ha).
    destruct Ht as (t1 & Htr & Hc & Hr & _).
    destruct Hk as (_ & _ & _ & _ & Hpol).
    destruct (retriesRemain op w1) eqn:Hrem.
    2: { rewrite andb_false_r. exists (t1 ++ [createCall w])%list.
         split; [by rewrite <- app_assoc|].
         rewrite !tally_app, Hc, Hr. cbn. split; lia. }
    destruct (_ && _).
    2: { exists (t1 ++ [createCall w])%list.
         split; [by rewrite <- app_assoc|].
         rewrite !tally_app, Hc, Hr. cbn. split; lia. }
    unfold retriesRemain in Hrem. apply Nat.ltb_lt in Hrem. rewrite Hpol in Hrem.
    specialize (IH (mkOp (S (Attempt op))) (reconnecting operation fh w1)).
    cbn [retryPolicy reconnecting set_logs set_connected set_trace Attempt trace] in IH.
    rewrite Hpol in IH.
    destruct (copyLoop _ _ _ _ _ _) as [a w'|w'|].
    3: { apply IH. lia. }
    all: destruct IH as (t2 & Htr2 & Hc2 & Hle2); [lia|];
      exists (t2 ++ [EvConnectorClose] ++ t1 ++ [createCall w])%list;
      split; [rewrite Htr2, Htr; by rewrite <- !app_assoc|];
      rewrite !tally_app, Hc, Hr, Hc2; cbn; split; lia.
  - rewrite (copyLoop_attempt_panics _ _ _ _ _ _ _ Ha).
    destruct Ht as (t1 & Htr & Hc & Hr & _).
    exists (t1 ++ [createCall w])%list.
    split; [by rewrite <- app_assoc|].
    rewrite !tally_app, Hc, Hr. cbn. split; lia.
Qed.

(** X9.  The retries of [copyToDFS] are bounded.  When the handle has written
    bytes, [copyToDFS] ends after at least one attempt and at most
    [max 1 MaxAttempts] attempts, an attempt being a call of [CreateFile];
    and it has closed the connector once less than it has made attempts. *)
Theorem copyToDFS_attempts_bounded (cls : option error -> bool)
    (operation : string) (fh : FileHandle) (w : World) :
  totalBytesWritten fh <> 0 ->
  exists w' t,
    final (copyToDFS cls operation fh w) = Some w' /\
    trace w' = (t ++ trace w)%list /\
    tally isCreate t = S (tally isReconnect t) /\
    (tally isCreate t <= Nat.max 1 (MaxAttempts (retryPolicy w)))%nat.
Proof.
  intros Hne. rewrite (copyToDFS_eq _ _ _ _ Hne).
  set (w0 := logged _ _ _ _ w).
  pose proof (copyLoop_attempts cls (S (MaxAttempts (retryPolicy w))) operation fh
                (mkOp 1) w0) as Hl.
  destruct (copyLoop _ _ _ _ _ w0) as [err w1|w1|].
  3: { exfalso. apply Hl. cbn. lia. }
  all: destruct Hl as (t & Htr & Hc & Hle); [cbn; lia|];
    exists (invalidated w1), ([EvInvalidateMetadataCache (AbsolutePath (inode w1))] ++ t)%list;
    split; [done|]; split; [cbn; by rewrite Htr|];
    rewrite !tally_app; cbn in *; split; lia.
Qed.

(** Two attempts end with [io.EOF] and the third one goes through, under a
    classification that retries [io.EOF] and a policy of three attempts:
    three calls of [CreateFile] at most. *)
Lemma copyToDFS_attempts_bounded_witness :
  exists w' t,
    final (copyToDFS (fun _ => false) Oper.Flush sampleHandle
             (sampleWorld [RespFail 0 io_EOF; RespFail 0 io_EOF])) = Some w' /\
    trace w' = t /\
    (tally isCreate t <= 3)%nat.
Proof.
  destruct (copyToDFS_attempts_bounded (fun _ => false) Oper.Flush sampleHandle
              (sampleWorld [RespFail 0 io_EOF; RespFail 0 io_EOF]))
    as (w' & t & Hf & Htr & _ & Hle).
  - cbn. lia.
  - exists w', t. split; [exact Hf|]. split; [by rewrite Htr, app_nil_r|exact Hle].
Defined.

Lemma uploaded_trans bs path d1 d2 d3 :
  uploaded bs path d1 d2 -> uploaded bs path d2 d3 -> uploaded bs path d1 d3.
Proof.
  intros [->|[k1 ->]] [->|[k2 ->]].
  - by left.
  - right. by exists k2.
  - right. by exists k1.
  - right. exists k2. by rewrite insert_insert_eq.
Qed.

(** What the streaming loop appends to the remote file is a prefix of what
    is left to read of the staging file. *)
Lemma streamLoop_prefix fuel operation fh wr :
  forall blen written w p old,
    handle (inode w) = Some p ->
    dfs w !! wpath wr = Some old ->
    match streamLoop fuel operation fh wr blen written w with
    | Returns _ w' | Panics w' =>
        exists k, dfs w' = <[wpath wr := (old ++ take k (unread p))%list]> (dfs w)
    | OutOfFuel => True
    end.
Proof.
  assert (forall (w : World) old, dfs w !! wpath wr = Some old ->
            forall u : list byte,
              dfs w = <[wpath wr := (old ++ take 0 u)%list]> (dfs w)) as Hid.
  { intros w old Hold u. cbn. rewrite app_nil_r. by rewrite insert_id. }
  induction fuel as [|fuel IH]; intros blen written w p old Hp Hold; [done|].
  cbn [streamLoop].
  rewrite (bind_Returns _ _ _ _ _ (handle_Read_eq blen w p Hp)).
  destruct (proxy_Read (nextResp w) blen p) as [[bs [e|]] p'] eqn:E; cbn [fst snd].
  - destruct (decide (e = io_EOF));
      [|rewrite (bind_Returns _ _ _ _ _ (logWith_eq _ _ _ _ _))];
      (exists 0%nat; by apply (Hid w)).
  - apply proxy_Read_ok in E as (Hbs & -> & _ & _ & _).
    set (w1 := withProxy _ _).
    assert (dfs w1 !! wpath wr = Some old) as Hold1 by exact Hold.
    destruct (passes (nextResp w1)) eqn:Hr1.
    + rewrite (bind_Returns _ _ _ _ _ (writer_Write_pass _ _ _ Hr1)).
      rewrite (bind_Returns _ _ _ _ _ (logWith_eq _ _ _ _ _)).
      rewrite Hold1. cbn [default].
      match goal with
      | |- match streamLoop _ _ _ _ ?b ?n ?w2 with _ => _ end =>
          specialize (IH b n w2 (mkProxy (data p) (cursor p + length bs) (mode p) (populated p))
                        (old ++ bs)%list eq_refl);
          destruct (streamLoop _ _ _ _ b n w2) as [a w'|w'|]
      end; [| |done].
      all: destruct IH as (k & Hk); [cbn; by rewrite lookup_insert_eq|];
        exists (length bs + k)%nat; rewrite Hk; cbn;
        rewrite insert_insert_eq; f_equal;
        rewrite <- app_assoc; f_equal;
        rewrite <- (unread_advance p (length bs)) at 1;
        rewrite <- Hbs; by rewrite take_app_add.
    + apply passes_false in Hr1 as (n & e & Hr1).
      rewrite (bind_Returns _ _ _ _ _ (writer_Write_eq _ _ _)). rewrite Hr1. cbv zeta.
      rewrite (bind_Returns _ _ _ _ _ (logWith_eq _ _ _ _ _)).
      rewrite Hold1. cbn [default].
      exists (n `min` length bs)%nat. cbn. f_equal. f_equal.
      rewrite Hbs at 1. by rewrite take_take.
Qed.

(** The remote namespace after an attempt: as before, or with a prefix of
    the staged content as the file of the inode. *)
Lemma FlushAttempt_remote operation fh w p :
  handle (inode w) = Some p ->
  exists err w',
    FlushAttempt operation fh w = Returns err w' /\
    uploaded (data p) (AbsolutePath (inode w)) (dfs w) (dfs w') /\
    (passes (nextResp w) = true -> exists k, remoteFile w' = Some (take k (data p))).
Proof.
  intros Hp.
  pose proof (FlushAttempt_total operation fh w) as Htot.
  pose proof (keeping_FlushAttempt operation fh w) as Hkeep.
  unfold FlushAttempt in *.
  rewrite (bind_Returns get _ w w w eq_refl) in *.
  destruct (passes (nextResp w)) eqn:Hc.
  2: { apply passes_false in Hc as (n & e & Hc).
       rewrite (bind_Returns _ _ _ _ _ (CreateFile_fail _ _ _ _ _ Hc)).
       rewrite (bind_Returns _ _ _ _ _ (logWith_eq _ _ _ _ _)).
       do 2 eexists. split; [reflexivity|]. split; [by left|done]. }
  rewrite (bind_Returns _ _ _ _ _ (CreateFile_pass _ _ _ Hc)) in *.
  set (w1 := set_connected _ _) in *.
  assert (handle (inode w1) = Some p) as Hp1 by exact Hp.
  rewrite (bind_Returns _ _ _ _ _ (handle_SeekToStart_eq _ _ Hp1)) in *.
  assert (forall w' : World,
            AbsolutePath (inode w') = AbsolutePath (inode w) ->
            (exists k, dfs w' = <[AbsolutePath (inode w) := take k (data p)]> (dfs w)) ->
            uploaded (data p) (AbsolutePath (inode w)) (dfs w) (dfs w') /\
            (true = true -> exists k, remoteFile w' = Some (take k (data p)))) as Hfin.
  { intros w' Hpath [k Hk]. split; [right; by exists k|].
    intros _. exists k. unfold remoteFile. by rewrite Hpath, Hk, lookup_insert_eq. }
  destruct (proxy_SeekToStart (nextResp w1) p) as [[e|] p'] eqn:Hs; cbn [fst snd] in *.
  { rewrite (bind_Returns _ _ _ _ _ (logWith_eq _ _ _ _ _)).
    do 2 eexists. split; [reflexivity|]. apply Hfin; [done|]. by exists 0%nat. }
  assert (p' = mkProxy (data p) 0%nat (mode p) (populated p)) as ->.
  { unfold proxy_SeekToStart in Hs. destruct (nextResp w1); congruence. }
  set (w2 := withProxy _ _) in *.
  rewrite (bind_Returns streamFuel _ w2 (S (length (data p))) w2 eq_refl) in *.
  pose proof (streamLoop_prefix (S (length (data p))) operation fh
                (mkWriter (AbsolutePath (inode w))) bufSize 0 w2
                (mkProxy (data p) 0%nat (mode p) (populated p)) [] eq_refl) as Hpre.
  pose proof (streamLoop_no_panic (S (length (data p))) operation fh
                (mkWriter (AbsolutePath (inode w))) bufSize 0 w2) as Hnp.
  cbn [wpath app] in Hpre. unfold unread in Hpre. cbn [cursor data drop] in Hpre.
  destruct (streamLoop (S (length (data p))) operation fh
              (mkWriter (AbsolutePath (inode w))) bufSize 0 w2)
    as [[written|e] w3|w3|] eqn:Hl.
  - rewrite (bind_Returns _ _ _ _ _ Hl) in *.
    rewrite (bind_Returns _ _ _ _ _ (writer_Close_eq _ _)) in *.
    destruct Hpre as (k & Hk); [cbn; by rewrite lookup_insert_eq|].
    assert (dfs w3 = <[AbsolutePath (inode w) := take k (data p)]> (dfs w)) as Hd.
    { rewrite Hk. cbn. by rewrite insert_insert_eq. }
    destruct (nextResp w3) eqn:Hr3; cbn in *;
      [|rewrite (bind_Returns _ _ _ _ _ (logWith_eq _ _ _ _ _)) in *|];
      (do 2 eexists; split; [reflexivity|]; apply Hfin; [apply Hkeep|by exists k]).
  - rewrite (bind_Returns _ _ _ _ _ Hl) in *.
    destruct Hpre as (k & Hk); [cbn; by rewrite lookup_insert_eq|].
    do 2 eexists. split; [reflexivity|]. apply Hfin; [apply Hkeep|].
    exists k. rewrite Hk. cbn. by rewrite insert_insert_eq.
  - exfalso. apply (Hnp w3); [by eexists|done].
  - rewrite (bind_OutOfFuel _ _ _ Hl) in Htot. done.
Qed.

Lemma uploaded_lookup bs path d d' :
  uploaded bs path d d' ->
  (forall q, q <> path -> d' !! q = d !! q) /\
  (d' !! path = d !! path \/ exists k, d' !! path = Some (take k bs)).
Proof.
  intros [->|[k ->]]; [by split; [|left]|].
  split.
  - intros q Hq. by rewrite lookup_insert_ne.
  - right. exists k. by rewrite lookup_insert_eq.
Qed.

(** With a staging file the retry loop returns, and the remote namespace is
    then as before or holds a prefix of the staged content at the path of
    the inode. *)
Lemma copyLoop_remote cls fuel operation fh :
  forall op w p,
    handle (inode w) = Some p ->
    (MaxAttempts (retryPolicy w) - Attempt op < fuel)%nat ->
    exists err w',
      copyLoop cls fuel operation fh op w = Returns err w' /\
      uploaded (data p) (AbsolutePath (inode w)) (dfs w) (dfs w').
Proof.
  induction fuel as [|fuel IH]; intros op w p Hp Hfuel; [lia|].
  destruct (FlushAttempt_remote operation fh w p Hp) as (err & w1 & Ha & Hup & _).
  pose proof (keeping_FlushAttempt operation fh w) as Hk. rewrite Ha in Hk.
  destruct Hk as (Hpath & _ & Hst & _ & Hpol).
  rewrite (copyLoop_S _ _ _ _ _ _ _ _ Ha).
  destruct (retriesRemain op w1) eqn:Hrem; [|rewrite andb_false_r; eauto].
  destruct (_ && _); [|eauto].
  unfold retriesRemain in Hrem. apply Nat.ltb_lt in Hrem. rewrite Hpol in Hrem.
  unfold staged in Hst. rewrite Hp in Hst.
  destruct (handle (inode w1)) as [p1|] eqn:Hp1; [|done].
  injection Hst as Hd.
  destruct (IH (mkOp (S (Attempt op))) (reconnecting operation fh w1) p1 Hp1)
    as (err' & w' & Hl & Hup'); [cbn; rewrite Hpol; lia|].
  exists err', w'. split; [exact Hl|].
  cbn in Hup'. rewrite Hd, Hpath in Hup'. by eapply uploaded_trans.
Qed.

Lemma copyToDFS_remote cls operation fh w p :
  handle (inode w) = Some p ->
  exists err w',
    copyToDFS cls operation fh w = Returns err w' /\
    uploaded (data p) (AbsolutePath (inode w)) (dfs w) (dfs w').
Proof.
  intros Hp. destruct (decide (totalBytesWritten fh = 0)) as [Hz|Hz].
  { rewrite (copyToDFS_nothing _ _ _ _ Hz). do 2 eexists. split; [reflexivity|by left]. }
  rewrite (copyToDFS_eq _ _ _ _ Hz). set (w0 := logged _ _ _ _ w).
  destruct (copyLoop_remote cls (S (MaxAttempts (retryPolicy w))) operation fh
              (mkOp 1) w0 p Hp) as (err & w' & Hl & Hup); [cbn; lia|].
  rewrite Hl. exists err, (invalidated w'). split; [reflexivity|exact Hup].
Qed.

(** X12.  What a flush can do to the remote namespace.  When the inode has a
    staging file, [Flush] and [Fsync] return (they do not panic), no remote
    file other than the one at the path of the inode is changed, and that
    file is either what it was or a prefix of the staged content. *)
Theorem Flush_leaves_old_file_or_prefix (cls : option error -> bool)
    (fh : FileHandle) (w : World) (p : FileProxy) :
  handle (inode w) = Some p ->
  (exists err w',
     Flush cls fh w = Returns err w' /\
     (forall q, q <> AbsolutePath (inode w) -> dfs w' !! q = dfs w !! q) /\
     (remoteFile w' = remoteFile w \/ exists k, remoteFile w' = Some (take k (data p)))) /\
  (exists err w',
     Fsync cls fh w = Returns err w' /\
     (forall q, q <> AbsolutePath (inode w) -> dfs w' !! q = dfs w !! q) /\
     (remoteFile w' = remoteFile w \/ exists k, remoteFile w' = Some (take k (data p)))).
Proof.
  intros Hp.
  assert (forall operation (w0 : World),
            inode w0 = inode w -> dfs w0 = dfs w ->
            exists err w',
              copyToDFS cls operation fh w0 = Returns err w' /\
              (forall q, q <> AbsolutePath (inode w) -> dfs w' !! q = dfs w !! q) /\
              (remoteFile w' = remoteFile w \/
               exists k, remoteFile w' = Some (take k (data p)))) as Hcopy.
  { intros operation w0 Hi Hd.
    assert (handle (inode w0) = Some p) as Hp0 by (by rewrite Hi).
    destruct (copyToDFS_remote cls operation fh w0 p Hp0) as (err & w' & Hc & Hup).
    pose proof (keeping_copyToDFS cls operation fh w0) as Hk. rewrite Hc in Hk.
    destruct Hk as (Hpath & _).
    rewrite Hi, Hd in Hup. apply uploaded_lookup in Hup as (Hother & Hfile).
    exists err, w'. split; [exact Hc|]. split; [exact Hother|].
    unfold remoteFile. rewrite Hpath, Hi. exact Hfile. }
  rewrite Flush_eq, Fsync_eq.
  destruct (0 <? totalBytesWritten fh).
  - split; by apply Hcopy.
  - split; (exists None, w; split; [reflexivity|]; split; [done|by left]).
Qed.

(** The upload of "abc" is cut after two bytes by a failing remote write. *)
Lemma Flush_leaves_old_file_or_prefix_witness :
  exists err w',
    Flush IsSuccessOrNonRetriableError_spec sampleHandle
      (sampleWorld [RespOk; RespOk; RespOk; RespFail 2 ErrTransport])
      = Returns err w' /\
    (remoteFile w' = None \/ exists k, remoteFile w' = Some (take k bytes_abc)).
Proof.
  destruct (proj1 (Flush_leaves_old_file_or_prefix IsSuccessOrNonRetriableError_spec
                     sampleHandle
                     (sampleWorld [RespOk; RespOk; RespOk; RespFail 2 ErrTransport])
                     sampleProxy eq_refl))
    as (err & w' & Hf & _ & Hr).
  exists err, w'. split; [exact Hf|exact Hr].
Defined.

(** [Release] on an inode without a staging file: it panics when it removes
    the last handle, and returns [nil] when other handles stay open. *)
Lemma Release_nil fh w :
  handle (inode w) = None ->
  (activeHandles (inode w) ∖ {[ fhID fh ]} = ∅ -> exists w', Release fh w = Panics w') /\
  (activeHandles (inode w) ∖ {[ fhID fh ]} <> ∅ ->
     exists w', Release fh w = Returns None w').
Proof.
  intros Hp. unfold Release, InvalidateMetadataCache, RemoveHandle,
    countActiveHandles, handle_Close.
  munfold. cbn. split.
  - intros ->. rewrite size_empty. change (Z.of_nat 0 =? 0) with true. cbn.
    rewrite Hp. eauto.
  - intros Hne.
    destruct (Z.eqb_spec (Z.of_nat (size (activeHandles (inode w) ∖ {[ fhID fh ]}))) 0)
      as [E|E]; [|cbn; eauto].
    exfalso. apply Hne, leibniz_equiv, size_empty_iff. lia.
Qed.

(** X13.  [Release] does not upload.  Whatever the handle has written,
    [Release] makes no remote call and leaves the remote namespace as it is,
    and it never returns an error.  When the handle is the last one of its
    inode, the reference to the staging file is dropped all the same, so
    bytes written and not flushed before are not in the remote file. *)
Theorem Release_never_uploads (fh : FileHandle) (w : World) :
  (forall err w', Release fh w = Returns err w' -> err = None /\ quiet w w') /\
  (forall w', Release fh w = Panics w' -> quiet w w') /\
  (forall p, handle (inode w) = Some p -> activeHandles (inode w) ⊆ {[ fhID fh ]} ->
     exists w',
       Release fh w = Returns None w' /\
       dfs w' = dfs w /\ handle (inode w') = None).
Proof.
  pose proof (quietly_Release fh w) as Hq.
  split; [|split].
  - intros err w' Hr. rewrite Hr in Hq. split; [|exact Hq].
    revert Hr. unfold Release. munfold.
    repeat (break_inner; try done); by intros [= <- _].
  - intros w' Hr. by rewrite Hr in Hq.
  - intros p Hp Hsub.
    destruct (Release_eq fh w p Hp) as (w' & Hr & _ & _ & Hh & _).
    rewrite Hr in Hq. destruct Hq as (Hd & _).
    exists w'. split; [exact Hr|]. split; [exact Hd|].
    rewrite decide_True in Hh; [exact Hh|].
    apply size_empty_iff, elem_of_equiv_empty.
    intros x [Hx Hn]%elem_of_difference. apply Hn. by apply Hsub.
Qed.

(** The only handle of the sample inode has written three bytes that were
    never flushed: its [Release] drops the staging file and the remote file
    does not exist. *)
Lemma Release_never_uploads_witness :
  exists w',
    Release sampleHandle (sampleWorld []) = Returns None w' /\
    dfs w' = ∅ /\ handle (inode w') = None.
Proof.
  apply (proj2 (proj2 (Release_never_uploads sampleHandle (sampleWorld [])))
           sampleProxy eq_refl).
  cbn. apply singleton_subseteq_l. by apply elem_of_singleton.
Defined.

(** X14.  A handle must not be released twice: after the [Release] of the
    last handle of an inode, which returns [nil], a second [Release] of that
    handle panics, since the staging file it would close is gone. *)
Theorem Release_twice_panics (fh : FileHandle) (w : World) (p : FileProxy) :
  handle (inode w) = Some p ->
  activeHandles (inode w) ⊆ {[ fhID fh ]} ->
  exists w1 w2,
    Release fh w = Returns None w1 /\
    Release fh w1 = Panics w2.
Proof.
  intros Hp Hsub.
  destruct (Release_eq fh w p Hp) as (w1 & Hr & Ha & _ & Hh & _).
  assert (activeHandles (inode w) ∖ {[ fhID fh ]} = ∅) as He.
  { apply leibniz_equiv, elem_of_equiv_empty.
    intros x [Hx Hn]%elem_of_difference. apply Hn. by apply Hsub. }
  rewrite He, size_empty in Hh. rewrite decide_True in Hh by done.
  destruct (proj1 (Release_nil fh w1 Hh)) as (w2 & Hr2).
  { rewrite Ha, He. apply leibniz_equiv, elem_of_equiv_empty.
    intros x [Hx _]%elem_of_difference. by apply not_elem_of_empty in Hx. }
  exists w1, w2. split; [exact Hr|exact Hr2].
Qed.

Lemma Release_twice_panics_witness :
  exists w1 w2,
    Release sampleHandle (sampleWorld []) = Returns None w1 /\
    Release sampleHandle w1 = Panics w2.
Proof.
  apply (Release_twice_panics sampleHandle (sampleWorld []) sampleProxy eq_refl).
  cbn. apply singleton_subseteq_l. by apply elem_of_singleton.
Defined.

(** X15.  The staging file outlives every [Release] but the last.  Handles
    of an inode released one after the other, in any order and even
    repeatedly, leave the staging file in place as long as some handle of the
    inode is not among them; every [Release] returns, and the released
    handles are gone from the inode's set. *)
Theorem releaseAll_keeps_staging_while_open (fhs : list FileHandle) :
  forall (w : World) (p : FileProxy),
    handle (inode w) = Some p ->
    ~ (activeHandles (inode w) ⊆ idsOf fhs) ->
    exists w',
      releaseAll fhs w = Returns tt w' /\
      handle (inode w') = Some p /\
      activeHandles (inode w') = activeHandles (inode w) ∖ idsOf fhs.
Proof.
  induction fhs as [|fh rest IH]; intros w p Hp Hopen.
  - exists w. split; [reflexivity|]. split; [exact Hp|].
    unfold idsOf. cbn. apply leibniz_equiv. intros x.
    rewrite elem_of_difference. split; [|tauto].
    intros Hx. split; [exact Hx|]. apply not_elem_of_empty.
  - destruct (Release_eq fh w p Hp) as (w1 & Hr & Ha & _ & Hh & _).
    assert (~ (activeHandles (inode w) ∖ {[ fhID fh ]} ⊆ idsOf rest)) as Hopen1.
    { intros Hsub. apply Hopen. unfold idsOf in *. cbn.
      intros x Hx. destruct (decide (x = fhID fh)) as [->|Hne].
      - apply elem_of_union_l. by apply elem_of_singleton.
      - apply elem_of_union_r, Hsub, elem_of_difference. split; [exact Hx|].
        by intros ->%elem_of_singleton. }
    rewrite decide_False in Hh.
    2: { intros Hz%size_empty_iff. apply Hopen1. rewrite Hz.
         intros x Hx. by apply not_elem_of_empty in Hx. }
    destruct (IH w1 p Hh) as (w' & Hrest & Hh' & Ha'); [by rewrite Ha|].
    exists w'. cbn [releaseAll].
    rewrite (bind_Returns _ _ _ _ _ Hr). split; [exact Hrest|]. split; [exact Hh'|].
    rewrite Ha', Ha. unfold idsOf. cbn. apply leibniz_equiv.
    intros x. rewrite !elem_of_difference, elem_of_union, elem_of_singleton. tauto.
Qed.

(** Handle 7 is released while handle 8 stays open: the staging file of
    "abc" is still there. *)
Lemma releaseAll_keeps_staging_while_open_witness :
  exists w',
    releaseAll [sampleHandle] (sharedWorld []) = Returns tt w' /\
    handle (inode w') = Some sampleProxy /\
    activeHandles (inode w') = ({[ 7; 8 ]} : gset Z) ∖ idsOf [sampleHandle].
Proof.
  apply (releaseAll_keeps_staging_while_open [sampleHandle] (sharedWorld [])
           sampleProxy eq_refl).
  intros Hsub. specialize (Hsub 8).
  assert (8 ∈ idsOf [sampleHandle]) as Hin.
  { apply Hsub. cbn. apply elem_of_union_r. by apply elem_of_singleton. }
  unfold idsOf in Hin. cbn in Hin.
  apply elem_of_union in Hin as [Hin%elem_of_singleton|Hin%not_elem_of_empty]; done.
Defined.

(** A round of the streaming loop whose read fails leaves the loop by
    [break]. *)
Lemma streamLoop_read_fails fuel operation fh wr blen written w p n e :
  handle (inode w) = Some p ->
  nextResp w = RespFail n e ->
  exists w',
    streamLoop (S fuel) operation fh wr blen written w = Returns (Break written) w' /\
    inode w' = inode w /\ dfs w' = dfs w /\ oracle w' = tail (oracle w).
Proof.
  intros Hp Hn. cbn [streamLoop].
  rewrite (bind_Returns _ _ _ _ _ (handle_Read_eq blen w p Hp)).
  rewrite Hn. cbn [proxy_Read fst snd].
  destruct (decide (e = io_EOF)).
  - eexists. split; [reflexivity|]. destruct w as [[] ? ? ? ? ? ? ?]. cbn in *. by subst.
  - rewrite (bind_Returns _ _ _ _ _ (logWith_eq _ _ _ _ _)).
    eexists. split; [reflexivity|]. destruct w as [[] ? ? ? ? ? ? ?]. cbn in *. by subst.
Qed.

(** An attempt whose first read of the staging file fails. *)
Lemma FlushAttempt_read_fails operation fh w p r1 r2 n e rest :
  handle (inode w) = Some p ->
  oracle w = r1 :: r2 :: RespFail n e :: rest ->
  passes r1 = true -> passes r2 = true ->
  passes (default RespOk (head rest)) = true ->
  exists w',
    FlushAttempt operation fh w = Returns None w' /\
    dfs w' = <[AbsolutePath (inode w) := []]> (dfs w).
Proof.
  intros Hp Ho H1 H2 H4. unfold FlushAttempt.
  rewrite (bind_Returns get _ w w w eq_refl).
  assert (nextResp w = r1) as Hn1 by (unfold nextResp; by rewrite Ho).
  rewrite (bind_Returns _ _ _ _ _ (CreateFile_pass _ _ _ (eq_trans (f_equal passes Hn1) H1))).
  set (w1 := set_connected _ _).
  assert (handle (inode w1) = Some p) as Hp1 by exact Hp.
  assert (nextResp w1 = r2) as Hn2 by (unfold nextResp; cbn; by rewrite Ho).
  rewrite (bind_Returns _ _ _ _ _ (handle_SeekToStart_eq _ _ Hp1)). rewrite Hn2.
  assert (proxy_SeekToStart r2 p = (None, mkProxy (data p) 0%nat (mode p) (populated p))) as ->
    by (by destruct r2).
  cbn [fst snd].
  set (w2 := withProxy _ _).
  rewrite (bind_Returns streamFuel _ w2 (S (length (data p))) w2 eq_refl).
  assert (nextResp w2 = RespFail n e) as Hn3 by (unfold nextResp; cbn; by rewrite Ho).
  destruct (streamLoop_read_fails (length (data p)) operation fh
              (mkWriter (AbsolutePath (inode w))) bufSize 0 w2 _ n e eq_refl Hn3)
    as (w3 & Hl & Hi & Hd & Hor).
  rewrite (bind_Returns _ _ _ _ _ Hl).
  rewrite (bind_Returns _ _ _ _ _ (writer_Close_eq _ _)).
  assert (nextResp w3 = default RespOk (head rest)) as Hn4
    by (unfold nextResp; rewrite Hor; cbn; by rewrite Ho).
  rewrite Hn4. destruct (default RespOk (head rest)); [|done|].
  all: rewrite (bind_Returns _ _ _ _ _ (logWith_eq _ _ _ _ _));
    eexists; split; [reflexivity|]; cbn; by rewrite Hd.
Qed.

(** X16.  A failing read of the staging file is not reported.  When
    [CreateFile] and the seek go through, the first read of the staging file
    fails with any error, and the close of the writer goes through, [Flush]
    of a handle that has written bytes returns [nil]; the remote file is then
    empty, whatever the staging file holds. *)
Theorem Flush_hides_staging_read_error (cls : option error -> bool)
    (fh : FileHandle) (w : World) (p : FileProxy) (r1 r2 : Resp) (n : nat)
    (e : error) (rest : list Resp) :
  handle (inode w) = Some p ->
  0 < totalBytesWritten fh ->
  oracle w = r1 :: r2 :: RespFail n e :: rest ->
  passes r1 = true -> passes r2 = true ->
  passes (default RespOk (head rest)) = true ->
  exists w',
    Flush cls fh w = Returns None w' /\
    remoteFile w' = Some [] /\
    staged w' = Some (data p).
Proof.
  intros Hp Hpos Ho H1 H2 H4.
  pose proof (keeping_Flush cls fh w) as Hk.
  rewrite Flush_eq in *. replace (0 <? totalBytesWritten fh) with true in * by lia.
  rewrite copyToDFS_eq in * by lia.
  match goal with
  | |- context [copyLoop _ _ _ _ _ ?w0] =>
      destruct (FlushAttempt_read_fails Oper.Flush fh w0 p r1 r2 n e rest Hp Ho H1 H2 H4)
        as (w1 & Ha & Hd)
  end.
  rewrite (copyLoop_S _ _ _ _ _ _ _ _ Ha) in *.
  rewrite bool_decide_eq_false_2 in * by done. cbn [andb] in *.
  destruct Hk as (Hpath & _ & Hst & _).
  eexists. split; [reflexivity|]. split.
  - unfold remoteFile. rewrite Hpath. cbn. rewrite Hd. cbn. by rewrite lookup_insert_eq.
  - rewrite Hst. unfold staged. by rewrite Hp.
Qed.

(** The upload of "abc" over a remote file that held "old": the first read
    fails with a local error, [Flush] returns [nil] and the remote file is
    empty. *)
Lemma Flush_hides_staging_read_error_witness :
  exists w',
    Flush IsSuccessOrNonRetriableError_spec sampleHandle
      (set_dfs {[ "/dir/file" := [x6f; x6c; x64] ]}
         (sampleWorld [RespOk; RespOk; RespFail 0 ErrLocalIO]))
      = Returns None w' /\
    remoteFile w' = Some [] /\
    staged w' = Some bytes_abc.
Proof.
  apply (Flush_hides_staging_read_error IsSuccessOrNonRetriableError_spec sampleHandle
           (set_dfs {[ "/dir/file" := [x6f; x6c; x64] ]}
              (sampleWorld [RespOk; RespOk; RespFail 0 ErrLocalIO]))
           sampleProxy RespOk RespOk 0%nat ErrLocalIO [] eq_refl).
  - cbn. lia.
  - reflexivity.
  - reflexivity.
  - reflexivity.
  - reflexivity.
Defined.

(** X17.  What [Read] returns when the staging file answers.  For a staged
    file, a request within the capacity of the response and a non-negative
    offset, [Read] returns [nil] with the bytes of the staging file from the
    offset on, as many as asked for or as the file holds: fewer at the end of
    the file and none past it.  The staging file and its cursor are left as
    they are. *)
Theorem Read_returns_file_range (fh : FileHandle) (req : ReadRequest)
    (resp : ReadResponse) (w : World) (p : FileProxy) :
  handle (inode w) = Some p ->
  isStaged p = true ->
  passes (nextResp w) = true ->
  0 <= rOffset req ->
  0 <= rSize req <= Z.of_nat (rCap resp) ->
  exists fh' w',
    Read fh req resp w
      = Returns (fh', mkReadResp (take (Z.to_nat (rSize req))
                                    (drop (Z.to_nat (rOffset req)) (data p)))
                                 (rCap resp), None) w' /\
    handle (inode w') = Some p /\
    (Z.of_nat (length (data p)) <= rOffset req ->
       take (Z.to_nat (rSize req)) (drop (Z.to_nat (rOffset req)) (data p)) = []).
Proof.
  intros Hp Hst Hpass Hoff Hsz. unfold Read.
  replace (rSize req <? 0) with false by lia.
  replace (Z.of_nat (rCap resp) <? rSize req) with false by lia.
  cbn [orb]. unfold handle_ReadAt. munfold. rewrite Hp. cbn. rewrite Hst. cbn.
  rewrite (proxy_ReadAt_pass _ _ _ _ Hpass Hoff). unfold pread.
  destruct (_ <? _)%nat; cbn; [destruct (decide (io_EOF = io_EOF)); [|done]|];
    (do 2 eexists; split; [reflexivity|]; split; [exact Hp|];
     intros Hlen; rewrite drop_ge by lia; by rewrite take_nil).
Qed.

(** Four bytes asked for at offset 1 of the three-byte sample file: the two
    bytes that are there, and [nil]. *)
Lemma Read_returns_file_range_witness :
  exists fh' w',
    Read sampleHandle (mkReadReq 1 4) (mkReadResp [] 4) (sampleWorld [])
      = Returns (fh', mkReadResp [x62; x63] 4, None) w'.
Proof.
  destruct (Read_returns_file_range sampleHandle (mkReadReq 1 4) (mkReadResp [] 4)
              (sampleWorld []) sampleProxy eq_refl eq_refl eq_refl)
    as (fh' & w' & Hr & _).
  - cbn. lia.
  - cbn. lia.
  - exists fh', w'. exact Hr.
Defined.
